(** * H5P Story Map: navigation, view state and completion tracking

    A shallow embedding of the waypoint navigation core of the story map:
    - [Util]           src/scripts/services/util.js (sanitizeNumber),
    - [H5PUtil]        src/scripts/services/h5p-util.js (isInstanceTask),
    - [ContentBundle]  the content bundle with its tracking map,
    - [Waypoint], [GeoMap], [Map], [Button], [NavigationBar], [Main]
                       the components under src/scripts/components,
    - [StoryMap]       src/scripts/h5p-story-map.js, as far as it builds
                       the main component and sets the previous state,
    - [Leaflet]        the map capability the geo map drives,
    - [Session]        what can happen to a story map once it is built.

    JavaScript values are an inductive type with the [typeof] tags the code
    tests; numbers are the extended rationals with a not-a-number element.
    Code that can throw returns an [outcome].  Objects that are mutated in
    place become records that are threaded through the calls; a waypoint
    object is referred to by its position in [GeoMap.waypoints], which is
    where the only copy of it lives. *)

From Stdlib Require Import ZArith QArith Qround String Ascii List Bool Lia DecimalString.
From stdpp Require Import gmap.

(** ** JavaScript values *)

Module JS.

(** A JavaScript number: every finite double is a rational, so finite values
    are carried by [Q]; the two infinities and NaN are separate elements.
    The sign of zero is not represented. *)
Inductive number : Type :=
| NaN
| NegInf
| Fin (q : Q)
| PosInf.

Definition ofZ (z : Z) : number := Fin (inject_Z z).

Definition isNaN (n : number) : bool :=
  match n with NaN => true | _ => false end.

(** [a < b] on numbers; any comparison with NaN is false. *)
Definition lt (a b : number) : bool :=
  match a, b with
  | NaN, _ | _, NaN => false
  | NegInf, NegInf => false
  | NegInf, _ => true
  | Fin _, NegInf => false
  | Fin x, Fin y => negb (Qle_bool y x)
  | Fin _, PosInf => true
  | PosInf, _ => false
  end.

Definition gt (a b : number) : bool := lt b a.

(** [a >= b]. *)
Definition ge (a b : number) : bool :=
  match a, b with
  | NaN, _ | _, NaN => false
  | _, _ => negb (lt a b)
  end.

(** [a === b] on numbers. *)
Definition eqb (a b : number) : bool :=
  match a, b with
  | NegInf, NegInf | PosInf, PosInf => true
  | Fin x, Fin y => Qeq_bool x y
  | _, _ => false
  end.

Definition neg (a : number) : number :=
  match a with
  | NaN => NaN
  | NegInf => PosInf
  | Fin x => Fin (Qopp x)
  | PosInf => NegInf
  end.

Definition add (a b : number) : number :=
  match a, b with
  | NaN, _ | _, NaN => NaN
  | Fin x, Fin y => Fin (Qred (x + y))
  | NegInf, PosInf | PosInf, NegInf => NaN
  | NegInf, _ | _, NegInf => NegInf
  | PosInf, _ | _, PosInf => PosInf
  end.

Definition sub (a b : number) : number := add a (neg b).

Definition sign (a : number) : comparison :=
  match a with
  | Fin x => (Qnum x ?= 0)%Z
  | NegInf => Lt
  | _ => Gt
  end.

Definition mul (a b : number) : number :=
  match a, b with
  | NaN, _ | _, NaN => NaN
  | Fin x, Fin y => Fin (Qred (x * y))
  | _, _ =>
      match sign a, sign b with
      | Eq, _ | _, Eq => NaN
      | Lt, Lt | Gt, Gt => PosInf
      | _, _ => NegInf
      end
  end.

(** [Number.isFinite(n)]. *)
Definition isFinite (n : number) : bool :=
  match n with Fin _ => true | _ => false end.

(** [a <= b]. *)
Definition lte (a b : number) : bool :=
  match a, b with
  | NaN, _ | _, NaN => false
  | _, _ => negb (lt b a)
  end.

(** [Math.round(n)]: the nearest integer, a tie going up. *)
Definition mathRound (n : number) : number :=
  match n with
  | Fin q => Fin (inject_Z (Qfloor (q + (1 # 2))))
  | _ => n
  end.

(** [Math.min(a, b)] and [Math.max(a, b)]: NaN when an argument is NaN. *)
Definition mathMin (a b : number) : number :=
  match a, b with
  | NaN, _ | _, NaN => NaN
  | _, _ => if lt a b then a else b
  end.

Definition mathMax (a b : number) : number :=
  match a, b with
  | NaN, _ | _, NaN => NaN
  | _, _ => if lt b a then a else b
  end.

(** The values the modelled code handles.  [VFun] is a reference to a
    function object, named by the method it refers to. *)
Inductive jsvalue : Type :=
| VUndefined
| VNull
| VBool (b : bool)
| VNum (n : number)
| VStr (s : string)
| VFun (name : string).

Inductive jstype : Type :=
| TUndefined | TObject | TBoolean | TNumber | TString | TFunction.

Definition typeof (v : jsvalue) : jstype :=
  match v with
  | VUndefined => TUndefined
  | VNull => TObject
  | VBool _ => TBoolean
  | VNum _ => TNumber
  | VStr _ => TString
  | VFun _ => TFunction
  end.

Definition jstype_eqb (a b : jstype) : bool :=
  match a, b with
  | TUndefined, TUndefined | TObject, TObject | TBoolean, TBoolean
  | TNumber, TNumber | TString, TString | TFunction, TFunction => true
  | _, _ => false
  end.

Definition isNumber (v : jsvalue) : bool := jstype_eqb (typeof v) TNumber.

(** [a === b]: never true across types. *)
Definition strictEq (a b : jsvalue) : bool :=
  match a, b with
  | VUndefined, VUndefined | VNull, VNull => true
  | VBool x, VBool y => Bool.eqb x y
  | VNum x, VNum y => eqb x y
  | VStr x, VStr y => String.eqb x y
  | VFun x, VFun y => String.eqb x y
  | _, _ => false
  end.

Definition strictNeq (a b : jsvalue) : bool := negb (strictEq a b).

(** [a ?? b]. *)
Definition nullish (a b : jsvalue) : jsvalue :=
  match a with
  | VUndefined | VNull => b
  | _ => a
  end.

(** The boolean a value converts to in a condition. *)
Definition truthy (v : jsvalue) : bool :=
  match v with
  | VUndefined | VNull => false
  | VBool b => b
  | VNum NaN => false
  | VNum (Fin x) => negb (Qeq_bool x 0)
  | VNum _ => true
  | VStr s => negb (String.eqb s EmptyString)
  | VFun _ => true
  end.

(** [s.startsWith(prefix)]. *)
Fixpoint startsWith (prefix s : string) : bool :=
  match prefix, s with
  | EmptyString, _ => true
  | String a prefix', String b s' => Ascii.eqb a b && startsWith prefix' s'
  | String _ _, EmptyString => false
  end.

(** What is left of [s] after its first [n] characters. *)
Fixpoint dropString (n : nat) (s : string) : string :=
  match n, s with
  | O, _ => s
  | S n', String _ s' => dropString n' s'
  | S _, EmptyString => EmptyString
  end.

(** The first occurrence of [pattern] in [s]: what is before it and what
    is after it. *)
Fixpoint findFirst (pattern s : string) : option (string * string) :=
  if startsWith pattern s then Some (EmptyString, dropString (String.length pattern) s)
  else
    match s with
    | EmptyString => None
    | String c rest =>
        match findFirst pattern rest with
        | Some (before, after) => Some (String c before, after)
        | None => None
        end
    end.

(** The replacement text [String.prototype.replace] makes of its second
    argument when the first is a string: [$$] stands for a dollar sign,
    [$&] for the match, [$`] for what is before the match and [$'] for what
    is after it; there being no groups, any other [$] stands for itself. *)
Fixpoint substitution (matched before after template : string) : string :=
  match template with
  | EmptyString => EmptyString
  | String "$" (String "$" rest) =>
      String "$" (substitution matched before after rest)
  | String "$" (String "&" rest) =>
      (matched ++ substitution matched before after rest)%string
  | String "$" (String "`" rest) =>
      (before ++ substitution matched before after rest)%string
  | String "$" (String "'" rest) =>
      (after ++ substitution matched before after rest)%string
  | String c rest => String c (substitution matched before after rest)
  end.

(** [s.replace(pattern, replacement)] for strings [pattern] and
    [replacement]: the first occurrence is replaced, if there is one. *)
Definition replace (pattern replacement s : string) : string :=
  match findFirst pattern s with
  | Some (before, after) =>
      (before ++ substitution pattern before after replacement ++ after)%string
  | None => s
  end.

Definition ofOption {A : Type} (inj : A -> jsvalue) (o : option A) : jsvalue :=
  match o with
  | Some a => inj a
  | None => VUndefined
  end.

(** What the runtime supplies and the code calls: the global [parseFloat],
    [Number.prototype.toString] and [String.prototype.trim], and the
    arithmetic of doubles where the code adds, subtracts and divides
    numbers that are not known to be small integers: [a + b], [a - b] and
    [a / b], which round, overflow and underflow as the runtime has it. *)
Record Runtime : Type := {
  parseFloat : string -> number;
  toString : number -> string;
  trim : string -> string;
  plus : number -> number -> number;
  minus : number -> number -> number;
  quotient : number -> number -> number
}.

End JS.

Import JS.

(** ** Results of code that can throw *)

Inductive outcome (A : Type) : Type :=
| Returned (a : A)
| Thrown (msg : string).

Arguments Returned {A} a.
Arguments Thrown {A} msg.

#[global] Instance outcome_ret : MRet outcome := fun A a => Returned a.

#[global] Instance outcome_bind : MBind outcome := fun A B f m =>
  match m with
  | Returned a => f a
  | Thrown msg => Thrown msg
  end.

(** ** services/util.js *)

Module Util.

Section WithRuntime.
Variable rt : Runtime.

(** [sanitizeNumber(value, defaultValue, min, max)]. *)
Definition sanitizeNumber (value defaultValue min max : jsvalue) : outcome jsvalue :=
  let result :=
    match value with
    | VStr s =>
        let parsed := parseFloat rt s in
        if String.eqb (toString rt parsed) (trim rt s) then VNum parsed else VNum NaN
    | _ => value
    end in
  let fallback :=
    if isNumber defaultValue then Returned defaultValue
    else Thrown "Invalid default value" in
  match result with
  | VNum r =>
      if isNaN r then fallback
      else
        let belowMin := match min with VNum lo => lt r lo | _ => false end in
        let aboveMax := match max with VNum hi => gt r hi | _ => false end in
        if belowMin then Returned min
        else if aboveMax then Returned max
        else Returned result
  | _ => fallback
  end.

End WithRuntime.

(** [s.split(separator)] for a separator of one character: the first
    segment and those after it. *)
Fixpoint splitFirst (separator : ascii) (s : string) : string * list string :=
  match s with
  | EmptyString => (EmptyString, [])
  | String c rest =>
      let (segment, segments) := splitFirst separator rest in
      if Ascii.eqb c separator then (EmptyString, segment :: segments)
      else (String c segment, segments)
  end.

Definition split (separator : ascii) (s : string) : list string :=
  let (segment, segments) := splitFirst separator s in segment :: segments.

(** [s.includes(c)] for a string [c] of one character. *)
Fixpoint includes (c : ascii) (s : string) : bool :=
  match s with
  | EmptyString => false
  | String c' rest => Ascii.eqb c' c || includes c rest
  end.

(** [segments.join(separator)]. *)
Fixpoint join (separator : string) (segments : list string) : string :=
  match segments with
  | [] => EmptyString
  | segment :: rest =>
      match rest with
      | [] => segment
      | _ => (segment ++ separator ++ join separator rest)%string
      end
  end.

Section WithParseFloat.
Variable rt : Runtime.

(** [parseAspectRatio(value)]; [None] is the null it returns. *)
Definition parseAspectRatio (value : jsvalue) : option number :=
  match value with
  | VNum n => if isFinite n then Some n else None
  | VStr s =>
      if includes "/" s then
        match split "/" s with
        | [first; second] =>
            let width := parseFloat rt first in
            let height := parseFloat rt second in
            if isNaN width || negb (isFinite width) || lte width (ofZ 0) ||
               isNaN height || negb (isFinite height) || lte height (ofZ 0)
            then None
            else Some (quotient rt width height)
        | _ => None
        end
      else
        let floatValue := parseFloat rt s in
        if negb (isNaN floatValue) && isFinite floatValue then Some floatValue else None
  | _ => None
  end.

End WithParseFloat.

Section WithCase.
(** [String.prototype.toLowerCase] and [toUpperCase]. *)
Variable toLowerCase : string -> string.
Variable toUpperCase : string -> string.

(** [formatLanguageCode(languageCode)]. *)
Definition formatLanguageCode (languageCode : jsvalue) : jsvalue :=
  match languageCode with
  | VStr s =>
      let (first, rest) := splitFirst "-" s in
      let first := toLowerCase first in
      let rest :=
        match rest with
        | second :: more => toUpperCase second :: more
        | [] => []
        end in
      VStr (join "-" (first :: rest))
  | _ => languageCode
  end.

End WithCase.

(** What [extend] merges: a primitive value (a function counts as one, its
    properties not being held), or a plain object with its own enumerable
    properties in the order of their creation, each key once.  Arrays are
    not among them, nor is the inherited key [__proto__].  An object is
    held by value: the arguments of [extend] are taken to share no object
    with each other or within themselves. *)
Unset Elimination Schemes.

Inductive jsobject : Type :=
| Primitive (v : jsvalue)
| Object (properties : list (string * jsobject)).

Set Elimination Schemes.

(** [typeof o === 'object']. *)
Definition isObject (o : jsobject) : bool :=
  match o with
  | Primitive v => jstype_eqb (typeof v) TObject
  | Object _ => true
  end.

(** [o[key]] for a key that is not inherited. *)
Fixpoint get (key : string) (properties : list (string * jsobject)) : jsobject :=
  match properties with
  | [] => Primitive VUndefined
  | (k, v) :: rest => if String.eqb k key then v else get key rest
  end.

(** [o[key] = v]: the property keeps its place when it is there already. *)
Fixpoint set (key : string) (v : jsobject) (properties : list (string * jsobject))
    : list (string * jsobject) :=
  match properties with
  | [] => [(key, v)]
  | (k, old) :: rest =>
      if String.eqb k key then (k, v) :: rest else (k, old) :: set key v rest
  end.

(** The characters of a string as the properties a loop over it finds:
    the indices as keys. *)
Definition characters (s : string) : list (string * jsvalue) :=
  imap (fun index c => (NilZero.string_of_uint (Nat.to_uint index), VStr (String c EmptyString)))
       (list_ascii_of_string s).

(** [args[0][key] = v] for each of the properties, none of which is an
    object or undefined. *)
Fixpoint assignAll (properties : list (string * jsvalue)) (target : jsobject)
    : outcome jsobject :=
  match properties with
  | [] => Returned target
  | (key, v) :: rest =>
      match target with
      | Object fields => assignAll rest (Object (set key (Primitive v) fields))
      | Primitive VNull | Primitive VUndefined => Thrown "TypeError: Cannot read properties"
      | Primitive (VFun _) => assignAll rest target
      | Primitive _ => Thrown "TypeError: Cannot create property"
      end
  end.

(** The two loops of [extend] for one source [args[i]], on the target
    [args[0]].  Reading a property of null or undefined throws; so does, in
    a module, creating a property on a number, a string or a boolean. *)
Fixpoint merge (target source : jsobject) {struct source} : outcome jsobject :=
  match source with
  | Primitive (VStr s) => assignAll (characters s) target
  | Primitive _ => Returned target
  | Object properties =>
      (fix mergeProperties (properties : list (string * jsobject)) (target : jsobject)
           {struct properties} : outcome jsobject :=
         match properties with
         | [] => Returned target
         | (key, v) :: rest =>
             match target with
             | Object fields =>
                 if isObject (get key fields) && isObject v then
                   merged ← merge (get key fields) v;
                   mergeProperties rest (Object (set key merged fields))
                 else
                   match v with
                   | Primitive VUndefined => mergeProperties rest target
                   | _ => mergeProperties rest (Object (set key v fields))
                   end
             | Primitive VNull | Primitive VUndefined =>
                 Thrown "TypeError: Cannot read properties"
             | Primitive (VFun _) => mergeProperties rest target
             | Primitive _ =>
                 match v with
                 | Primitive VUndefined => mergeProperties rest target
                 | _ => Thrown "TypeError: Cannot create property"
                 end
             end
         end) properties target
  end.

(** [extend(...args)]: [args[0]] with the sources merged into it, one after
    the other; undefined when called without arguments. *)
Definition extend (args : list jsobject) : outcome jsobject :=
  match args with
  | [] => Returned (Primitive VUndefined)
  | target :: sources =>
      foldl (fun acc source => target ← acc; merge target source) (Returned target) sources
  end.

End Util.

(** ** services/h5p-util.js *)

(** An embedded content instance as the bundle sees it: the properties and
    methods of the instance that the code probes.  [getMaxScore] and
    [getScore] are [None] when the instance has no such method.
    [xAPIListeners] holds the content index each subscribed xAPI handler
    closes over, [resetTaskCalls] counts the calls of [resetTask]. *)
Record Instance : Type := {
  isTask : jsvalue;
  getMaxScore : option number;
  getScore : option number;
  hasResetTask : bool;
  resetTaskCalls : nat;
  xAPIListeners : list nat
}.

(** What an entry of [contents] makes of an instance. *)
Record Content : Type := {
  contentIsTask : jsvalue;
  contentGetMaxScore : option number;
  contentGetScore : option number;
  contentHasResetTask : bool
}.

Module H5P.

(** [H5P.newRunnable]: a new instance, with no listeners yet; [content] is
    [None] for content parameters it makes no instance of. *)
Definition newRunnable (content : option Content) : option Instance :=
  (fun c => {| isTask := contentIsTask c;
               getMaxScore := contentGetMaxScore c;
               getScore := contentGetScore c;
               hasResetTask := contentHasResetTask c;
               resetTaskCalls := 0;
               xAPIListeners := [] |}) <$> content.

End H5P.

Module H5PUtil.

(** [isInstanceTask(instance)]. *)
Definition isInstanceTask (instance : Instance) : bool :=
  match isTask instance with
  | VBool b => b
  | _ =>
      match getMaxScore instance with
      | Some m => gt m (ofZ 0)
      | None => false
      end
  end.

End H5PUtil.

(** ** The content bundle *)

(** The [result] of an xAPI statement; a field is [None] when absent. *)
Record XAPIResult : Type := {
  completion : option bool;
  success : option bool;
  score : option number;
  maxScore : option number
}.

(** An xAPI event: what [getMaxScore()], [getVerb()] and
    [getVerifiedStatementValue(['result'])] return for it. *)
Record XAPIEvent : Type := {
  eventMaxScore : jsvalue;
  eventVerb : string;
  eventResult : option XAPIResult
}.

(** A record of the tracking map.  [trIsTask] is [None] on records written
    by the xAPI handler, which sets no [isTask] property. *)
Record Tracking : Type := {
  trIsTask : option bool;
  trCompleted : bool;
  trSuccess : bool
}.

Module ContentBundle.

Import H5PUtil.

Record t : Type := {
  instances : list Instance;
  trackingMap : gmap nat Tracking;
  taskCompletedCalls : nat
}.

Definition empty : t :=
  {| instances := []; trackingMap := ∅; taskCompletedCalls := 0 |}.

Definition emptyResult : XAPIResult :=
  {| completion := None; success := None; score := None; maxScore := None |}.

(** The expression
    [result.success ?? (result.maxScore) ? ((result.score ?? 0) >= result.maxScore) : false]:
    [??] binds tighter than the conditional, so the condition is
    [result.success ?? result.maxScore]. *)
Definition successOf (result : XAPIResult) : bool :=
  if truthy (nullish (ofOption VBool (success result)) (ofOption VNum (maxScore result)))
  then
    match maxScore result with
    | Some m => ge (default (ofZ 0) (score result)) m
    | None => false (* a comparison with undefined is false *)
    end
  else false.

(** The handler [addContent] subscribes to a task's xAPI events; [index] is
    the content index it closes over. *)
Definition xAPIHandler (index : nat) (event : XAPIEvent) (b : t) : t :=
  if negb (isNumber (eventMaxScore event)) then b
  else if negb (String.eqb (eventVerb event) "completed" ||
                String.eqb (eventVerb event) "answered") then b
  else
    let result := default emptyResult (eventResult event) in
    {| instances := instances b;
       trackingMap :=
         <[index := {| trIsTask := None;
                       trCompleted := default true (completion result);
                       trSuccess := successOf result |}]> (trackingMap b);
       taskCompletedCalls := S (taskCompletedCalls b) |}.

Definition seeded : Tracking :=
  {| trIsTask := Some false; trCompleted := true; trSuccess := true |}.

Definition subscribe (index : nat) (instance : Instance) : Instance :=
  {| isTask := isTask instance;
     getMaxScore := getMaxScore instance;
     getScore := getScore instance;
     hasResetTask := hasResetTask instance;
     resetTaskCalls := resetTaskCalls instance;
     xAPIListeners := xAPIListeners instance ++ [index] |}.

(** [addContent(contentParams, index)]. *)
Definition addContent (contentParams : option Content) (index : nat) (b : t) : t :=
  match H5P.newRunnable contentParams with
  | None => b
  | Some instance =>
      if isInstanceTask instance then
        {| instances := instances b ++ [subscribe index instance];
           trackingMap := trackingMap b;
           taskCompletedCalls := taskCompletedCalls b |}
      else
        {| instances := instances b ++ [instance];
           trackingMap := <[index := seeded]> (trackingMap b);
           taskCompletedCalls := taskCompletedCalls b |}
  end.

(** [contents.forEach((contentParams, index) => addContent(..., index))],
    from [index] on. *)
Fixpoint addContents (contents : list (option Content)) (index : nat) (b : t) : t :=
  match contents with
  | [] => b
  | content :: rest => addContents rest (S index) (addContent content index b)
  end.

(** The constructor. *)
Definition construct (contents : list (option Content)) : t :=
  addContents contents 0 empty.

(** The instance at [position] of [instances] triggers an xAPI event: its
    subscribed handlers run in order. *)
Definition triggerXAPI (position : nat) (event : XAPIEvent) (b : t) : t :=
  match instances b !! position with
  | Some instance =>
      fold_left (fun acc index => xAPIHandler index event acc) (xAPIListeners instance) b
  | None => b
  end.

(** [containsAnyTask()]. *)
Definition containsAnyTask (b : t) : bool :=
  existsb isInstanceTask (instances b).

(** [isCompleted()]. *)
Definition isCompleted (b : t) : bool :=
  Nat.eqb (length (instances b)) (size (trackingMap b)) &&
  forallb (fun entry => trCompleted entry.2) (map_to_list (trackingMap b)).

Definition resetInstance (instance : Instance) : Instance :=
  if hasResetTask instance then
    {| isTask := isTask instance;
       getMaxScore := getMaxScore instance;
       getScore := getScore instance;
       hasResetTask := hasResetTask instance;
       resetTaskCalls := S (resetTaskCalls instance);
       xAPIListeners := xAPIListeners instance |}
  else instance.

(** One round of the loop over the keys of the tracking map in [reset]. *)
Definition resetEntry (index : nat) (m : gmap nat Tracking) : gmap nat Tracking :=
  match m !! index with
  | Some entry =>
      match trIsTask entry with
      | Some false => m
      | _ => delete index m
      end
  | None => m
  end.

(** [reset()]. *)
Definition reset (b : t) : t :=
  {| instances := map resetInstance (instances b);
     trackingMap := foldr resetEntry (trackingMap b) (map_to_list (trackingMap b)).*1;
     taskCompletedCalls := taskCompletedCalls b |}.

(** [instance?.getScore?.() || 0]: what a method returns, or 0 when the
    method is missing or returns a value that counts as false (0, NaN). *)
Definition orZero (result : option number) : number :=
  match result with
  | Some n => if truthy (VNum n) then n else ofZ 0
  | None => ofZ 0
  end.

(** [getScore()] and [getMaxScore()]: [reduce] from 0 with the addition
    of the runtime. *)
Definition getScore (rt : Runtime) (b : t) : number :=
  fold_left (fun total instance => plus rt total (orZero (getScore instance)))
            (instances b) (ofZ 0).

Definition getMaxScore (rt : Runtime) (b : t) : number :=
  fold_left (fun total instance => plus rt total (orZero (getMaxScore instance)))
            (instances b) (ofZ 0).

(** The content indices of the task instances: those the subscribed xAPI
    handlers close over. *)
Definition taskIndices (b : t) : list nat :=
  flat_map xAPIListeners (instances b).

(** What happens to a bundle after its construction. *)
Inductive event : Type :=
| TriggerXAPI (position : nat) (e : XAPIEvent)
| ResetBundle.

Definition step (ev : event) (b : t) : t :=
  match ev with
  | TriggerXAPI position e => triggerXAPI position e b
  | ResetBundle => reset b
  end.

Definition run (events : list event) (b : t) : t :=
  fold_left (fun acc ev => step ev acc) events b.

End ContentBundle.

(** ** models/waypoint.js *)

(** One entry of the configured waypoint list.  [wpId] is [params.id], or the
    UUID generated for it when the configuration has none; an empty [wpTitle]
    stands for a missing title.  The coordinates are numbers, as the
    number fields of the editor give them. *)
Record WaypointParams : Type := {
  wpId : string;
  wpLatitude : number;
  wpLongitude : number;
  wpTitle : string;
  wpContents : list (option Content)
}.

Module Waypoint.

(** [latitude] and [longitude] are those of the parameters, which are also
    the position of the marker. *)
Record t : Type := {
  index : Z;
  id : string;
  title : string;
  latitude : number;
  longitude : number;
  contentBundle : ContentBundle.t;
  markerIsOpen : option bool (* undefined until [setOpen] is first called *)
}.

(** The constructor; [unnamedWaypoint] is the dictionary entry
    [l10n.unnamedWaypoint]. *)
Definition construct (unnamedWaypoint : string) (index : Z) (params : WaypointParams) : t :=
  {| index := index;
     id := wpId params;
     title := if String.eqb (wpTitle params) "" then unnamedWaypoint else wpTitle params;
     latitude := wpLatitude params;
     longitude := wpLongitude params;
     contentBundle := ContentBundle.construct (wpContents params);
     markerIsOpen := None |}.

Definition getId (w : t) : string := id w.
Definition getIndex (w : t) : Z := index w.
Definition getTitle (w : t) : string := title w.

(** [setOpen(open)]. *)
Definition setOpen (open : bool) (w : t) : t :=
  {| index := index w;
     id := id w;
     title := title w;
     latitude := latitude w;
     longitude := longitude w;
     contentBundle := contentBundle w;
     markerIsOpen := Some open |}.

(** [isOpen()], as the condition it is used for: undefined counts as closed. *)
Definition isOpen (w : t) : bool := default false (markerIsOpen w).

End Waypoint.

(** ** The map capability

    The Leaflet map the geo map drives, reduced to what the code reads and
    writes: the view (centre and zoom), the zoom bounds it reports and the
    size of its container.  The map is created without options, so its
    least zoom is 0 and its greatest zoom is that of its tile layer, and
    Infinity while it has none.  [setView] and [setZoom] limit the zoom
    they are given: they round it to a whole zoom level and move it into the
    zoom bounds; like Leaflet they reject a centre that is not a pair of
    numbers.  How coordinates map to container points is the capability's
    business and is a parameter, [Projection]. *)

Module Leaflet.

Record LatLng : Type := { lat : number; lng : number }.
Record Point : Type := { x : number; y : number }.

(** [layersMaxZoom] is the greatest zoom of the tile layer that is on the
    map, [None] while there is none. *)
Record t : Type := {
  center : LatLng;
  zoom : number;
  layersMaxZoom : option number;
  width : number;
  height : number
}.

Record Projection : Type := {
  latLngToContainerPoint : t -> LatLng -> Point;
  containerPointToLatLng : t -> Point -> LatLng
}.

(** The greatest zoom of a tile layer whose options give none. *)
Definition TILE_LAYER_MAX_ZOOM : number := ofZ 18.

(** [L.map(element)] for an element of the given size.  The map has no
    view until the first [setView], which the constructor of the geo map
    calls before anything reads the view; the centre (0, 0) and the zoom 0
    stand in for it. *)
Definition create (width height : number) : t :=
  {| center := {| lat := ofZ 0; lng := ofZ 0 |};
     zoom := ofZ 0;
     layersMaxZoom := None;
     width := width;
     height := height |}.

(** [getMinZoom()] and [getMaxZoom()]. *)
Definition minZoom (m : t) : number := ofZ 0.

Definition maxZoom (m : t) : number := default PosInf (layersMaxZoom m).

(** The zoom [setView] and [setZoom] make of the zoom they are given: with
    the default zoom snap of 1,
    [Math.max(min, Math.min(max, Math.round(zoom)))]. *)
Definition limitZoom (m : t) (z : number) : number :=
  mathMax (minZoom m) (mathMin (maxZoom m) (mathRound z)).

Definition toLatLng (latitude longitude : jsvalue) : outcome LatLng :=
  match latitude, longitude with
  | VNum a, VNum b =>
      if isNaN a || isNaN b then Thrown "Invalid LatLng object"
      else Returned {| lat := a; lng := b |}
  | _, _ => Thrown "Invalid LatLng object"
  end.

Definition withView (c : LatLng) (z : number) (m : t) : t :=
  {| center := c; zoom := z; layersMaxZoom := layersMaxZoom m;
     width := width m; height := height m |}.

Definition withSize (width height : number) (m : t) : t :=
  {| center := center m; zoom := zoom m; layersMaxZoom := layersMaxZoom m;
     width := width; height := height |}.

(** [setView(center, zoom)]; the zoom is a number, as it is in every call
    of the story map, or undefined, which keeps the zoom of the map. *)
Definition setView (latitude longitude zoomLevel : jsvalue) (m : t) : outcome t :=
  c ← toLatLng latitude longitude;
  mret (withView c (match zoomLevel with VNum z => limitZoom m z | _ => zoom m end) m).

(** [panTo(center)]: [setView] with the zoom of the map. *)
Definition panTo (latitude longitude : jsvalue) (m : t) : outcome t :=
  setView latitude longitude (VNum (zoom m)) m.

(** [setZoom(zoom)] on a map that has a view: [setView] with the centre
    of the map. *)
Definition setZoom (zoomLevel : jsvalue) (m : t) : t :=
  withView (center m) (match zoomLevel with VNum z => limitZoom m z | _ => zoom m end) m.

(** A tile layer with the greatest zoom [layerMaxZoom] is put on the map
    in place of the one that was there: the zoom bounds follow it, and a
    zoom above the new bound is set to it. *)
Definition addTileLayer (layerMaxZoom : number) (m : t) : t :=
  let m := {| center := center m; zoom := zoom m; layersMaxZoom := Some layerMaxZoom;
              width := width m; height := height m |} in
  if truthy (VNum layerMaxZoom) && gt (zoom m) layerMaxZoom
  then setZoom (VNum layerMaxZoom) m
  else m.

(** [L.marker([latitude, longitude])]: the position of the marker. *)
Definition marker (latitude longitude : jsvalue) : outcome LatLng :=
  toLatLng latitude longitude.

Definition subtract (p q : Point) : Point :=
  {| x := sub (x p) (x q); y := sub (y p) (y q) |}.

End Leaflet.

(** ** components/map/geo-map.js *)

Record Coordinates : Type := {
  coordLatitude : jsvalue;
  coordLongitude : jsvalue
}.

(** What [setView] is given for its coordinates: an object, whose
    properties [latitude] and [longitude] are undefined where it has none,
    or a value that is no object. *)
Inductive CoordinatesArgument : Type :=
| CoordinatesObject (coordinates : Coordinates)
| CoordinatesValue (v : jsvalue).

(** The options of [centerOnWaypoint] and [panTo]; an absent option is
    [VUndefined]. *)
Record CenterOptions : Type := {
  positionXPercentage : jsvalue;
  positionYPercentage : jsvalue;
  optZoomLevel : jsvalue
}.

Module GeoMap.

Definition LATITUDE_MIN : number := ofZ (-90).
Definition LATITUDE_MAX : number := ofZ 90.
Definition LONGITUDE_MIN : number := ofZ (-180).
Definition LONGITUDE_MAX : number := ofZ 180.
Definition DEFAULT_MAP_CENTER_X_PERCENTAGE : number := Fin 0.5.
Definition DEFAULT_MAP_CENTER_Y_PERCENTAGE : number := Fin 0.5.
Definition DEFAULT_ZOOM_LEVEL : number := ofZ 13.
Definition DEFAULT_COORDINATES : number * number := (Fin 69.6456737, Fin 18.9501558).

(** [MAP_SERVICES]: its keys, each with the [maxZoom] of its options,
    [None] where the options give none. *)
Definition MAP_SERVICES : list (string * option number) :=
  [("cartoDB", None); ("esriNATGeoWorldMap", Some (ofZ 12));
   ("esriWorldPhysicalMap", Some (ofZ 8)); ("esriWorldTopoMap", None);
   ("openStreetMap", None); ("openTopoMap", Some (ofZ 17))]%string.

(** The property names [MAP_SERVICES] inherits from [Object.prototype]:
    for these [MAP_SERVICES[mapStyle]] is there, although it is no map
    service. *)
Definition OBJECT_PROTOTYPE : list string :=
  ["constructor"; "__defineGetter__"; "__defineSetter__"; "hasOwnProperty";
   "__lookupGetter__"; "__lookupSetter__"; "isPrototypeOf"; "propertyIsEnumerable";
   "toString"; "valueOf"; "__proto__"; "toLocaleString"]%string.

(** The options of the map service under an own key of [MAP_SERVICES]. *)
Definition mapService (mapStyle : string) : option (option number) :=
  snd <$> List.find (fun service => String.eqb service.1 mapStyle) MAP_SERVICES.

Definition inherited (mapStyle : string) : bool :=
  existsb (String.eqb mapStyle) OBJECT_PROTOTYPE.

Record Params : Type := {
  paramWaypoints : list WaypointParams;
  paramZoomLevel : jsvalue;
  paramCoordinates : Coordinates;
  paramUnnamedWaypoint : string
}.

Record t : Type := {
  zoomLevel : jsvalue;          (* this.params.zoomLevel, sanitized *)
  map : Leaflet.t;
  waypoints : list Waypoint.t;
  miniMapVisible : option bool  (* undefined until first set *)
}.

Definition withMap (m : Leaflet.t) (g : t) : t :=
  {| zoomLevel := zoomLevel g; map := m; waypoints := waypoints g;
     miniMapVisible := miniMapVisible g |}.

Definition withWaypoints (ws : list Waypoint.t) (g : t) : t :=
  {| zoomLevel := zoomLevel g; map := map g; waypoints := ws;
     miniMapVisible := miniMapVisible g |}.

Definition withMiniMapVisible (v : option bool) (g : t) : t :=
  {| zoomLevel := zoomLevel g; map := map g; waypoints := waypoints g;
     miniMapVisible := v |}.

(** The number a sanitized value is. *)
Definition asNumber (v : jsvalue) : number :=
  match v with VNum n => n | _ => NaN end.

Section WithEnvironment.
Variable rt : Runtime.
Variable projection : Leaflet.Projection.

(** The object [setView] reads its coordinates from: the default [{}] for
    undefined; null has no properties to read; any other value that is no
    object has neither of the two properties. *)
Definition coordinatesOf (argument : CoordinatesArgument) : outcome Coordinates :=
  match argument with
  | CoordinatesObject coordinates => mret coordinates
  | CoordinatesValue VNull => Thrown "TypeError: Cannot read properties of null"
  | CoordinatesValue _ => mret {| coordLatitude := VUndefined; coordLongitude := VUndefined |}
  end.

(** [setView(coordinates, zoomLevel)]. *)
Definition setView (coordinates : CoordinatesArgument) (zoomLevel : jsvalue) (g : t)
    : outcome t :=
  coordinates ← coordinatesOf coordinates;
  latitude ← Util.sanitizeNumber rt (coordLatitude coordinates)
               (VNum DEFAULT_COORDINATES.1) (VNum LATITUDE_MIN) (VNum LATITUDE_MAX);
  longitude ← Util.sanitizeNumber rt (coordLongitude coordinates)
                (VNum DEFAULT_COORDINATES.2) (VNum LONGITUDE_MIN) (VNum LONGITUDE_MAX);
  zoomLevel ← Util.sanitizeNumber rt zoomLevel (VNum DEFAULT_ZOOM_LEVEL)
                (VNum (Leaflet.minZoom (map g))) (VNum (Leaflet.maxZoom (map g)));
  m ← Leaflet.setView latitude longitude zoomLevel (map g);
  mret (withMap m g).

(** [getCoordinates()]. *)
Definition getCoordinates (g : t) : Leaflet.LatLng := Leaflet.center (map g).

(** [getZoomLevel()]. *)
Definition getZoomLevel (g : t) : number := Leaflet.zoom (map g).

(** [getSize()]: width and height of the map's element. *)
Definition getSize (g : t) : number * number :=
  (Leaflet.width (map g), Leaflet.height (map g)).

(** [getWaypointById(id)]: the first waypoint with that id. *)
Definition getWaypointById (id : string) (g : t) : option nat :=
  fst <$> list_find (fun w => String.eqb (Waypoint.getId w) id = true) (waypoints g).

(** [getWaypointByIndex(index)]. *)
Definition getWaypointByIndex (index : jsvalue) (g : t) : option nat :=
  match index with
  | VNum n =>
      if lt n (ofZ 0) || ge n (ofZ (Z.of_nat (length (waypoints g)))) then None
      else fst <$> list_find (fun w => eqb (ofZ (Waypoint.getIndex w)) n = true) (waypoints g)
  | _ => None
  end.

(** [panTo(coordinates, options)].  The handler registered for the end of
    the move, which sets the zoom, runs once the pan is done. *)
Definition panTo (coordinates : Coordinates) (options : CenterOptions) (g : t) : outcome t :=
  if negb (isNumber (coordLatitude coordinates)) || negb (isNumber (coordLongitude coordinates))
  then mret g
  else
    latitude ← Util.sanitizeNumber rt (coordLatitude coordinates)
                 (VNum DEFAULT_COORDINATES.1) (VNum LATITUDE_MIN) (VNum LATITUDE_MAX);
    longitude ← Util.sanitizeNumber rt (coordLongitude coordinates)
                  (VNum DEFAULT_COORDINATES.2) (VNum LONGITUDE_MIN) (VNum LONGITUDE_MAX);
    m ← Leaflet.panTo latitude longitude (map g);
    mret (withMap (if truthy (optZoomLevel options)
                   then Leaflet.setZoom (optZoomLevel options) m else m) g).

(** The point of the container the marker is to land on. *)
Definition targetPoint (g : t) (px py : jsvalue) : Leaflet.Point :=
  {| Leaflet.x := mul (getSize g).1 (asNumber px);
     Leaflet.y := mul (getSize g).2 (asNumber py) |}.

(** [centerOnWaypoint(id, options)]. *)
Definition centerOnWaypoint (id : string) (options : CenterOptions) (g : t) : outcome t :=
  let mapSize := getSize g in
  if eqb mapSize.1 (ofZ 0) || eqb mapSize.2 (ofZ 0) then mret g
  else
    px ← Util.sanitizeNumber rt (positionXPercentage options)
           (VNum DEFAULT_MAP_CENTER_X_PERCENTAGE) (VNum (ofZ 0)) (VNum (ofZ 1));
    py ← Util.sanitizeNumber rt (positionYPercentage options)
           (VNum DEFAULT_MAP_CENTER_Y_PERCENTAGE) (VNum (ofZ 0)) (VNum (ofZ 1));
    let options := {| positionXPercentage := px; positionYPercentage := py;
                      optZoomLevel := optZoomLevel options |} in
    match getWaypointById id g ≫= fun ref => waypoints g !! ref with
    | None => mret g
    | Some waypoint =>
        let markerLatLng := {| Leaflet.lat := Waypoint.latitude waypoint;
                               Leaflet.lng := Waypoint.longitude waypoint |} in
        let markerPoint := Leaflet.latLngToContainerPoint projection (map g) markerLatLng in
        let offset := Leaflet.subtract (targetPoint g px py) markerPoint in
        let centerPoint :=
          Leaflet.latLngToContainerPoint projection (map g) (Leaflet.center (map g)) in
        let newCenterPoint := Leaflet.subtract centerPoint offset in
        let newCenterLatLng := Leaflet.containerPointToLatLng projection (map g) newCenterPoint in
        panTo {| coordLatitude := VNum (Leaflet.lat newCenterLatLng);
                 coordLongitude := VNum (Leaflet.lng newCenterLatLng) |} options g
    end.

(** [reset()]. *)
Definition reset (g : t) : outcome t :=
  let g := withWaypoints (Waypoint.setOpen false <$> waypoints g) g in
  match waypoints g with
  | [] => mret g
  | first :: _ =>
      centerOnWaypoint (Waypoint.getId first)
        {| positionXPercentage := VUndefined; positionYPercentage := VUndefined;
           optZoomLevel := zoomLevel g |} g
  end.

(** [toggleMiniMapVisibility(state)]; [state] is [None] when the argument
    is not a boolean. *)
Definition toggleMiniMapVisibility (state : option bool) (g : t) : t :=
  withMiniMapVisible
    (Some (match state with
           | Some b => b
           | None => negb (default false (miniMapVisible g))
           end)) g.

(** [setMapStyle(mapStyle)]: the tile layer of the style and the mini
    map.  With an inherited name [MAP_SERVICES[mapStyle]] has no URL
    template, and the tile layer made of it fails on the map. *)
Definition setMapStyle (mapStyle : string) (g : t) : outcome t :=
  match mapService mapStyle with
  | Some options =>
      let g := withMap (Leaflet.addTileLayer
                          (default Leaflet.TILE_LAYER_MAX_ZOOM options) (map g)) g in
      mret (match miniMapVisible g with
            | None => toggleMiniMapVisibility (Some false) g
            | Some _ => g
            end)
  | None =>
      if inherited mapStyle then Thrown "TypeError: Cannot read properties of undefined"
      else mret g
  end.

(** [setOpenWaypoint(waypoint)]: open the waypoint object at position
    [waypoint] and close the others. *)
Definition setOpenWaypoint (waypoint : nat) (g : t) : t :=
  withWaypoints
    (imap (fun position waypointToOpen =>
             Waypoint.setOpen (Nat.eqb position waypoint) waypointToOpen)
          (waypoints g)) g.

(** [addWaypoint(params)]: the marker, which Leaflet rejects when a
    coordinate is NaN, and the waypoint. *)
Definition addWaypoint (unnamedWaypoint : string) (index : nat) (params : WaypointParams)
    (g : t) : outcome t :=
  marker ← Leaflet.marker (VNum (wpLatitude params)) (VNum (wpLongitude params));
  mret (withWaypoints
          (waypoints g ++ [Waypoint.construct unnamedWaypoint (Z.of_nat index) params]) g).

(** [waypoints.forEach((waypointParams, index) => addWaypoint(...))], from
    [index] on. *)
Fixpoint addWaypoints (unnamedWaypoint : string) (waypoints : list WaypointParams)
    (index : nat) (g : t) : outcome t :=
  match waypoints with
  | [] => mret g
  | waypointParams :: rest =>
      g ← addWaypoint unnamedWaypoint index waypointParams g;
      addWaypoints unnamedWaypoint rest (S index) g
  end.

(** The constructor with [buildMap()]; [leaflet] is the map [L.map] creates
    for the element. *)
Definition construct (leaflet : Leaflet.t) (params : Params) : outcome t :=
  zoomLevel ← Util.sanitizeNumber rt (paramZoomLevel params) (VNum DEFAULT_ZOOM_LEVEL)
                VUndefined VUndefined;
  latitude ← Util.sanitizeNumber rt (coordLatitude (paramCoordinates params))
               (VNum DEFAULT_COORDINATES.1) (VNum LATITUDE_MIN) (VNum LATITUDE_MAX);
  longitude ← Util.sanitizeNumber rt (coordLongitude (paramCoordinates params))
                (VNum DEFAULT_COORDINATES.2) (VNum LONGITUDE_MIN) (VNum LONGITUDE_MAX);
  g ← setView (CoordinatesObject {| coordLatitude := latitude; coordLongitude := longitude |})
        zoomLevel
        {| zoomLevel := zoomLevel; map := leaflet; waypoints := []; miniMapVisible := None |};
  addWaypoints (paramUnnamedWaypoint params) (paramWaypoints params) 0 g.

End WithEnvironment.

End GeoMap.

(** ** The persisted state *)

Record NavigationBarState : Type := {
  minimapActive : option bool
}.

Record MapState : Type := {
  stateZoomLevel : jsvalue;
  stateCoordinates : option Coordinates
}.

(** What [getCurrentState] returns and [setCurrentState] accepts; a field is
    [None] when the object has no such property.  The open index, when
    there, is an integer, as [getCurrentState] writes it; the map state,
    when there, is an object, as [getCurrentState] writes it (of a map state
    that is null, [Map.setCurrentState] cannot read the coordinates). *)
Record State : Type := {
  stateOpenWaypointContentIndex : option Z;
  stateNavigationBar : option NavigationBarState;
  stateMap : option MapState
}.

(** ** components/map/content-overlay.js *)

Module ContentOverlay.

(** [content] is the waypoint whose content element the overlay holds. *)
Record t : Type := {
  hidden : bool;
  content : option nat
}.

Definition construct : t := {| hidden := true; content := None |}.

Definition setContent (waypoint : nat) (o : t) : t :=
  {| hidden := hidden o; content := Some waypoint |}.

Definition show (o : t) : t := {| hidden := false; content := content o |}.
Definition hide (o : t) : t := {| hidden := true; content := content o |}.

End ContentOverlay.

(** ** components/map/map.js *)

(** The options of [openWaypointContent]; [panTo] is [None] when not given. *)
Record OpenOptions : Type := {
  panTo : option bool
}.

Module Map.

Definition MAP_CENTER_X_PERCENTAGE : number := Fin 0.5.
Definition MAP_CENTER_X_PERCENTAGE_CONTENT_OPEN : number := Fin 0.25.

Record Params : Type := {
  paramWaypoints : list WaypointParams;
  paramZoomLevelDefault : jsvalue;
  paramMapStyle : string;
  paramPreviousState : option MapState;
  paramUnnamedWaypoint : string
}.

Record t : Type := {
  geoMap : GeoMap.t;
  contentOverlay : ContentOverlay.t
}.

Definition withGeoMap (g : GeoMap.t) (m : t) : t :=
  {| geoMap := g; contentOverlay := contentOverlay m |}.

Definition withContentOverlay (o : ContentOverlay.t) (m : t) : t :=
  {| geoMap := geoMap m; contentOverlay := o |}.

Section WithEnvironment.
Variable rt : Runtime.
Variable projection : Leaflet.Projection.

(** The constructor. *)
Definition construct (leaflet : Leaflet.t) (params : Params) : outcome t :=
  let coordinatesFirstWaypoint :=
    match paramWaypoints params with
    | first :: _ => {| coordLatitude := VNum (wpLatitude first);
                       coordLongitude := VNum (wpLongitude first) |}
    | [] => {| coordLatitude := VNull; coordLongitude := VNull |}
    end in
  g ← GeoMap.construct rt leaflet
        {| GeoMap.paramWaypoints := paramWaypoints params;
           GeoMap.paramZoomLevel :=
             nullish (default VUndefined (stateZoomLevel <$> paramPreviousState params))
                     (paramZoomLevelDefault params);
           GeoMap.paramCoordinates :=
             default coordinatesFirstWaypoint (paramPreviousState params ≫= stateCoordinates);
           GeoMap.paramUnnamedWaypoint := paramUnnamedWaypoint params |};
  g ← GeoMap.setMapStyle (paramMapStyle params) g;
  mret {| geoMap := g; contentOverlay := ContentOverlay.construct |}.

(** [toggleMiniMap()]. *)
Definition toggleMiniMap (m : t) : t :=
  withGeoMap (GeoMap.toggleMiniMapVisibility None (geoMap m)) m.

(** [reset()]. *)
Definition reset (m : t) : outcome t :=
  let m := withContentOverlay (ContentOverlay.hide (contentOverlay m)) m in
  g ← GeoMap.reset rt projection (geoMap m);
  mret (withGeoMap g m).

(** [getWaypointByIndex(index)]. *)
Definition getWaypointByIndex (index : jsvalue) (m : t) : option nat :=
  GeoMap.getWaypointByIndex index (geoMap m).

(** [centerOnWaypoint(waypoint, contentOpen)]. *)
Definition centerOnWaypoint (waypoint : option nat) (contentOpen : bool) (m : t) : outcome t :=
  match waypoint ≫= fun ref => GeoMap.waypoints (geoMap m) !! ref with
  | None => mret m
  | Some w =>
      let positionXPercentage :=
        if contentOpen then MAP_CENTER_X_PERCENTAGE_CONTENT_OPEN else MAP_CENTER_X_PERCENTAGE in
      g ← GeoMap.centerOnWaypoint rt projection (Waypoint.getId w)
            {| positionXPercentage := VNum positionXPercentage;
               positionYPercentage := VUndefined;
               optZoomLevel := VUndefined |} (geoMap m);
      mret (withGeoMap g m)
  end.

(** [getCurrentState()]. *)
Definition getCurrentState (m : t) : MapState :=
  let coordinates := GeoMap.getCoordinates (geoMap m) in
  {| stateZoomLevel := VNum (GeoMap.getZoomLevel (geoMap m));
     stateCoordinates :=
       Some {| coordLatitude := VStr (toString rt (Leaflet.lat coordinates));
               coordLongitude := VStr (toString rt (Leaflet.lng coordinates)) |} |}.

(** [setCurrentState(state)]. *)
Definition setCurrentState (state : option MapState) (m : t) : outcome t :=
  match state ≫= stateCoordinates with
  | None => mret m
  | Some coordinates =>
      if strictEq (coordLatitude coordinates) VUndefined ||
         strictEq (coordLongitude coordinates) VUndefined
      then mret m
      else
        g ← GeoMap.setView rt (CoordinatesObject coordinates)
              (default VUndefined (stateZoomLevel <$> state)) (geoMap m);
        mret (withGeoMap g m)
  end.

(** The methods that call back into the component that owns the map.
    [Host] is the state of that component. *)
Section WithCallbacks.
Context {Host : Type}.
Variable getMap : Host -> t.
Variable setMap : t -> Host -> Host.
Variable onWaypointContentOpened : Z -> Host -> outcome Host.
Variable onMarkerFocus : nat -> Host -> outcome Host.

(** [openWaypointContent(waypoint, options)]; [waypoint] is [None] for a
    null or undefined argument, and a position that holds no waypoint
    stands for no object either. *)
Definition openWaypointContent (waypoint : option nat) (options : OpenOptions)
    (h : Host) : outcome Host :=
  match waypoint with
  | None => mret h
  | Some ref =>
      match GeoMap.waypoints (geoMap (getMap h)) !! ref with
      | None => mret h
      | Some w =>
          if Waypoint.isOpen w then mret h
          else
            let m := getMap h in
            let m := withGeoMap (GeoMap.setOpenWaypoint ref (geoMap m)) m in
            let m := withContentOverlay
                       (ContentOverlay.show (ContentOverlay.setContent ref (contentOverlay m))) m in
            h ← onWaypointContentOpened (Waypoint.getIndex w) (setMap m h);
            match panTo options with
            | Some false => mret h
            | _ => onMarkerFocus ref h
            end
      end
  end.

(** [openWaypointContentByIndex(index, options)]. *)
Definition openWaypointContentByIndex (index : jsvalue) (options : OpenOptions)
    (h : Host) : outcome Host :=
  match getWaypointByIndex index (getMap h) with
  | None => mret h
  | Some ref => openWaypointContent (Some ref) options h
  end.

End WithCallbacks.

End WithEnvironment.

End Map.

(** ** components/navigation-bar/button.js *)

Module Button.

Inductive kind : Type := Pulse | Toggle.

Record t : Type := {
  type : kind;
  active : bool;
  disabled : bool
}.

(** [activate()]. *)
Definition activate (b : t) : t :=
  if disabled b then b
  else {| type := type b; active := true; disabled := disabled b |}.

(** [deactivate()]. *)
Definition deactivate (b : t) : t :=
  if disabled b then b
  else {| type := type b; active := false; disabled := disabled b |}.

(** [enable()]. *)
Definition enable (b : t) : t :=
  let b := {| type := type b; active := active b; disabled := false |} in
  if active b then activate b else deactivate b.

(** [disable()]. *)
Definition disable (b : t) : t :=
  {| type := type b; active := active b; disabled := true |}.

(** [toggle(shouldBeActive, options)]; [shouldBeActive] is [None] when the
    argument is not a boolean. *)
Definition toggle (shouldBeActive : option bool) (ignoreDisabled : bool) (b : t) : t :=
  if negb ignoreDisabled && disabled b then b
  else if default (negb (active b)) shouldBeActive then activate b
  else deactivate b.

(** The constructor, for a button that starts inactive and enabled. *)
Definition construct (type : kind) : t :=
  enable (deactivate {| type := type; active := false; disabled := false |}).

Definition isActive (b : t) : bool := active b.
Definition isDisabled (b : t) : bool := disabled b.

(** [forceState(active, skipCallback)]: the button, and whether the
    [onClick] callback is called. *)
Definition forceState (active : bool) (skipCallback : bool) (b : t) : t * bool :=
  (match type b with
   | Toggle => toggle (Some active) true b
   | Pulse => b
   end, negb skipCallback).

(** A click on the button's element: the button, and whether the [onClick]
    callback is called. *)
Definition click (b : t) : t * bool :=
  if disabled b then (b, false)
  else (match type b with
        | Toggle => toggle None false b
        | Pulse => b
        end, true).

End Button.

(** ** components/navigation-bar/navigation-bar.js *)

Module NavigationBar.

(** The buttons [left], [right], [reset] and, when the user can use the mini
    map, [minimap]; and of the progress indicator the text it shows and
    whether it is in text mode. *)
Record t : Type := {
  left : Button.t;
  right : Button.t;
  resetButton : Button.t;
  minimap : option Button.t;
  progressText : string;
  progressTextMode : bool
}.

Definition construct (userCanUseMiniMap : bool) : t :=
  {| left := Button.construct Button.Pulse;
     right := Button.construct Button.Pulse;
     resetButton := Button.construct Button.Pulse;
     minimap := if userCanUseMiniMap then Some (Button.construct Button.Toggle) else None;
     progressText := "";
     progressTextMode := true |}.

Definition withMinimap (b : option Button.t) (n : t) : t :=
  {| left := left n; right := right n; resetButton := resetButton n; minimap := b;
     progressText := progressText n; progressTextMode := progressTextMode n |}.

(** [update(params)]: [leftEnabled] and [rightEnabled] are [None] when the
    parameter is not a boolean, [text] is [None] when it is not a string. *)
Definition update (leftEnabled rightEnabled : option bool) (text : option string) (n : t) : t :=
  {| left := match leftEnabled with
             | Some true => Button.enable (left n)
             | Some false => Button.disable (left n)
             | None => left n
             end;
     right := match rightEnabled with
              | Some true => Button.enable (right n)
              | Some false => Button.disable (right n)
              | None => right n
              end;
     resetButton := resetButton n;
     minimap := minimap n;
     progressText := default (progressText n) text;
     progressTextMode := progressTextMode n |}.

(** [toggleProgressTextMode(on)]. *)
Definition toggleProgressTextMode (on : bool) (n : t) : t :=
  {| left := left n; right := right n; resetButton := resetButton n; minimap := minimap n;
     progressText := progressText n; progressTextMode := on |}.

(** [reset()]. *)
Definition reset (n : t) : t :=
  toggleProgressTextMode true (update None None (Some ""%string) n).

(** [getCurrentState()]. *)
Definition getCurrentState (n : t) : NavigationBarState :=
  {| minimapActive := Some (default false (Button.isActive <$> minimap n)) |}.

(** [setCurrentState(state)]: the bar, and whether the mini map button's
    [onClick] callback is called. *)
Definition setCurrentState (state : option NavigationBarState) (n : t) : t * bool :=
  match minimap n, state ≫= minimapActive with
  | Some button, Some true =>
      let (button, called) := Button.forceState true false button in
      (withMinimap (Some button) n, called)
  | _, _ => (n, false)
  end.

(** A click on the mini map button: the bar, and whether the callback
    [onClickButtonMiniMap] is called. *)
Definition clickMiniMap (n : t) : t * bool :=
  match minimap n with
  | Some button =>
      let (button, called) := Button.click button in
      (withMinimap (Some button) n, called)
  | None => (n, false)
  end.

End NavigationBar.

(** ** components/main.js *)

Module Main.

Record Params : Type := {
  paramWaypoints : list WaypointParams;
  paramZoomLevelDefault : jsvalue;
  paramMapStyle : string;
  paramUserCanUseMiniMap : bool;
  paramPreviousState : option State;
  paramUnnamedWaypoint : string;
  paramOpenedContent : string; (* the dictionary's [a11y.openedContent] *)
  paramWidth : number;         (* the size of the geo map's element *)
  paramHeight : number
}.

(** [openedContent] is the text of the dictionary for the announcement of
    an opened waypoint; [screenreader] lists, latest last, the texts the
    screen reader was given to read. *)
Record t : Type := {
  openWaypointContentIndex : Z;
  lastMarkerIndex : Z;
  navigationBar : NavigationBar.t;
  map : Map.t;
  openedContent : string;
  screenreader : list string
}.

Definition withOpenWaypointContentIndex (index : Z) (s : t) : t :=
  {| openWaypointContentIndex := index; lastMarkerIndex := lastMarkerIndex s;
     navigationBar := navigationBar s; map := map s;
     openedContent := openedContent s; screenreader := screenreader s |}.

Definition withNavigationBar (n : NavigationBar.t) (s : t) : t :=
  {| openWaypointContentIndex := openWaypointContentIndex s;
     lastMarkerIndex := lastMarkerIndex s;
     navigationBar := n; map := map s;
     openedContent := openedContent s; screenreader := screenreader s |}.

Definition withMap (m : Map.t) (s : t) : t :=
  {| openWaypointContentIndex := openWaypointContentIndex s;
     lastMarkerIndex := lastMarkerIndex s;
     navigationBar := navigationBar s; map := m;
     openedContent := openedContent s; screenreader := screenreader s |}.

Definition read (text : string) (s : t) : t :=
  {| openWaypointContentIndex := openWaypointContentIndex s;
     lastMarkerIndex := lastMarkerIndex s;
     navigationBar := navigationBar s; map := map s;
     openedContent := openedContent s;
     screenreader := screenreader s ++ [text] |}.

Section WithEnvironment.
Variable rt : Runtime.
Variable projection : Leaflet.Projection.

(** The waypoint object at a position of the geo map's list. *)
Definition waypointAt (ref : nat) (s : t) : option Waypoint.t :=
  GeoMap.waypoints (Map.geoMap (map s)) !! ref.

(** [getCurrentOpenWaypointContentIndex()]. *)
Definition getCurrentOpenWaypointContentIndex (s : t) : Z := openWaypointContentIndex s.

(** [updateButtonDisabledStates()]. *)
Definition updateButtonDisabledStates (s : t) : t :=
  let waypoint :=
    Map.getWaypointByIndex (VNum (ofZ (openWaypointContentIndex s))) (map s)
      ≫= fun ref => waypointAt ref s in
  let title := Waypoint.getTitle <$> waypoint in
  withNavigationBar
    (NavigationBar.update
       (Some (0 <? openWaypointContentIndex s)%Z)
       (Some (openWaypointContentIndex s <? lastMarkerIndex s)%Z)
       title (navigationBar s)) s.

(** [handleWaypointContentOpened(index)]. *)
Definition handleWaypointContentOpened (index : Z) (s : t) : outcome t :=
  let s := updateButtonDisabledStates (withOpenWaypointContentIndex index s) in
  let waypoint := Map.getWaypointByIndex (VNum (ofZ index)) (map s)
                    ≫= fun ref => waypointAt ref s in
  let textToRead :=
    replace "@title" (default ""%string (Waypoint.getTitle <$> waypoint)) (openedContent s) in
  mret (read textToRead s).

(** The callback [onMarkerFocus] the constructor hands to the map.  Its
    second argument compares the method
    [getCurrentOpenWaypointContentIndex] itself, not the index the method
    returns, with -1. *)
Definition onMarkerFocus (waypoint : nat) (s : t) : outcome t :=
  m ← Map.centerOnWaypoint rt projection (Some waypoint)
        (strictNeq (VFun "getCurrentOpenWaypointContentIndex") (VNum (ofZ (-1)))) (map s);
  mret (withMap m s).

(** The map's [openWaypointContent] and [openWaypointContentByIndex] with
    the callbacks of the constructor. *)
Definition openWaypointContent : option nat -> OpenOptions -> t -> outcome t :=
  Map.openWaypointContent map withMap handleWaypointContentOpened onMarkerFocus.

Definition openWaypointContentByIndex : jsvalue -> OpenOptions -> t -> outcome t :=
  Map.openWaypointContentByIndex map withMap handleWaypointContentOpened onMarkerFocus.

(** The callback [onMarkerClick] of the geo map. *)
Definition onMarkerClick (waypoint : nat) (s : t) : outcome t :=
  openWaypointContent (Some waypoint) {| panTo := None |} s.

(** [goBackward()]. *)
Definition goBackward (s : t) : outcome t :=
  openWaypointContentByIndex (VNum (ofZ (openWaypointContentIndex s - 1)))
    {| panTo := None |} s.

(** [goForward()]. *)
Definition goForward (s : t) : outcome t :=
  openWaypointContentByIndex (VNum (ofZ (openWaypointContentIndex s + 1)))
    {| panTo := None |} s.

(** [toggleMiniMap()]. *)
Definition toggleMiniMap (s : t) : t :=
  withMap (Map.toggleMiniMap (map s)) s.

(** [reset()]. *)
Definition reset (s : t) : outcome t :=
  let s := updateButtonDisabledStates (withOpenWaypointContentIndex (-1) s) in
  m ← Map.reset rt projection (map s);
  mret (withNavigationBar (NavigationBar.reset (navigationBar s)) (withMap m s)).

(** [getCurrentState()]. *)
Definition getCurrentState (s : t) : State :=
  {| stateOpenWaypointContentIndex := Some (getCurrentOpenWaypointContentIndex s);
     stateNavigationBar := Some (NavigationBar.getCurrentState (navigationBar s));
     stateMap := Some (Map.getCurrentState rt (map s)) |}.

(** [setCurrentState(state)]. *)
Definition setCurrentState (state : option State) (s : t) : outcome t :=
  let index := state ≫= stateOpenWaypointContentIndex in
  let s := updateButtonDisabledStates
             (withOpenWaypointContentIndex (default (-1)%Z index) s) in
  let (n, called) :=
    NavigationBar.setCurrentState (state ≫= stateNavigationBar) (navigationBar s) in
  let s := withNavigationBar n s in
  let s := if called then toggleMiniMap s else s in
  m ← Map.setCurrentState rt (state ≫= stateMap) (map s);
  openWaypointContentByIndex (ofOption (fun i => VNum (ofZ i)) index)
    {| panTo := Some false |} (withMap m s).

(** A click on the mini map button. *)
Definition clickButtonMiniMap (s : t) : t :=
  let (n, called) := NavigationBar.clickMiniMap (navigationBar s) in
  let s := withNavigationBar n s in
  if called then toggleMiniMap s else s.

(** The constructor. *)
Definition construct (params : Params) : outcome t :=
  m ← Map.construct rt (Leaflet.create (paramWidth params) (paramHeight params))
        {| Map.paramWaypoints := paramWaypoints params;
           Map.paramZoomLevelDefault := paramZoomLevelDefault params;
           Map.paramMapStyle := paramMapStyle params;
           Map.paramPreviousState := paramPreviousState params ≫= stateMap;
           Map.paramUnnamedWaypoint := paramUnnamedWaypoint params |};
  mret (updateButtonDisabledStates
          {| openWaypointContentIndex := -1;
             lastMarkerIndex := Z.of_nat (length (paramWaypoints params)) - 1;
             navigationBar := NavigationBar.construct (paramUserCanUseMiniMap params);
             map := m;
             openedContent := paramOpenedContent params;
             screenreader := [] |}).

End WithEnvironment.

End Main.

(** ** scripts/h5p-story-map.js *)

Module StoryMap.

Section WithEnvironment.
Variable rt : Runtime.
Variable projection : Leaflet.Projection.

(** The constructor, as far as the main component is concerned: build it
    and set the previous state. *)
Definition construct (params : Main.Params) : outcome Main.t :=
  main ← Main.construct rt params;
  Main.setCurrentState rt projection (Main.paramPreviousState params) main.

End WithEnvironment.

End StoryMap.

(** ** Sessions

    What can happen to a story map after its construction: calls of the
    methods of the main component and of its map, the events of the markers
    and of the mini map button, and what the user and the browser do to the
    map itself (dragging or zooming it, resizing its element). *)

Inductive action : Type :=
| OpenWaypointContentByIndex (index : jsvalue) (options : OpenOptions)
| OpenWaypointContent (waypoint : option nat) (options : OpenOptions)
| MarkerClick (waypoint : nat)
| MarkerFocus (waypoint : nat)
| GoBackward
| GoForward
| Reset
| ClickButtonMiniMap
| SetCurrentState (state : option State)
| UserView (center : Leaflet.LatLng) (zoom : number)
| Resize (width height : number).

Module Session.

Section WithEnvironment.
Variable rt : Runtime.
Variable projection : Leaflet.Projection.

Definition withLeaflet (f : Leaflet.t -> Leaflet.t) (s : Main.t) : Main.t :=
  Main.withMap
    (Map.withGeoMap
       (GeoMap.withMap (f (GeoMap.map (Map.geoMap (Main.map s)))) (Map.geoMap (Main.map s)))
       (Main.map s)) s.

Definition step (a : action) (s : Main.t) : outcome Main.t :=
  match a with
  | OpenWaypointContentByIndex index options =>
      Main.openWaypointContentByIndex rt projection index options s
  | OpenWaypointContent waypoint options =>
      Main.openWaypointContent rt projection waypoint options s
  | MarkerClick waypoint => Main.onMarkerClick rt projection waypoint s
  | MarkerFocus waypoint => Main.onMarkerFocus rt projection waypoint s
  | GoBackward => Main.goBackward rt projection s
  | GoForward => Main.goForward rt projection s
  | Reset => Main.reset rt projection s
  | ClickButtonMiniMap => mret (Main.clickButtonMiniMap s)
  | SetCurrentState state => Main.setCurrentState rt projection state s
  | UserView center zoom => mret (withLeaflet (Leaflet.withView center zoom) s)
  | Resize width height => mret (withLeaflet (Leaflet.withSize width height) s)
  end.

Fixpoint run (actions : list action) (s : Main.t) : outcome Main.t :=
  match actions with
  | [] => mret s
  | a :: rest => s ← step a s; run rest s
  end.

End WithEnvironment.

End Session.

(** ** A runtime and a projection to compute with

    [decimalRuntime] reads and prints plain decimal numerals (an optional
    sign, digits, an optional fraction, or [Infinity]) and adds and
    divides without rounding; [flatProjection]
    lays the map out flat, ten pixels to the degree, with the centre of the
    view in the middle of the container. *)

Module Decimal.

Definition isWhiteSpace (c : ascii) : bool :=
  let n := nat_of_ascii c in
  (n =? 32)%nat || ((9 <=? n)%nat && (n <=? 13)%nat).

Definition isDigit (c : ascii) : bool :=
  let n := nat_of_ascii c in
  (48 <=? n)%nat && (n <=? 57)%nat.

Definition digitValue (c : ascii) : Z := Z.of_nat (nat_of_ascii c) - 48.

Fixpoint skipWhiteSpace (cs : list ascii) : list ascii :=
  match cs with
  | c :: rest => if isWhiteSpace c then skipWhiteSpace rest else cs
  | [] => []
  end.

(** Reads digits: their value on top of [acc], how many there were, and
    what follows them. *)
Fixpoint readDigits (cs : list ascii) (acc : Z) (count : nat) : Z * nat * list ascii :=
  match cs with
  | c :: rest =>
      if isDigit c then readDigits rest (acc * 10 + digitValue c)%Z (S count)
      else (acc, count, cs)
  | [] => (acc, count, [])
  end.

Definition startsWith (prefix cs : list ascii) : bool :=
  bool_decide (take (length prefix) cs = prefix).

Definition readUnsigned (cs : list ascii) : number :=
  if startsWith (list_ascii_of_string "Infinity") cs then PosInf
  else
    let '(whole, wholeDigits, rest) := readDigits cs 0%Z 0%nat in
    let '(all, fractionDigits) :=
      match rest with
      | "."%char :: rest' =>
          let '(all, allDigits, _) := readDigits rest' whole wholeDigits in
          (all, (allDigits - wholeDigits)%nat)
      | _ => (whole, 0%nat)
      end in
    if (wholeDigits + fractionDigits =? 0)%nat then NaN
    else Fin (Qred (all # Z.to_pos (10 ^ Z.of_nat fractionDigits))).

Definition parseFloat (s : string) : number :=
  match skipWhiteSpace (list_ascii_of_string s) with
  | "-"%char :: cs => neg (readUnsigned cs)
  | "+"%char :: cs => readUnsigned cs
  | cs => readUnsigned cs
  end.

Definition digitChar (d : Z) : ascii := ascii_of_nat (48 + Z.to_nat d).

(** The digits of [numerator / denominator] after the point, at most [fuel]
    of them. *)
Fixpoint fractionDigits (fuel : nat) (numerator denominator : Z) : list ascii :=
  match fuel with
  | O => []
  | S fuel' =>
      if (numerator =? 0)%Z then []
      else digitChar (numerator * 10 / denominator)
             :: fractionDigits fuel' (numerator * 10 mod denominator) denominator
  end.

Definition printUnsigned (q : Q) : string :=
  let numerator := Z.abs (Qnum q) in
  let denominator := Zpos (Qden q) in
  let whole := NilZero.string_of_uint (N.to_uint (Z.to_N (numerator / denominator))) in
  match fractionDigits 20 (numerator mod denominator) denominator with
  | [] => whole
  | digits => (whole ++ "." ++ string_of_list_ascii digits)%string
  end.

Definition toString (n : number) : string :=
  match n with
  | NaN => "NaN"
  | NegInf => "-Infinity"
  | PosInf => "Infinity"
  | Fin q => if (Qnum q <? 0)%Z then ("-" ++ printUnsigned q)%string else printUnsigned q
  end.

Definition trim (s : string) : string :=
  string_of_list_ascii
    (rev (skipWhiteSpace (rev (skipWhiteSpace (list_ascii_of_string s))))).

(** The quotient of the rationals, not rounded; a zero divisor counts as
    positive. *)
Definition divide (a b : number) : number :=
  match a, b with
  | NaN, _ | _, NaN => NaN
  | Fin x, Fin y =>
      if Qeq_bool y 0
      then match sign a with Eq => NaN | Lt => NegInf | Gt => PosInf end
      else Fin (Qred (x / y))
  | Fin _, _ => Fin 0
  | _, Fin _ =>
      match sign a, sign b with
      | Lt, Lt => PosInf
      | Lt, _ | _, Lt => NegInf
      | _, _ => PosInf
      end
  | _, _ => NaN
  end.

End Decimal.

Definition decimalRuntime : Runtime :=
  {| parseFloat := Decimal.parseFloat;
     toString := Decimal.toString;
     trim := Decimal.trim;
     plus := add;
     minus := sub;
     quotient := Decimal.divide |}.

Definition pixelsPerDegree : number := ofZ 10.

Definition half (n : number) : number := mul n (Fin 0.5).

Definition flatProjection : Leaflet.Projection :=
  {| Leaflet.latLngToContainerPoint := fun m p =>
       {| Leaflet.x := add (mul (sub (Leaflet.lng p) (Leaflet.lng (Leaflet.center m)))
                                pixelsPerDegree) (half (Leaflet.width m));
          Leaflet.y := add (mul (sub (Leaflet.lat (Leaflet.center m)) (Leaflet.lat p))
                                pixelsPerDegree) (half (Leaflet.height m)) |};
     Leaflet.containerPointToLatLng := fun m p =>
       {| Leaflet.lat := sub (Leaflet.lat (Leaflet.center m))
                             (mul (sub (Leaflet.y p) (half (Leaflet.height m))) (Fin 0.1));
          Leaflet.lng := add (Leaflet.lng (Leaflet.center m))
                             (mul (sub (Leaflet.x p) (half (Leaflet.width m))) (Fin 0.1)) |} |}.

(** A story map of four waypoints on an 800 by 450 element. *)
Definition sampleWaypoint (id title : string) (latitude longitude : Q) : WaypointParams :=
  {| wpId := id; wpLatitude := Fin latitude; wpLongitude := Fin longitude;
     wpTitle := title; wpContents := [] |}.

Definition sampleParams : Main.Params :=
  {| Main.paramWaypoints :=
       [sampleWaypoint "a" "Oslo" 59.9 10.7;
        sampleWaypoint "b" "Bergen" 60.4 5.3;
        sampleWaypoint "c" "Trondheim" 63.4 10.4;
        sampleWaypoint "d" "" 69.6 18.9];
     Main.paramZoomLevelDefault := VNum (ofZ 6);
     Main.paramMapStyle := "openStreetMap";
     Main.paramUserCanUseMiniMap := true;
     Main.paramPreviousState := None;
     Main.paramUnnamedWaypoint := "Unnamed waypoint";
     Main.paramOpenedContent := "Opened content of @title.";
     Main.paramWidth := ofZ 800;
     Main.paramHeight := ofZ 450 |}.

(** States of that story map: as constructed; with the first waypoint
    opened; with the third waypoint opened and the mini map switched on. *)
Definition sampleStart : Main.t :=
  ltac:(let r := eval vm_compute in
                   (StoryMap.construct decimalRuntime flatProjection sampleParams) in
        match r with Returned ?s => exact s end).

Definition sampleFirstOpen : Main.t :=
  ltac:(let r := eval vm_compute in
                   (Session.run decimalRuntime flatProjection
                      [OpenWaypointContentByIndex (VNum (ofZ 0)) {| panTo := None |}]
                      sampleStart) in
        match r with Returned ?s => exact s end).

Definition sampleMiniMapOn : Main.t :=
  ltac:(let r := eval vm_compute in
                   (Session.run decimalRuntime flatProjection
                      [OpenWaypointContentByIndex (VNum (ofZ 2)) {| panTo := None |};
                       ClickButtonMiniMap]
                      sampleStart) in
        match r with Returned ?s => exact s end).

(** A task of five points, and the event it sends when it is completed
    with three of them and reports success. *)
Definition sampleTask : Content :=
  {| contentIsTask := VBool true;
     contentGetMaxScore := Some (ofZ 5);
     contentGetScore := Some (ofZ 3);
     contentHasResetTask := true |}.

Definition sampleText : Content :=
  {| contentIsTask := VUndefined;
     contentGetMaxScore := None;
     contentGetScore := None;
     contentHasResetTask := false |}.

Definition sampleResult : XAPIResult :=
  {| completion := Some true; success := Some true;
     score := Some (ofZ 3); maxScore := Some (ofZ 5) |}.

Definition sampleEvent : XAPIEvent :=
  {| eventMaxScore := VNum (ofZ 5); eventVerb := "completed"; eventResult := Some sampleResult |}.

(** ** Vocabulary of the statements *)

(** The number [sanitizeNumber] reads from a value, if it reads one: a
    number other than NaN, or a string that [parseFloat] turns into such a
    number whose print is the string, trimmed. *)
Definition validNumber (rt : Runtime) (value : jsvalue) : option number :=
  match value with
  | VNum r => if isNaN r then None else Some r
  | VStr s =>
      let r := parseFloat rt s in
      if String.eqb (toString rt r) (trim rt s) && negb (isNaN r) then Some r else None
  | _ => None
  end.

(** [r] moved into the bounds that are numbers: to [min] when below it,
    else to [max] when above it. *)
Definition clamp (r : number) (min max : jsvalue) : jsvalue :=
  match min, max with
  | VNum lo, VNum hi => if lt r lo then min else if gt r hi then max else VNum r
  | VNum lo, _ => if lt r lo then min else VNum r
  | _, VNum hi => if gt r hi then max else VNum r
  | _, _ => VNum r
  end.

Definition clampNumber (r lo hi : number) : number :=
  if lt r lo then lo else if gt r hi then hi else r.

(** What a view field becomes: the valid number clamped, or the default. *)
Definition sanitized (rt : Runtime) (value : jsvalue) (defaultValue lo hi : number) : number :=
  match validNumber rt value with
  | Some r => clampNumber r lo hi
  | None => defaultValue
  end.

(** [lo <= r <= hi] as the code compares. *)
Definition within (r lo hi : number) : Prop :=
  lt r lo = false /\ gt r hi = false /\ isNaN r = false.

(** The record [reset] keeps: the one flagged as not a task. *)
Definition keptByReset (entry : Tracking) : bool :=
  match trIsTask entry with
  | Some false => true
  | _ => false
  end.

(** What [reset] leaves of the entry under a key. *)
Definition kept (o : option Tracking) : option Tracking :=
  match o with
  | Some entry => if keptByReset entry then Some entry else None
  | None => None
  end.

(** A bundle in which every instance is accounted for: no content index
    has two handlers, a record under the index of a handler has no [isTask]
    flag, any other record is the seeded one, an instance has a handler
    exactly when it is a task and never more than one, and the instances
    are as many as the indices that have a record or a handler. *)
Record accounted (b : ContentBundle.t) : Prop := {
  tasks_nodup : NoDup (ContentBundle.taskIndices b);
  task_records : forall i r,
    ContentBundle.trackingMap b !! i = Some r ->
    i ∈ ContentBundle.taskIndices b -> trIsTask r = None;
  other_records : forall i r,
    ContentBundle.trackingMap b !! i = Some r ->
    i ∉ ContentBundle.taskIndices b -> r = ContentBundle.seeded;
  handlers : forall instance,
    instance ∈ ContentBundle.instances b ->
    if H5PUtil.isInstanceTask instance
    then exists i, xAPIListeners instance = [i]
    else xAPIListeners instance = [];
  instances_counted :
    length (ContentBundle.instances b) =
    size (dom (ContentBundle.trackingMap b) ∪ list_to_set (ContentBundle.taskIndices b) : gset nat)
}.

(** No record and no handler of the bundle is under an index from [k] on. *)
Definition below (k : nat) (b : ContentBundle.t) : Prop :=
  forall i,
    is_Some (ContentBundle.trackingMap b !! i) \/ i ∈ ContentBundle.taskIndices b -> i < k.

(** Two maps of the capability that differ in the view at most. *)
Definition sameFrame (a b : Leaflet.t) : Prop :=
  Leaflet.minZoom a = Leaflet.minZoom b /\ Leaflet.maxZoom a = Leaflet.maxZoom b /\
  Leaflet.width a = Leaflet.width b /\ Leaflet.height a = Leaflet.height b.

(** *** Observations of the main component *)

Definition waypointsOf (s : Main.t) : list Waypoint.t :=
  GeoMap.waypoints (Map.geoMap (Main.map s)).

Definition leafletOf (s : Main.t) : Leaflet.t :=
  GeoMap.map (Map.geoMap (Main.map s)).

(** Whether the mini map is shown: [miniMapVisible] as a condition. *)
Definition miniMapShown (s : Main.t) : bool :=
  default false (GeoMap.miniMapVisible (Map.geoMap (Main.map s))).

Definition miniMapButtonActive (s : Main.t) : bool :=
  default false (Button.isActive <$> NavigationBar.minimap (Main.navigationBar s)).

Definition backwardEnabled (s : Main.t) : bool :=
  negb (Button.isDisabled (NavigationBar.left (Main.navigationBar s))).

Definition forwardEnabled (s : Main.t) : bool :=
  negb (Button.isDisabled (NavigationBar.right (Main.navigationBar s))).

(** No two waypoints of the list are open. *)
Definition atMostOneOpen (ws : list Waypoint.t) : Prop :=
  forall i j wi wj,
    ws !! i = Some wi -> ws !! j = Some wj ->
    Waypoint.isOpen wi = true -> Waypoint.isOpen wj = true -> i = j.

(** The waypoints with the one at [ref] open and all others closed. *)
Definition onlyOpen (ref : nat) (ws : list Waypoint.t) : list Waypoint.t :=
  imap (fun position w => Waypoint.setOpen (Nat.eqb position ref) w) ws.

(** How a list of waypoints can change: not at all, to one waypoint open
    and the others closed, or to all closed. *)
Definition reopened (ws ws' : list Waypoint.t) : Prop :=
  ws' = ws \/ (exists ref, ws' = onlyOpen ref ws) \/ ws' = (Waypoint.setOpen false <$> ws).

(** The waypoints are numbered by their position, and the last index is
    that of the last waypoint. *)
Definition wellFormed (s : Main.t) : Prop :=
  Main.lastMarkerIndex s = (Z.of_nat (length (waypointsOf s)) - 1)%Z /\
  forall i w, waypointsOf s !! i = Some w -> Waypoint.getIndex w = Z.of_nat i.

(** [h] is [s] with the waypoint [wp] at position [ref] opened, the view
    left as it is. *)
Definition openedFrom (ref : nat) (wp : Waypoint.t) (s h : Main.t) : Prop :=
  waypointsOf h = onlyOpen ref (waypointsOf s) /\
  leafletOf h = leafletOf s /\
  Main.openWaypointContentIndex h = Waypoint.getIndex wp /\
  Main.lastMarkerIndex h = Main.lastMarkerIndex s /\
  miniMapShown h = miniMapShown s /\
  miniMapButtonActive h = miniMapButtonActive s /\
  backwardEnabled h = (0 <? Waypoint.getIndex wp)%Z /\
  forwardEnabled h = (Waypoint.getIndex wp <? Main.lastMarkerIndex s)%Z.

(** The parameters the constructor accepts: the map style is no name
    that [MAP_SERVICES] inherits, and no coordinate of a waypoint is NaN. *)
Definition validMarker (waypointParams : WaypointParams) : bool :=
  negb (isNaN (wpLatitude waypointParams) || isNaN (wpLongitude waypointParams)).

Definition constructible (params : Main.Params) : bool :=
  negb (GeoMap.inherited (Main.paramMapStyle params)) &&
  forallb validMarker (Main.paramWaypoints params).

(** The coordinates [setView] reads from its argument: those of the
    object, or undefined ones where the argument is a value other than
    null. *)
Definition readFrom (argument : CoordinatesArgument) (coordinates : Coordinates) : Prop :=
  match argument with
  | CoordinatesObject given => coordinates = given
  | CoordinatesValue v =>
      v <> VNull /\
      coordinates = {| coordLatitude := VUndefined; coordLongitude := VUndefined |}
  end.

(** The states a story map of the given parameters can be in. *)
Definition reachable (rt : Runtime) (projection : Leaflet.Projection)
    (params : Main.Params) (s : Main.t) : Prop :=
  exists s0 actions,
    StoryMap.construct rt projection params = Returned s0 /\
    Session.run rt projection actions s0 = Returned s.

(** *** Restoring a view *)

(** The runtime reads the print of [n] back as [n]. *)
Definition readsBack (rt : Runtime) (n : number) : Prop :=
  parseFloat rt (toString rt n) = n /\ trim rt (toString rt n) = toString rt n.

(** The view of [s] is one that [setView] keeps on the map of [t]: its
    centre is within the bounds of latitude and longitude, its zoom is
    within the zoom bounds of [t] and a zoom the map of [t] leaves as it is
    (a whole zoom level), and the runtime reads the prints of the
    coordinates back. *)
Definition viewKept (rt : Runtime) (s t : Main.t) : Prop :=
  let view := leafletOf s in
  within (Leaflet.lat (Leaflet.center view)) GeoMap.LATITUDE_MIN GeoMap.LATITUDE_MAX /\
  within (Leaflet.lng (Leaflet.center view)) GeoMap.LONGITUDE_MIN GeoMap.LONGITUDE_MAX /\
  within (Leaflet.zoom view) (Leaflet.minZoom (leafletOf t)) (Leaflet.maxZoom (leafletOf t)) /\
  Leaflet.limitZoom (leafletOf t) (Leaflet.zoom view) = Leaflet.zoom view /\
  readsBack rt (Leaflet.lat (Leaflet.center view)) /\
  readsBack rt (Leaflet.lng (Leaflet.center view)).

(** The mini map button of [s], if there is one, is active exactly when the
    mini map is shown; without a button the mini map is hidden. *)
Definition miniMapInSync (s : Main.t) : Prop :=
  match NavigationBar.minimap (Main.navigationBar s) with
  | Some button => Button.isActive button = miniMapShown s
  | None => miniMapShown s = false
  end.

(** The mini map of [t] is hidden, and its button is an enabled, inactive
    toggle; [t] has the button if [s] has it. *)
Definition miniMapOff (s t : Main.t) : Prop :=
  miniMapShown t = false /\
  match NavigationBar.minimap (Main.navigationBar t) with
  | Some button =>
      Button.type button = Button.Toggle /\
      Button.active button = false /\ Button.disabled button = false
  | None => NavigationBar.minimap (Main.navigationBar s) = None
  end.


(** ** The button and its element

    components/navigation-bar/button.js again, now with what the button
    writes to its element: the classes [active] and [disabled] and the
    attributes [aria-pressed] and [aria-label]. *)

Module ButtonElement.

(** The [a11y] parameters; a missing one is the empty string. *)
Record Labels : Type := {
  labelActive : string;
  labelDisabled : string;
  labelInactive : string
}.

Record Params : Type := {
  paramA11y : Labels;
  paramActive : bool;
  paramDisabled : bool;
  paramType : Button.kind
}.

Record t : Type := {
  type : Button.kind;
  a11y : Labels;
  active : bool;
  disabled : bool;
  classActive : bool;
  classDisabled : bool;
  ariaPressed : bool;
  ariaLabel : option string   (* no attribute until first set *)
}.

(** The button as [Button] has it. *)
Definition state (e : t) : Button.t :=
  {| Button.type := type e; Button.active := active e; Button.disabled := disabled e |}.

Definition isToggle (e : t) : bool :=
  match type e with Button.Toggle => true | Button.Pulse => false end.

(** [activate()]. *)
Definition activate (e : t) : t :=
  if disabled e then e
  else {| type := type e; a11y := a11y e;
          active := true;
          disabled := disabled e;
          classActive := if isToggle e then true else classActive e;
          classDisabled := classDisabled e;
          ariaPressed := if isToggle e then true else ariaPressed e;
          ariaLabel := Some (labelActive (a11y e)) |}.

(** [deactivate()]. *)
Definition deactivate (e : t) : t :=
  if disabled e then e
  else {| type := type e; a11y := a11y e;
          active := false;
          disabled := disabled e;
          classActive := if isToggle e then false else classActive e;
          classDisabled := classDisabled e;
          ariaPressed := if isToggle e then false else ariaPressed e;
          ariaLabel := Some (labelInactive (a11y e)) |}.

(** [enable()]. *)
Definition enable (e : t) : t :=
  let e := {| type := type e; a11y := a11y e; active := active e;
              disabled := false;
              classActive := classActive e;
              classDisabled := false;
              ariaPressed := ariaPressed e; ariaLabel := ariaLabel e |} in
  if active e then activate e else deactivate e.

(** [disable()]. *)
Definition disable (e : t) : t :=
  {| type := type e; a11y := a11y e; active := active e;
     disabled := true;
     classActive := classActive e;
     classDisabled := true;
     ariaPressed := ariaPressed e;
     ariaLabel := Some (labelDisabled (a11y e)) |}.

(** [toggle(shouldBeActive, options)]; [shouldBeActive] is [None] when the
    argument is not a boolean. *)
Definition toggle (shouldBeActive : option bool) (ignoreDisabled : bool) (e : t) : t :=
  if negb ignoreDisabled && disabled e then e
  else if default (negb (active e)) shouldBeActive then activate e
  else deactivate e.

(** The labels the constructor settles on: a pulse button takes a missing
    inactive label from the active one and a missing active label from the
    inactive one. *)
Definition labels (params : Params) : Labels :=
  match paramType params with
  | Button.Toggle => paramA11y params
  | Button.Pulse =>
      let given := paramA11y params in
      let inactive :=
        if String.eqb (labelInactive given) "" then labelActive given
        else labelInactive given in
      let active :=
        if String.eqb (labelActive given) "" then inactive else labelActive given in
      {| labelActive := active; labelDisabled := labelDisabled given;
         labelInactive := inactive |}
  end.

(** The constructor. *)
Definition construct (params : Params) : t :=
  let e := {| type := paramType params; a11y := labels params;
              active := paramActive params;
              disabled := paramDisabled params;
              classActive := false;
              classDisabled := false;
              ariaPressed := paramActive params;
              ariaLabel := None |} in
  let e := if paramActive params then activate e else deactivate e in
  if paramDisabled params then disable e else enable e.

(** A click on the element: the button, and whether the [onClick]
    callback is called. *)
Definition click (e : t) : t * bool :=
  if disabled e then (e, false)
  else (if isToggle e then toggle None false e else e, true).

(** [forceState(active, skipCallback)]: the button, and whether the
    [onClick] callback is called. *)
Definition forceState (active : bool) (skipCallback : bool) (e : t) : t * bool :=
  (if isToggle e then toggle (Some active) true e else e, negb skipCallback).

(** What is done to a button after its construction. *)
Inductive operation : Type :=
| Activate
| Deactivate
| Enable
| Disable
| Toggle (shouldBeActive : option bool) (ignoreDisabled : bool)
| Click
| ForceState (active skipCallback : bool).

Definition step (op : operation) (e : t) : t :=
  match op with
  | Activate => activate e
  | Deactivate => deactivate e
  | Enable => enable e
  | Disable => disable e
  | Toggle shouldBeActive ignoreDisabled => toggle shouldBeActive ignoreDisabled e
  | Click => (click e).1
  | ForceState active skipCallback => (forceState active skipCallback e).1
  end.

Definition run (ops : list operation) (e : t) : t :=
  fold_left (fun acc op => step op acc) ops e.

End ButtonElement.

(** ** The keyboard focus of the navigation bar

    components/navigation-bar/navigation-bar.js: the [tabindex] attributes
    of the buttons, in the order of [Object.values(this.buttons)], the
    index of the current button, and the button that was focused last. *)

Module NavigationBarFocus.

Record t : Type := {
  tabindex : list string;
  currentButtonIndex : Z;
  focused : option nat
}.

(** The buttons of the bar: left, right and reset, the mini map button when
    the user can use the mini map, the fullscreen button when fullscreen is
    supported. *)
Definition buttonCount (userCanUseMiniMap isFullscreenSupported : bool) : nat :=
  3 + (if userCanUseMiniMap then 1 else 0) + (if isFullscreenSupported then 1 else 0).

(** The end of the constructor: the first button is the one in the tab
    order. *)
Definition construct (userCanUseMiniMap isFullscreenSupported : bool) : t :=
  {| tabindex := imap (fun index _ => if Nat.eqb index 0 then "0" else "-1")%string
                      (replicate (buttonCount userCanUseMiniMap isFullscreenSupported) tt);
     currentButtonIndex := 0;
     focused := None |}.

(** [Object.values(this.buttons)[index]]. *)
Definition buttonAt (index : Z) (n : t) : option string :=
  if (index <? 0)%Z then None else tabindex n !! Z.to_nat index.

(** [moveButtonFocus(offset)] for an offset that is a number.  Calling a
    method of a button that is not there throws. *)
Definition moveButtonFocus (offset : Z) (n : t) : outcome t :=
  if (currentButtonIndex n + offset <? 0)%Z ||
     (Z.of_nat (length (tabindex n)) - 1 <? currentButtonIndex n + offset)%Z
  then mret n
  else
    match buttonAt (currentButtonIndex n) n with
    | None => Thrown "TypeError: Cannot read properties of undefined"
    | Some _ =>
        let n := {| tabindex := <[Z.to_nat (currentButtonIndex n) := "-1"%string]> (tabindex n);
                    currentButtonIndex := currentButtonIndex n + offset;
                    focused := focused n |} in
        match buttonAt (currentButtonIndex n) n with
        | None => Thrown "TypeError: Cannot read properties of undefined"
        | Some _ =>
            mret {| tabindex := <[Z.to_nat (currentButtonIndex n) := "0"%string]> (tabindex n);
                    currentButtonIndex := currentButtonIndex n;
                    focused := Some (Z.to_nat (currentButtonIndex n)) |}
        end
    end.

(** [handleKeydown(event)]: the bar, and whether the default action of the
    event is prevented. *)
Definition handleKeydown (code : string) (n : t) : outcome (t * bool) :=
  if String.eqb code "ArrowLeft" || String.eqb code "ArrowUp" then
    n ← moveButtonFocus (-1) n; mret (n, true)
  else if String.eqb code "ArrowRight" || String.eqb code "ArrowDown" then
    n ← moveButtonFocus 1 n; mret (n, true)
  else if String.eqb code "Home" then
    n ← moveButtonFocus (0 - currentButtonIndex n) n; mret (n, true)
  else if String.eqb code "End" then
    n ← moveButtonFocus (Z.of_nat (length (tabindex n)) - 1 - currentButtonIndex n) n;
    mret (n, true)
  else mret (n, false).

(** [focusFirstButton()]. *)
Definition focusFirstButton (n : t) : outcome t :=
  moveButtonFocus (0 - currentButtonIndex n) n.

(** The key presses on the bar, one after the other. *)
Fixpoint run (codes : list string) (n : t) : outcome t :=
  match codes with
  | [] => mret n
  | code :: rest => r ← handleKeydown code n; run rest r.1
  end.

End NavigationBarFocus.

(** ** components/navigation-bar/progress-indicator.js *)

Module ProgressIndicator.

(** [progressText] is the text of the text element, [textMode] whether the
    text is shown instead of the numbers, [ariaValueText] the attribute
    [aria-valuetext] of the meter. *)
Record t : Type := {
  min : number;
  max : number;
  now : number;
  progressText : string;
  textMode : bool;
  ariaValueText : option string
}.

(** The constructor; a parameter that is not given is 1. *)
Definition construct (paramMin paramMax paramNow : option number) : t :=
  {| min := default (ofZ 1) paramMin;
     max := default (ofZ 1) paramMax;
     now := default (ofZ 1) paramNow;
     progressText := "";
     textMode := false;
     ariaValueText := None |}.

(** [update({ min, max, now, text })]. *)
Definition update (newMin newMax newNow text : jsvalue) (p : t) : t :=
  let p :=
    match newMin with
    | VNum m =>
        if gt m (min p)
        then {| min := m; max := max p; now := now p; progressText := progressText p;
                textMode := textMode p; ariaValueText := ariaValueText p |}
        else p
    | _ => p
    end in
  let p :=
    match newMax with
    | VNum m =>
        if gt m (min p)
        then {| min := min p; max := m; now := now p; progressText := progressText p;
                textMode := textMode p; ariaValueText := ariaValueText p |}
        else p
    | _ => p
    end in
  let p :=
    match newNow with
    | VNum v =>
        if ge v (min p) && lte v (max p)
        then {| min := min p; max := max p; now := v; progressText := progressText p;
                textMode := textMode p; ariaValueText := ariaValueText p |}
        else p
    | _ => p
    end in
  match text with
  | VStr s => {| min := min p; max := max p; now := now p; progressText := s;
                 textMode := textMode p; ariaValueText := ariaValueText p |}
  | _ => p
  end.

(** [toggleTextMode(on)]. *)
Definition toggleTextMode (on : jsvalue) (p : t) : t :=
  match on with
  | VBool on =>
      {| min := min p; max := max p; now := now p; progressText := progressText p;
         textMode := on;
         ariaValueText := if on then Some (progressText p) else None |}
  | _ => p
  end.

(** What the navigation bar does with its progress indicator: it builds it
    and switches text mode on; [update] passes its parameters on; [reset]
    empties the text and switches text mode on. *)
Inductive use : Type :=
| BarUpdate (now min max text : jsvalue)
| BarToggleProgressTextMode (on : jsvalue)
| BarReset.

Definition build : t := toggleTextMode (VBool true) (construct None None None).

Definition step (u : use) (p : t) : t :=
  match u with
  | BarUpdate now min max text => update min max now text p
  | BarToggleProgressTextMode on => toggleTextMode on p
  | BarReset => toggleTextMode (VBool true) (update VUndefined VUndefined VUndefined (VStr "") p)
  end.

Definition run (uses : list use) (p : t) : t :=
  fold_left (fun acc u => step u acc) uses p.

End ProgressIndicator.

(** ** Fullscreen

    [setFullscreen] of components/main.js, components/map/map.js and the
    navigation bar: the custom properties [--max-height] and [--max-width]
    of the map container, and the classes of the fullscreen button. *)

Module Fullscreen.

Definition ASPECT_RATIO_DEFAULT : string := "16 / 9".

(** The two custom properties of the map container's style; [None] when
    the property is not set. *)
Record Style : Type := {
  maxHeight : option string;
  maxWidth : option string
}.

(** The available space; a dimension is [None] when it is missing. *)
Record Space : Type := {
  spaceWidth : option number;
  spaceHeight : option number
}.

(** The classes of the fullscreen button that [setFullscreen] toggles. *)
Record ButtonClasses : Type := {
  enterFullscreen : bool;
  exitFullscreen : bool;
  activeClass : bool
}.

Section WithRuntime.
Variable rt : Runtime.

(** [`${n}px`]. *)
Definition px (n : number) : string := (toString rt n ++ "px")%string.

(** [Map.setFullscreen(shouldBeFullScreen, availableSpace)];
    [aspectRatioProperty] is what [getPropertyValue('--aspectRatio')]
    returns.  A ratio that is null counts as 0 in the comparison. *)
Definition setFullscreenMap (shouldBeFullScreen : bool) (availableSpace : Space)
    (aspectRatioProperty : jsvalue) (style : Style) : Style :=
  match spaceWidth availableSpace, spaceHeight availableSpace with
  | Some width, Some height =>
      if negb (truthy (VNum width)) || negb (truthy (VNum height)) then style
      else
        let style := {| maxHeight := None; maxWidth := None |} in
        if negb shouldBeFullScreen then style
        else
          let aspectRatio :=
            Util.parseAspectRatio rt
              (nullish aspectRatioProperty (VStr ASPECT_RATIO_DEFAULT)) in
          let availableAspectRatio := quotient rt width height in
          if gt availableAspectRatio (default (ofZ 0) aspectRatio)
          then {| maxHeight := Some (px height); maxWidth := maxWidth style |}
          else {| maxHeight := maxHeight style; maxWidth := Some (px width) |}
  | _, _ => style
  end.

(** [NavigationBar.setFullscreen(state)]; [None] when there is no
    fullscreen button. *)
Definition setFullscreenBar (state : jsvalue) (button : option ButtonClasses)
    : option ButtonClasses :=
  match button with
  | None => None
  | Some _ =>
      Some {| enterFullscreen := strictNeq state (VBool true);
              exitFullscreen := strictEq state (VBool true);
              activeClass := strictEq state (VBool true) |}
  end.

(** What [Main.setFullscreen] reads from the page: the margins of its
    element as the computed style gives them, the inner size of the
    window, the full height of the navigation bar and the value of the
    custom property [--aspectRatio]. *)
Record Page : Type := {
  marginLeft : string;
  marginRight : string;
  marginTop : string;
  marginBottom : string;
  innerWidth : number;
  innerHeight : number;
  navigationBarFullHeight : number;
  aspectRatioProperty : jsvalue
}.

(** [Main.setFullscreen(shouldBeFullScreen)]. *)
Definition setFullscreen (shouldBeFullScreen : jsvalue) (page : Page)
    (state : Style * option ButtonClasses) : Style * option ButtonClasses :=
  match shouldBeFullScreen with
  | VBool fullscreen =>
      let marginHorizontal :=
        plus rt (parseFloat rt (marginLeft page)) (parseFloat rt (marginRight page)) in
      let marginVertical :=
        plus rt (parseFloat rt (marginTop page)) (parseFloat rt (marginBottom page)) in
      (setFullscreenMap fullscreen
         {| spaceWidth := Some (minus rt (innerWidth page) marginHorizontal);
            spaceHeight := Some (minus rt (minus rt (innerHeight page) marginVertical)
                                          (navigationBarFullHeight page)) |}
         (aspectRatioProperty page) state.1,
       setFullscreenBar shouldBeFullScreen state.2)
  | _ => state
  end.

End WithRuntime.

End Fullscreen.

(** ** The paths of the geo map

    components/map/geo-map.js: the polylines between the markers.  A path
    is an object of its own, told from the others by what it is, not by
    its end points; [pathId] stands for that.  [layers] are the paths that
    are layers of the map. *)

Module Paths.

Record Path : Type := {
  pathId : nat;
  pathFrom : Leaflet.LatLng;
  pathTo : Leaflet.LatLng
}.

Record t : Type := {
  paths : list Path;
  layers : list nat;
  created : nat   (* how many paths were created so far *)
}.

Definition empty : t := {| paths := []; layers := []; created := 0 |}.

(** [addPath(latLng1, latLng2)]. *)
Definition addPath (latLng1 latLng2 : Leaflet.LatLng) (g : t) : t :=
  let path := {| pathId := created g; pathFrom := latLng1; pathTo := latLng2 |} in
  {| paths := paths g ++ [path];
     layers := layers g ++ [pathId path];
     created := S (created g) |}.

(** [removePath(path)]. *)
Definition removePath (path : Path) (g : t) : t :=
  {| paths := List.filter (fun p => negb (Nat.eqb (pathId p) (pathId path))) (paths g);
     layers := List.filter (fun layer => negb (Nat.eqb layer (pathId path))) (layers g);
     created := created g |}.

(** [removeAllPaths()]: the loop runs over the list as it was when it
    started, [removePath] putting a new list in its place each time. *)
Definition removeAllPaths (g : t) : t :=
  fold_left (fun acc path => removePath path acc) (paths g) g.

(** [connectMarkersWithPaths()]; [markers] are the positions of the
    waypoints' markers. *)
Definition connectMarkersWithPaths (markers : list Leaflet.LatLng) (g : t) : t :=
  fold_left
    (fun acc i =>
       if Nat.eqb i 0 then acc
       else
         match markers !! (i - 1), markers !! i with
         | Some previous, Some current => addPath previous current acc
         | _, _ => acc
         end)
    (seq 0 (length markers)) g.

End Paths.

(** *** Further observations of a session *)

Definition overlayOf (s : Main.t) : ContentOverlay.t := Map.contentOverlay (Main.map s).

Definition miniMapButton (s : Main.t) : option Button.t :=
  NavigationBar.minimap (Main.navigationBar s).

(** Every waypoint of the list is closed. *)
Definition allClosed (ws : list Waypoint.t) : Prop :=
  forall i w, ws !! i = Some w -> Waypoint.isOpen w = false.

(** The centre of the view is within the bounds of latitude and longitude. *)
Definition inBounds (m : Leaflet.t) : Prop :=
  within (Leaflet.lat (Leaflet.center m)) GeoMap.LATITUDE_MIN GeoMap.LATITUDE_MAX /\
  within (Leaflet.lng (Leaflet.center m)) GeoMap.LONGITUDE_MIN GeoMap.LONGITUDE_MAX.

(** [m'] is [m] with its view moved by the geo map: the frame is the same,
    and the centre stays within the bounds if it was. *)
Definition moved (m m' : Leaflet.t) : Prop :=
  sameFrame m' m /\ (inBounds m -> inBounds m').

(** [s] once the closed waypoint [wp] at position [ref] is opened and the
    opening is handled, the view left as it is. *)
Definition opened (ref : nat) (wp : Waypoint.t) (s : Main.t) : Main.t :=
  let m := Map.withGeoMap (GeoMap.setOpenWaypoint ref (Map.geoMap (Main.map s))) (Main.map s) in
  let m := Map.withContentOverlay
             (ContentOverlay.show (ContentOverlay.setContent ref (Map.contentOverlay m))) m in
  let h := Main.updateButtonDisabledStates
             (Main.withOpenWaypointContentIndex (Waypoint.getIndex wp) (Main.withMap m s)) in
  Main.read
    (replace "@title"
       (default ""%string
          (Waypoint.getTitle <$>
             (Map.getWaypointByIndex (VNum (ofZ (Waypoint.getIndex wp))) (Main.map h)
                ≫= fun r => Main.waypointAt r h)))
       (Main.openedContent h)) h.

(** The backward control is enabled exactly when the open index is above 0,
    the forward control exactly when it is below the last index. *)
Definition buttonsFollowIndex (s : Main.t) : Prop :=
  backwardEnabled s = (0 <? Main.openWaypointContentIndex s)%Z /\
  forwardEnabled s = (Main.openWaypointContentIndex s <? Main.lastMarkerIndex s)%Z.

(** The overlay is hidden exactly when no waypoint is open; when it is
    shown, the content it holds is that of an open waypoint. *)
Definition overlayShowsOpen (s : Main.t) : Prop :=
  if ContentOverlay.hidden (overlayOf s)
  then allClosed (waypointsOf s)
  else exists ref w,
         ContentOverlay.content (overlayOf s) = Some ref /\
         waypointsOf s !! ref = Some w /\ Waypoint.isOpen w = true.

(** The open index is that of an open waypoint; it is -1 when no waypoint
    is open. *)
Definition indexNamesOpen (s : Main.t) : Prop :=
  if (Main.openWaypointContentIndex s =? -1)%Z
  then allClosed (waypointsOf s)
  else (0 <= Main.openWaypointContentIndex s)%Z /\
       exists w, waypointsOf s !! Z.to_nat (Main.openWaypointContentIndex s) = Some w /\
                 Waypoint.isOpen w = true.

(** A state that is set names one of the [count] waypoints as the open one. *)
Definition namesWaypoint (count : nat) (state : option State) : Prop :=
  exists z, state ≫= stateOpenWaypointContentIndex = Some z /\ (0 <= z < Z.of_nat count)%Z.

(** The actions that set no state but one that names a waypoint. *)
Definition setsNamedWaypoint (count : nat) (a : action) : Prop :=
  match a with
  | SetCurrentState state => namesWaypoint count state
  | _ => True
  end.


(** The actions other than the user's dragging and zooming of the map. *)
Definition notUserView (a : action) : Prop :=
  match a with
  | UserView _ _ => False
  | _ => True
  end.

(** The mini map button, if there is one, is a toggle. *)
Definition miniMapButtonToggles (s : Main.t) : Prop :=
  forall button, miniMapButton s = Some button -> Button.type button = Button.Toggle.

(** What a waypoint is made of, apart from whether it is open. *)
Definition sameWaypoint (w w' : Waypoint.t) : Prop :=
  Waypoint.getIndex w' = Waypoint.getIndex w /\ Waypoint.getId w' = Waypoint.getId w /\
  Waypoint.getTitle w' = Waypoint.getTitle w /\
  Waypoint.latitude w' = Waypoint.latitude w /\ Waypoint.longitude w' = Waypoint.longitude w.

(** A waypoint that was closed in [s] is open in [s']. *)
Definition opensWaypoint (s s' : Main.t) : Prop :=
  exists position w w',
    waypointsOf s !! position = Some w /\ Waypoint.isOpen w = false /\
    waypointsOf s' !! position = Some w' /\ Waypoint.isOpen w' = true.

(** The text of the announcement for a waypoint of the given title. *)
Definition announcement (title : string) (s : Main.t) : string :=
  replace "@title" title (Main.openedContent s).

(** A previous state a story map can start from with its open index
    consistent: one that names no open waypoint, or names one of the
    [count] waypoints. *)
Definition resumable (count : nat) (state : option State) : Prop :=
  state ≫= stateOpenWaypointContentIndex = None \/ namesWaypoint count state.

(** *** Further vocabulary of the content bundle *)

(** An event the xAPI handler of a task acts on: its max score is a number
    and its verb is "completed" or "answered". *)
Definition accepted (e : XAPIEvent) : bool :=
  isNumber (eventMaxScore e) &&
  (String.eqb (eventVerb e) "completed" || String.eqb (eventVerb e) "answered").

(** The runtime adds whole numbers from 0 up to 2^53 without rounding, as
    doubles do. *)
Definition addsWholeNumbers (rt : Runtime) : Prop :=
  forall x y : Z, (0 <= x)%Z -> (0 <= y)%Z -> (x + y <= 2 ^ 53)%Z ->
    plus rt (ofZ x) (ofZ y) = ofZ (x + y).

(** What the result of a score method counts for in a sum of whole
    scores: the whole number from 0 on it reports, and 0 when the method
    is missing or reports NaN. *)
Definition countsFor (result : option number) (z : Z) : Prop :=
  (0 <= z)%Z /\
  match result with
  | None | Some NaN => z = 0%Z
  | Some n => n = ofZ z
  end.

(** The sum of whole numbers. *)
Definition sumZ (l : list Z) : Z := fold_right Z.add 0%Z l.

(** A bundle of two tasks with a text between them. *)
Definition sampleBundle : ContentBundle.t :=
  ContentBundle.construct [Some sampleTask; Some sampleText; Some sampleTask].

(** Whether an event of a bundle's session reaches the xAPI handler of a
    task of [b] and is acted on by it. *)
Definition notifies (b : ContentBundle.t) (ev : ContentBundle.event) : bool :=
  match ev with
  | ContentBundle.TriggerXAPI position e =>
      accepted e &&
      default false (H5PUtil.isInstanceTask <$> ContentBundle.instances b !! position)
  | ContentBundle.ResetBundle => false
  end.

(** *** Vocabulary of the further components *)

(** The label a button in this state is to carry. *)
Definition labelOf (e : ButtonElement.t) : string :=
  if ButtonElement.disabled e then ButtonElement.labelDisabled (ButtonElement.a11y e)
  else if ButtonElement.active e then ButtonElement.labelActive (ButtonElement.a11y e)
  else ButtonElement.labelInactive (ButtonElement.a11y e).

(** The element of a button built from [params] tells the state of the
    button. *)
Definition attributesFollow (params : ButtonElement.Params) (e : ButtonElement.t) : Prop :=
  ButtonElement.type e = ButtonElement.paramType params /\
  ButtonElement.a11y e = ButtonElement.labels params /\
  ButtonElement.classDisabled e = ButtonElement.disabled e /\
  ButtonElement.ariaLabel e = Some (labelOf e) /\
  match ButtonElement.type e with
  | Button.Toggle =>
      ButtonElement.ariaPressed e = ButtonElement.active e /\
      (ButtonElement.disabled e = false ->
       ButtonElement.classActive e = ButtonElement.active e)
  | Button.Pulse =>
      ButtonElement.ariaPressed e = ButtonElement.paramActive params /\
      ButtonElement.classActive e = false
  end.

(** The operations other than [enable]. *)
Definition notEnable (op : ButtonElement.operation) : Prop :=
  match op with
  | ButtonElement.Enable => False
  | _ => True
  end.

(** The tab order of [count] buttons with the one at [current] in it. *)
Definition roving (count : nat) (current : nat) : list string :=
  imap (fun index _ => if Nat.eqb index current then "0" else "-1")%string (replicate count tt).

(** The bar has [count] buttons, its current button is one of them, and
    that button alone is in the tab order. *)
Definition oneTabStop (count : nat) (n : NavigationBarFocus.t) : Prop :=
  (0 <= NavigationBarFocus.currentButtonIndex n < Z.of_nat count)%Z /\
  NavigationBarFocus.tabindex n =
    roving count (Z.to_nat (NavigationBarFocus.currentButtonIndex n)).

(** The uses of the progress indicator other than switching the text mode
    from outside: those the main component makes of it. *)
Definition keepsTextMode (u : ProgressIndicator.use) : Prop :=
  match u with
  | ProgressIndicator.BarToggleProgressTextMode _ => False
  | _ => True
  end.

(** Both dimensions of the available space are there and count as true:
    neither is 0 or NaN. *)
Definition usable (space : Fullscreen.Space) : bool :=
  match Fullscreen.spaceWidth space, Fullscreen.spaceHeight space with
  | Some width, Some height => truthy (VNum width) && truthy (VNum height)
  | _, _ => false
  end.

(** The ids of the paths. *)
Definition pathIds (paths : list Paths.Path) : list nat := Paths.pathId <$> paths.

(** The paths are layers of the map, each once, and told apart by their
    ids, which are below the number of paths created. *)
Definition pathsOnMap (g : Paths.t) : Prop :=
  Paths.layers g = pathIds (Paths.paths g) /\
  NoDup (pathIds (Paths.paths g)) /\
  forall id, id ∈ pathIds (Paths.paths g) -> id < Paths.created g.

(** *** Case mappings to compute with: those of the ASCII letters. *)

Definition lowerChar (c : ascii) : ascii :=
  let n := nat_of_ascii c in
  if (65 <=? n)%nat && (n <=? 90)%nat then ascii_of_nat (n + 32) else c.

Definition upperChar (c : ascii) : ascii :=
  let n := nat_of_ascii c in
  if (97 <=? n)%nat && (n <=? 122)%nat then ascii_of_nat (n - 32) else c.

Fixpoint mapString (f : ascii -> ascii) (s : string) : string :=
  match s with
  | EmptyString => EmptyString
  | String c rest => String (f c) (mapString f rest)
  end.

Definition asciiLower : string -> string := mapString lowerChar.
Definition asciiUpper : string -> string := mapString upperChar.

(** *** Vocabulary of [extend] *)

(** What [extend] leaves under a key that held [old] in the target and
    holds [new] in the source: the two merged when both are objects, the
    old value when the new one is undefined, the new value otherwise. *)
Definition mergedAt (old new result : Util.jsobject) : Prop :=
  if Util.isObject old && Util.isObject new then Util.merge old new = Returned result
  else match new with
       | Util.Primitive VUndefined => result = old
       | _ => result = new
       end.

(** The keys of every object within [o] are told apart. *)
Fixpoint plain (o : Util.jsobject) : bool :=
  match o with
  | Util.Primitive _ => true
  | Util.Object properties =>
      bool_decide (NoDup properties.*1) &&
      (fix all (properties : list (string * Util.jsobject)) : bool :=
         match properties with
         | [] => true
         | (_, v) :: rest => plain v && all rest
         end) properties
  end.

(** Induction over an object and the objects within it. *)
Fixpoint jsobject_deep_ind (P : Util.jsobject -> Prop)
    (HPrimitive : forall v, P (Util.Primitive v))
    (HObject : forall properties,
       Forall (fun property => P property.2) properties -> P (Util.Object properties))
    (o : Util.jsobject) : P o :=
  match o with
  | Util.Primitive v => HPrimitive v
  | Util.Object properties =>
      HObject properties
        ((fix all (properties : list (string * Util.jsobject))
            : Forall (fun property => P property.2) properties :=
            match properties with
            | [] => List.Forall_nil _
            | (key, v) :: rest =>
                List.Forall_cons _ (key, v) rest
                  (jsobject_deep_ind P HPrimitive HObject v) (all rest)
            end) properties)
  end.

(** Defaults and parameters to compute with. *)
Definition sampleDefaults : list (string * Util.jsobject) :=
  [("zoom", Util.Primitive (VNum (ofZ 3)));
   ("a11y", Util.Object [("close", Util.Primitive (VStr "Close"));
                         ("open", Util.Primitive (VStr "Open"))]);
   ("style", Util.Primitive VNull)]%string.

Definition sampleSettings : list (string * Util.jsobject) :=
  [("a11y", Util.Object [("close", Util.Primitive (VStr "Lukk"));
                         ("open", Util.Primitive VUndefined)]);
   ("zoom", Util.Primitive VUndefined);
   ("style", Util.Primitive VNull);
   ("title", Util.Primitive (VStr "Oslo"))]%string.

(** A disabled toggle button and operations on it to compute with. *)
Definition sampleDisabledToggle : ButtonElement.t :=
  ButtonElement.construct
    {| ButtonElement.paramA11y :=
         {| ButtonElement.labelActive := "Hide mini map";
            ButtonElement.labelDisabled := "Mini map not available";
            ButtonElement.labelInactive := "Show mini map" |};
       ButtonElement.paramActive := true;
       ButtonElement.paramDisabled := true;
       ButtonElement.paramType := Button.Toggle |}%string.

Definition sampleOperations : list ButtonElement.operation :=
  [ButtonElement.Click; ButtonElement.ForceState false false;
   ButtonElement.Toggle (Some false) true; ButtonElement.Deactivate; ButtonElement.Disable].

(** Uses of the progress indicator to compute with. *)
Definition sampleUses : list ProgressIndicator.use :=
  [ProgressIndicator.BarUpdate (VNum (ofZ 1)) (VNum (ofZ 1)) (VNum (ofZ 3)) (VStr "1 / 3");
   ProgressIndicator.BarReset;
   ProgressIndicator.BarUpdate (VNum (ofZ 2)) VUndefined VUndefined (VStr "2 / 3")].
(** * Properties *)

(** ** sanitizeNumber *)

Section SanitizeNumber.
Variable rt : Runtime.

Lemma sanitizeNumber_valid value r defaultValue min max :
  validNumber rt value = Some r ->
  Util.sanitizeNumber rt value defaultValue min max = Returned (clamp r min max).
Proof.
  unfold validNumber, Util.sanitizeNumber, clamp.
  destruct value as [| |b|n|s|f]; try discriminate.
  - destruct (isNaN n) eqn:Hn; [discriminate|].
    intros [= ->]. cbn. rewrite ?Hn.
    destruct min as [| | |lo| |], max as [| | |hi| |]; cbn;
      repeat match goal with |- context [if ?c then _ else _] => destruct c end;
      reflexivity.
  - destruct (String.eqb _ _); cbn; [|discriminate].
    destruct (isNaN (parseFloat rt s)) eqn:Hn; cbn; [discriminate|].
    intros [= <-]. cbn. rewrite ?Hn.
    destruct min as [| | |lo| |], max as [| | |hi| |]; cbn;
      repeat match goal with |- context [if ?c then _ else _] => destruct c end;
      reflexivity.
Qed.

Lemma sanitizeNumber_invalid value defaultValue min max :
  validNumber rt value = None ->
  Util.sanitizeNumber rt value defaultValue min max =
    if isNumber defaultValue then Returned defaultValue
    else Thrown "Invalid default value".
Proof.
  unfold validNumber, Util.sanitizeNumber.
  destruct value as [| |b|n|s|f]; try reflexivity.
  - destruct (isNaN n); [reflexivity|discriminate].
  - destruct (String.eqb _ _); simpl; [|reflexivity].
    destruct (isNaN (parseFloat rt s)); simpl; [reflexivity|discriminate].
Qed.

Lemma clamp_is_number r min max : exists n, clamp r min max = VNum n.
Proof.
  unfold clamp.
  destruct min as [| | |lo| |], max as [| | |hi| |];
    repeat match goal with |- context [if ?c then _ else _] => destruct c end;
    eauto.
Qed.

Lemma clamp_numbers r lo hi : clamp r (VNum lo) (VNum hi) = VNum (clampNumber r lo hi).
Proof.
  unfold clamp, clampNumber.
  repeat match goal with |- context [if ?c then _ else _] => destruct c end; reflexivity.
Qed.

Lemma sanitizeNumber_numbers value defaultValue lo hi :
  Util.sanitizeNumber rt value (VNum defaultValue) (VNum lo) (VNum hi) =
    Returned (VNum (sanitized rt value defaultValue lo hi)).
Proof.
  unfold sanitized. destruct (validNumber rt value) as [r|] eqn:Hv.
  - rewrite (sanitizeNumber_valid _ _ _ _ _ Hv). now rewrite clamp_numbers.
  - now rewrite (sanitizeNumber_invalid _ _ _ _ Hv).
Qed.

Lemma validNumber_not_NaN value r : validNumber rt value = Some r -> isNaN r = false.
Proof.
  unfold validNumber. destruct value as [| |b|n|s|f]; try discriminate.
  - destruct (isNaN n) eqn:Hn; [discriminate|]. now intros [= <-].
  - destruct (String.eqb _ _); simpl; [|discriminate].
    destruct (isNaN (parseFloat rt s)) eqn:Hn; simpl; [discriminate|]. now intros [= <-].
Qed.

(** C10.  With a default that is a number, sanitizeNumber returns a number
    and does not throw.  It reads a number from a value that is a number
    other than NaN, and from a string exactly when the print of what
    parseFloat makes of it is the trimmed string (so the print of a number
    that the runtime reads back is read as that number); the number read
    is returned, moved to min when below it and otherwise to max when
    above it, for the bounds that are numbers.  Any other value yields the
    default, and the call throws exactly when no number is read and the
    default is not a number. *)
Theorem sanitizeNumber_total_and_clamping (value defaultValue min max : jsvalue) :
  (isNumber defaultValue = true ->
     exists n, Util.sanitizeNumber rt value defaultValue min max = Returned (VNum n)) /\
  (forall s, value = VStr s ->
     validNumber rt value =
       if String.eqb (toString rt (parseFloat rt s)) (trim rt s) &&
          negb (isNaN (parseFloat rt s))
       then Some (parseFloat rt s) else None) /\
  (forall n, isNaN n = false ->
     parseFloat rt (toString rt n) = n -> trim rt (toString rt n) = toString rt n ->
     validNumber rt (VStr (toString rt n)) = Some n) /\
  (forall r, value = VNum r -> validNumber rt value = if isNaN r then None else Some r) /\
  (isNumber value = false -> (forall s, value <> VStr s) -> validNumber rt value = None) /\
  (forall r, validNumber rt value = Some r ->
     Util.sanitizeNumber rt value defaultValue min max = Returned (clamp r min max) /\
     (forall lo, min = VNum lo -> lt r lo = true -> clamp r min max = min) /\
     (forall hi, max = VNum hi -> gt r hi = true ->
        (forall lo, min = VNum lo -> lt r lo = false) -> clamp r min max = max) /\
     ((forall lo, min = VNum lo -> lt r lo = false) ->
      (forall hi, max = VNum hi -> gt r hi = false) -> clamp r min max = VNum r)) /\
  (validNumber rt value = None -> isNumber defaultValue = true ->
     Util.sanitizeNumber rt value defaultValue min max = Returned defaultValue) /\
  ((exists msg, Util.sanitizeNumber rt value defaultValue min max = Thrown msg) <->
     validNumber rt value = None /\ isNumber defaultValue = false).
Proof.
  split; [|split; [|split; [|split; [|split; [|split; [|split]]]]]].
  - intros Hd. destruct (validNumber rt value) as [r|] eqn:Hv.
    + rewrite (sanitizeNumber_valid _ _ _ _ _ Hv).
      destruct (clamp_is_number r min max) as [n ->]. eauto.
    + rewrite (sanitizeNumber_invalid _ _ _ _ Hv), Hd.
      destruct defaultValue; try discriminate. eauto.
  - now intros s ->.
  - intros n Hn Hp Ht. unfold validNumber. now rewrite Hp, Ht, String.eqb_refl, Hn.
  - now intros r ->.
  - intros Hn Hs. destruct value; try reflexivity; [discriminate|now destruct (Hs s)].
  - intros r Hv. split; [|split; [|split]].
    + now apply sanitizeNumber_valid.
    + intros lo -> Hlt. unfold clamp. rewrite Hlt. now destruct max.
    + intros hi -> Hgt Hlo. unfold clamp.
      destruct min as [| | |lo| |]; rewrite ?(Hlo _ eq_refl), Hgt; reflexivity.
    + intros Hlo Hhi. unfold clamp.
      destruct min as [| | |lo| |], max as [| | |hi| |];
        rewrite ?(Hlo _ eq_refl), ?(Hhi _ eq_refl); reflexivity.
  - intros Hv Hd. now rewrite (sanitizeNumber_invalid _ _ _ _ Hv), Hd.
  - split.
    + intros [msg Hm]. destruct (validNumber rt value) as [r|] eqn:Hv.
      * rewrite (sanitizeNumber_valid _ _ _ _ _ Hv) in Hm. discriminate.
      * rewrite (sanitizeNumber_invalid _ _ _ _ Hv) in Hm.
        now destruct (isNumber defaultValue).
    + intros [Hv Hd]. rewrite (sanitizeNumber_invalid _ _ _ _ Hv), Hd. eauto.
Qed.

End SanitizeNumber.

(** sanitizeNumber on decimal numerals: surrounding blanks are trimmed away,
    a numeral that is not the print of its number is refused, a number out
    of the bounds is moved to the bound, and a default that is not a number
    makes the fallback throw. *)
Example sanitizeNumber_on_numerals :
  Util.sanitizeNumber decimalRuntime (VStr " 69.6456737 ") (VNum (ofZ 0))
    (VNum (ofZ (-90))) (VNum (ofZ 90)) = Returned (VNum (Fin 69.6456737)) /\
  Util.sanitizeNumber decimalRuntime (VStr "1.0") (VNum (ofZ 7))
    (VNum (ofZ (-90))) (VNum (ofZ 90)) = Returned (VNum (ofZ 7)) /\
  Util.sanitizeNumber decimalRuntime (VStr "-200") (VNum (ofZ 7))
    (VNum (ofZ (-180))) (VNum (ofZ 180)) = Returned (VNum (ofZ (-180))) /\
  Util.sanitizeNumber decimalRuntime (VNum (ofZ 999)) (VNum (ofZ 7))
    VUndefined (VNum (ofZ 90)) = Returned (VNum (ofZ 90)) /\
  Util.sanitizeNumber decimalRuntime (VNum NaN) (VNum (ofZ 7)) VUndefined VUndefined
    = Returned (VNum (ofZ 7)) /\
  Util.sanitizeNumber decimalRuntime VNull VUndefined VUndefined VUndefined
    = Thrown "Invalid default value".
Proof. repeat split; vm_compute; reflexivity. Qed.

(** ** The content bundle *)

Section Bundle.
Import H5PUtil ContentBundle.

Implicit Types (b : ContentBundle.t) (m : gmap nat Tracking) (i index : nat).

Lemma successOf_cases result :
  successOf result =
    match success result, maxScore result with
    | Some true, Some m => ge (default (ofZ 0) (score result)) m
    | Some true, None => false
    | Some false, _ => false
    | None, Some m => truthy (VNum m) && ge (default (ofZ 0) (score result)) m
    | None, None => false
    end.
Proof.
  unfold successOf.
  destruct (success result) as [[|]|], (maxScore result) as [m|]; reflexivity.
Qed.

Lemma xAPIHandler_cases index e b :
  xAPIHandler index e b = b \/
  exists r, trIsTask r = None /\
    trackingMap (xAPIHandler index e b) = <[index := r]> (trackingMap b) /\
    instances (xAPIHandler index e b) = instances b.
Proof.
  unfold xAPIHandler.
  destruct (negb (isNumber (eventMaxScore e))); [now left|].
  destruct (negb _); [now left|].
  right. eexists. split; [|split]; [|reflexivity|reflexivity]. reflexivity.
Qed.

(** *** The loop of [reset] *)

Lemma resetEntry_lookup index m i :
  resetEntry index m !! i = if decide (i = index) then kept (m !! i) else m !! i.
Proof.
  unfold resetEntry, kept, keptByReset. case_decide as Hi.
  - subst i. destruct (m !! index) as [entry|] eqn:He; [|now rewrite He].
    destruct (trIsTask entry) as [[|]|]; rewrite ?lookup_delete_eq, ?He; reflexivity.
  - destruct (m !! index) as [entry|] eqn:He; [|reflexivity].
    destruct (trIsTask entry) as [[|]|]; rewrite ?lookup_delete_ne by congruence; reflexivity.
Qed.

Lemma kept_kept o : kept (kept o) = kept o.
Proof.
  destruct o as [entry|]; cbn; [|reflexivity].
  destruct (keptByReset entry) eqn:Hk; cbn; now rewrite ?Hk.
Qed.

Lemma foldr_resetEntry_lookup keys m i :
  foldr resetEntry m keys !! i = if decide (i ∈ keys) then kept (m !! i) else m !! i.
Proof.
  induction keys as [|k keys IH]; cbn.
  - case_decide as Hi; [|reflexivity]. now apply elem_of_nil in Hi.
  - rewrite resetEntry_lookup, IH. destruct (decide (i = k)) as [->|Hne].
    + rewrite (decide_True (P := k ∈ k :: keys)) by (apply elem_of_cons; tauto).
      case_decide; now rewrite ?kept_kept.
    + destruct (decide (i ∈ keys)) as [Hin|Hin].
      * now rewrite (decide_True (P := i ∈ k :: keys)) by (apply elem_of_cons; tauto).
      * now rewrite (decide_False (P := i ∈ k :: keys)) by (apply not_elem_of_cons; tauto).
Qed.

Lemma reset_lookup b i :
  trackingMap (reset b) !! i = kept (trackingMap b !! i).
Proof.
  cbn. rewrite foldr_resetEntry_lookup. case_decide as Hi; [reflexivity|].
  destruct (trackingMap b !! i) as [entry|] eqn:He; [|reflexivity].
  destruct Hi. apply list_elem_of_fmap. exists (i, entry). split; [reflexivity|].
  now apply elem_of_map_to_list.
Qed.

(** *** Accounting for the instances *)

Lemma taskIndices_snoc l x :
  flat_map xAPIListeners (l ++ [x]) = flat_map xAPIListeners l ++ xAPIListeners x.
Proof. rewrite flat_map_app. cbn. now rewrite app_nil_r. Qed.

Lemma elem_of_taskIndices b i :
  i ∈ taskIndices b <-> exists instance, instance ∈ instances b /\ i ∈ xAPIListeners instance.
Proof.
  unfold taskIndices. rewrite list_elem_of_In, in_flat_map.
  split; intros (x & Hx & Hi); exists x; rewrite ?list_elem_of_In in *; auto.
Qed.

Lemma accounted_empty : accounted empty.
Proof.
  split; cbn.
  - constructor.
  - intros i r Hr. now rewrite lookup_empty in Hr.
  - intros i r Hr. now rewrite lookup_empty in Hr.
  - intros instance Hi. now apply elem_of_nil in Hi.
  - rewrite dom_empty_L, (left_id_L ∅ (∪)). reflexivity.
Qed.

Lemma size_add_fresh (X : gset nat) k : k ∉ X -> size ({[k]} ∪ X) = S (size X).
Proof.
  intros Hk. rewrite size_union; [now rewrite size_singleton|].
  intros i Hi Hi'. apply elem_of_singleton in Hi. now subst.
Qed.

Lemma addContent_accounted contentParams k b :
  accounted b -> below k b ->
  accounted (addContent contentParams k b) /\ below (S k) (addContent contentParams k b).
Proof.
  intros [Hnd Htask Hother Hh Hcount] Hb.
  assert (Hk1 : trackingMap b !! k = None).
  { destruct (trackingMap b !! k) eqn:He; [|reflexivity].
    assert (k < k) by (apply Hb; left; eauto). lia. }
  assert (Hk2 : k ∉ taskIndices b).
  { intros Hin. assert (k < k) by (apply Hb; now right). lia. }
  unfold addContent. destruct contentParams as [c|]; cbn.
  2:{ split; [now split|]. intros i Hi. specialize (Hb i Hi). lia. }
  match goal with |- context [isInstanceTask ?x] => set (fresh := x) end.
  destruct (isInstanceTask fresh) eqn:Htk.
  - match goal with |- accounted ?x /\ _ => set (b' := x) end.
    assert (Eti : taskIndices b' = taskIndices b ++ [k])
      by (unfold taskIndices; cbn; now rewrite taskIndices_snoc).
    split; [split|]; rewrite ?Eti; cbn.
    + apply NoDup_app. split; [assumption|]. split; [|apply NoDup_singleton].
      intros i Hi Hi'. apply list_elem_of_singleton in Hi'. now subst.
    + intros i r Hr Hi. apply elem_of_app in Hi as [Hi|Hi]; [eauto|].
      apply list_elem_of_singleton in Hi. subst. congruence.
    + intros i r Hr Hi. apply (Hother i r Hr). intros Hin. apply Hi, elem_of_app. now left.
    + intros instance Hi. apply elem_of_app in Hi as [Hi|Hi]; [now apply Hh|].
      apply list_elem_of_singleton in Hi. subst instance.
      change (isInstanceTask (subscribe k fresh)) with (isInstanceTask fresh).
      rewrite Htk. cbn. eauto.
    + rewrite length_app, Hcount. cbn. rewrite list_to_set_app_L. cbn.
      rewrite (right_id_L ∅ (∪)), (comm_L (∪) _ {[k]}), (assoc_L (∪)),
        (comm_L (∪) _ {[k]}), <- (assoc_L (∪)).
      rewrite size_add_fresh; [lia|].
      rewrite elem_of_union, elem_of_dom, elem_of_list_to_set, Hk1.
      intros [[? ?]|?]; [discriminate|contradiction].
    + intros i [Hi|Hi].
      * specialize (Hb i (or_introl Hi)). lia.
      * rewrite Eti in Hi.
        apply elem_of_app in Hi as [Hi|Hi]; [specialize (Hb i (or_intror Hi)); lia|].
        apply list_elem_of_singleton in Hi. lia.
  - match goal with |- accounted ?x /\ _ => set (b' := x) end.
    assert (Eti : taskIndices b' = taskIndices b).
    { unfold taskIndices; cbn. rewrite taskIndices_snoc. cbn. apply app_nil_r. }
    split; [split|]; rewrite ?Eti; cbn.
    + assumption.
    + intros i r Hr Hi. destruct (decide (i = k)) as [->|Hne]; [contradiction|].
      rewrite lookup_insert_ne in Hr by congruence. eauto.
    + intros i r Hr Hi. destruct (decide (i = k)) as [->|Hne].
      * rewrite lookup_insert_eq in Hr. congruence.
      * rewrite lookup_insert_ne in Hr by congruence. eauto.
    + intros instance Hi. apply elem_of_app in Hi as [Hi|Hi]; [now apply Hh|].
      apply list_elem_of_singleton in Hi. subst instance. now rewrite Htk.
    + rewrite length_app, Hcount. cbn. rewrite dom_insert_L, <- (assoc_L (∪)).
      rewrite size_add_fresh; [lia|].
      rewrite elem_of_union, elem_of_dom, elem_of_list_to_set, Hk1.
      intros [[? ?]|?]; [discriminate|contradiction].
    + intros i [Hi|Hi].
      * destruct (decide (i = k)) as [->|Hne]; [lia|].
        cbn in Hi. rewrite lookup_insert_ne in Hi by congruence.
        specialize (Hb i (or_introl Hi)). lia.
      * rewrite Eti in Hi. specialize (Hb i (or_intror Hi)). lia.
Qed.

Lemma addContents_accounted contents k b :
  accounted b -> below k b -> accounted (addContents contents k b).
Proof.
  revert k b. induction contents as [|c contents IH]; intros k b Ha Hb; cbn; [assumption|].
  destruct (addContent_accounted c k b Ha Hb) as [Ha' Hb']. now apply IH.
Qed.

Lemma construct_accounted contents : accounted (construct contents).
Proof.
  apply addContents_accounted; [apply accounted_empty|].
  intros i [[r Hr]|Hi]; cbn in *.
  - now rewrite lookup_empty in Hr.
  - now apply elem_of_nil in Hi.
Qed.

Lemma xAPIHandler_accounted index e b :
  accounted b -> index ∈ taskIndices b -> accounted (xAPIHandler index e b).
Proof.
  intros Ha Hin. destruct (xAPIHandler_cases index e b) as [->|(r & Hr & Hm & Hi)]; [assumption|].
  destruct Ha as [Hnd Htask Hother Hh Hcount].
  assert (Eti : taskIndices (xAPIHandler index e b) = taskIndices b)
    by (unfold taskIndices; now rewrite Hi).
  split; rewrite ?Eti, ?Hm, ?Hi.
  - assumption.
  - intros i r' Hr' Hi'. destruct (decide (i = index)) as [->|Hne].
    + rewrite lookup_insert_eq in Hr'. congruence.
    + rewrite lookup_insert_ne in Hr' by congruence. eauto.
  - intros i r' Hr' Hi'. destruct (decide (i = index)) as [->|Hne]; [contradiction|].
    rewrite lookup_insert_ne in Hr' by congruence. eauto.
  - assumption.
  - rewrite Hcount, dom_insert_L. f_equal. apply set_eq. intros i.
    rewrite !elem_of_union, elem_of_singleton, elem_of_list_to_set.
    split; [tauto|]. intros [[->|?]|?]; tauto.
Qed.

Lemma fold_xAPIHandler_accounted e indices b :
  accounted b -> (forall i, i ∈ indices -> i ∈ taskIndices b) ->
  accounted (fold_left (fun acc index => xAPIHandler index e acc) indices b) /\
  taskIndices (fold_left (fun acc index => xAPIHandler index e acc) indices b) = taskIndices b.
Proof.
  revert b. induction indices as [|i indices IH]; intros b Ha Hin; cbn; [now split|].
  assert (Hi : i ∈ taskIndices b) by (apply Hin, elem_of_cons; tauto).
  assert (Eti : taskIndices (xAPIHandler i e b) = taskIndices b).
  { destruct (xAPIHandler_cases i e b) as [->|(r & _ & _ & Hinst)]; [reflexivity|].
    unfold taskIndices. now rewrite Hinst. }
  destruct (IH (xAPIHandler i e b)) as [Ha' Et'].
  - now apply xAPIHandler_accounted.
  - intros j Hj. rewrite Eti. apply Hin, elem_of_cons. tauto.
  - split; [assumption|]. now rewrite Et'.
Qed.

Lemma triggerXAPI_accounted position e b :
  accounted b -> accounted (triggerXAPI position e b).
Proof.
  intros Ha. unfold triggerXAPI.
  destruct (instances b !! position) as [instance|] eqn:Hp; [|assumption].
  apply fold_xAPIHandler_accounted; [assumption|].
  intros i Hi. apply elem_of_taskIndices. exists instance. split; [|assumption].
  eapply list_elem_of_lookup_2, Hp.
Qed.

Lemma resetInstance_listeners instance :
  xAPIListeners (resetInstance instance) = xAPIListeners instance.
Proof. unfold resetInstance. now destruct (hasResetTask instance). Qed.

Lemma resetInstance_isInstanceTask instance :
  isInstanceTask (resetInstance instance) = isInstanceTask instance.
Proof. unfold resetInstance. now destruct (hasResetTask instance). Qed.

Lemma reset_taskIndices b : taskIndices (reset b) = taskIndices b.
Proof.
  unfold taskIndices. cbn. induction (instances b) as [|x l IH]; cbn; [reflexivity|].
  now rewrite resetInstance_listeners, IH.
Qed.

Lemma reset_accounted b : accounted b -> accounted (reset b).
Proof.
  intros [Hnd Htask Hother Hh Hcount].
  split; rewrite ?reset_taskIndices.
  - assumption.
  - intros i r Hr Hi. rewrite reset_lookup in Hr.
    destruct (trackingMap b !! i) as [entry|] eqn:He; cbn in Hr; [|discriminate].
    destruct (keptByReset entry) eqn:Hk; [|discriminate]. injection Hr as <-.
    unfold keptByReset in Hk. rewrite (Htask i entry He Hi) in Hk. discriminate.
  - intros i r Hr Hi. rewrite reset_lookup in Hr.
    destruct (trackingMap b !! i) as [entry|] eqn:He; cbn in Hr; [|discriminate].
    destruct (keptByReset entry); [|discriminate]. injection Hr as <-. eauto.
  - intros instance Hi. cbn in Hi. apply list_elem_of_fmap in Hi as (x & -> & Hx).
    rewrite resetInstance_isInstanceTask, resetInstance_listeners. now apply Hh.
  - cbn [instances reset]. rewrite length_map, Hcount. f_equal. apply set_eq. intros i.
    rewrite !elem_of_union, !elem_of_dom, elem_of_list_to_set, reset_lookup.
    destruct (decide (i ∈ taskIndices b)) as [Hi|Hi]; [tauto|].
    destruct (trackingMap b !! i) as [entry|] eqn:He; cbn.
    + rewrite (Hother i entry He Hi). cbn. tauto.
    + tauto.
Qed.

Lemma run_accounted events b : accounted b -> accounted (run events b).
Proof.
  revert b. induction events as [|ev events IH]; intros b Ha; cbn; [assumption|].
  apply IH. destruct ev; cbn; [now apply triggerXAPI_accounted|now apply reset_accounted].
Qed.

Lemma isCompleted_true b :
  isCompleted b = true <->
  length (instances b) = size (trackingMap b) /\
  forall i r, trackingMap b !! i = Some r -> trCompleted r = true.
Proof.
  unfold isCompleted. rewrite andb_true_iff, Nat.eqb_eq, forallb_forall.
  split; intros [Hl Hc]; (split; [assumption|]).
  - intros i r Hr. apply (Hc (i, r)), list_elem_of_In. now apply elem_of_map_to_list.
  - intros [i r] Hin. apply list_elem_of_In, elem_of_map_to_list in Hin. cbn. eauto.
Qed.



Lemma accounted_completed_record b i :
  accounted b -> i ∈ taskIndices b -> isCompleted b = true ->
  exists r, trackingMap b !! i = Some r /\ trCompleted r = true.
Proof.
  intros Ha Hi Hc. apply isCompleted_true in Hc as [Hl Hc].
  destruct (trackingMap b !! i) as [r|] eqn:Hr; [eauto|]. exfalso.
  rewrite (instances_counted b Ha), <- (size_dom (D := gset nat)) in Hl.
  assert (Hsub : dom (trackingMap b) ⊂ dom (trackingMap b) ∪ list_to_set (taskIndices b)).
  { split; [apply union_subseteq_l|]. intros Hsub.
    assert (Hd : i ∈ dom (trackingMap b))
      by (apply Hsub, elem_of_union; right; now apply elem_of_list_to_set).
    apply elem_of_dom in Hd as [r Hr']. congruence. }
  apply subset_size in Hsub. lia.
Qed.

(** C2.  What the xAPI handler records for a "completed" or "answered"
    event with a numeric maximum score: [completed] is the result's
    completion, true when absent; [success] is decided by
    [(score ?? 0) >= maxScore] whenever the result reports success as
    true, so a reported success is not taken over, and is false when the
    result reports no maximum score. *)
Theorem xAPIHandler_records index e b result :
  isNumber (eventMaxScore e) = true ->
  eventVerb e = "completed"%string \/ eventVerb e = "answered"%string ->
  eventResult e = Some result ->
  trackingMap (xAPIHandler index e b) !! index =
    Some {| trIsTask := None;
            trCompleted := default true (completion result);
            trSuccess :=
              match success result, maxScore result with
              | Some true, Some m => ge (default (ofZ 0) (score result)) m
              | Some true, None => false
              | Some false, _ => false
              | None, Some m => truthy (VNum m) && ge (default (ofZ 0) (score result)) m
              | None, None => false
              end |}.
Proof.
  intros Hn Hv Hr. unfold xAPIHandler. rewrite Hn. cbn.
  assert (Hverb : (String.eqb (eventVerb e) "completed" ||
                   String.eqb (eventVerb e) "answered") = true).
  { destruct Hv as [-> | ->]; reflexivity. }
  rewrite Hverb. cbn. rewrite lookup_insert_eq, Hr. cbn.
  now rewrite successOf_cases.
Qed.


End Bundle.

(** ** Integers as numbers *)

Lemma eqb_ofZ a b : eqb (ofZ a) (ofZ b) = (a =? b)%Z.
Proof.
  unfold eqb, ofZ. destruct (Z.eqb_spec a b) as [->|Hne].
  - apply Qeq_bool_iff. reflexivity.
  - destruct (Qeq_bool (inject_Z a) (inject_Z b)) eqn:He; [|reflexivity].
    apply Qeq_bool_iff in He. apply (proj1 (inject_Z_injective a b)) in He. contradiction.
Qed.

Lemma lt_ofZ a b : lt (ofZ a) (ofZ b) = (a <? b)%Z.
Proof.
  unfold lt, ofZ, Qle_bool. cbn. rewrite !Z.mul_1_r.
  destruct (Z.ltb_spec a b), (Z.leb_spec b a); try reflexivity; lia.
Qed.

Lemma ge_ofZ a b : ge (ofZ a) (ofZ b) = (b <=? a)%Z.
Proof.
  unfold ge. change (negb (lt (ofZ a) (ofZ b)) = (b <=? a)%Z). rewrite lt_ofZ.
  destruct (Z.ltb_spec a b), (Z.leb_spec b a); try reflexivity; lia.
Qed.

(** ** The geo map *)

Lemma sanitized_not_NaN rt value defaultValue lo hi :
  isNaN defaultValue = false -> isNaN lo = false -> isNaN hi = false ->
  isNaN (sanitized rt value defaultValue lo hi) = false.
Proof.
  intros Hd Hlo Hhi. unfold sanitized.
  destruct (validNumber rt value) as [r|] eqn:Hv; [|assumption].
  unfold clampNumber. destruct (lt r lo); [assumption|].
  destruct (gt r hi); [assumption|]. eapply validNumber_not_NaN, Hv.
Qed.

Lemma sameFrame_refl m : sameFrame m m.
Proof. now repeat split. Qed.

Lemma sameFrame_withView c z m : sameFrame (Leaflet.withView c z m) m.
Proof. now repeat split. Qed.

Lemma GeoMap_withMap_id g : GeoMap.withMap (GeoMap.map g) g = g.
Proof. now destruct g. Qed.

Section GeoMapFacts.
Variable rt : Runtime.
Variable projection : Leaflet.Projection.

Lemma GeoMap_setView_returns coordinates zoomLevel g :
  GeoMap.setView rt (CoordinatesObject coordinates) zoomLevel g =
    Returned
      (GeoMap.withMap
         (Leaflet.withView
            {| Leaflet.lat := sanitized rt (coordLatitude coordinates)
                                (Fin 69.6456737) (ofZ (-90)) (ofZ 90);
               Leaflet.lng := sanitized rt (coordLongitude coordinates)
                                (Fin 18.9501558) (ofZ (-180)) (ofZ 180) |}
            (Leaflet.limitZoom (GeoMap.map g)
               (sanitized rt zoomLevel (ofZ 13)
                  (Leaflet.minZoom (GeoMap.map g)) (Leaflet.maxZoom (GeoMap.map g))))
            (GeoMap.map g)) g).
Proof.
  unfold GeoMap.setView. cbn [GeoMap.coordinatesOf mbind outcome_bind mret outcome_ret].
  rewrite !sanitizeNumber_numbers. cbn [mbind outcome_bind mret outcome_ret].
  unfold Leaflet.setView, Leaflet.toLatLng.
  rewrite !sanitized_not_NaN by reflexivity. reflexivity.
Qed.

Lemma GeoMap_panTo_returns coordinates options g :
  exists m, GeoMap.panTo rt coordinates options g = Returned (GeoMap.withMap m g) /\
            sameFrame m (GeoMap.map g).
Proof.
  unfold GeoMap.panTo.
  destruct (negb (isNumber (coordLatitude coordinates)) ||
            negb (isNumber (coordLongitude coordinates))).
  - exists (GeoMap.map g). rewrite GeoMap_withMap_id. split; [reflexivity|apply sameFrame_refl].
  - rewrite !sanitizeNumber_numbers. cbn. unfold Leaflet.panTo, Leaflet.toLatLng.
    rewrite !sanitized_not_NaN by reflexivity. cbn.
    eexists. split; [reflexivity|]. destruct (truthy (optZoomLevel options)); now repeat split.
Qed.

Lemma GeoMap_centerOnWaypoint_returns id options g :
  exists m, GeoMap.centerOnWaypoint rt projection id options g = Returned (GeoMap.withMap m g) /\
            sameFrame m (GeoMap.map g).
Proof.
  assert (Hid : exists m, Returned g = Returned (GeoMap.withMap m g) /\ sameFrame m (GeoMap.map g)).
  { exists (GeoMap.map g). rewrite GeoMap_withMap_id. split; [reflexivity|apply sameFrame_refl]. }
  unfold GeoMap.centerOnWaypoint.
  destruct (eqb _ _ || eqb _ _); [exact Hid|].
  rewrite !sanitizeNumber_numbers. cbn [mbind outcome_bind].
  destruct (GeoMap.getWaypointById id g ≫= _); [apply GeoMap_panTo_returns|exact Hid].
Qed.

Lemma GeoMap_reset_returns g :
  exists m,
    GeoMap.reset rt projection g =
      Returned (GeoMap.withMap m
                  (GeoMap.withWaypoints (Waypoint.setOpen false <$> GeoMap.waypoints g) g)) /\
    sameFrame m (GeoMap.map g).
Proof.
  unfold GeoMap.reset.
  set (g' := GeoMap.withWaypoints _ g).
  destruct (GeoMap.waypoints g') as [|first rest].
  - exists (GeoMap.map g'). rewrite GeoMap_withMap_id. split; [reflexivity|apply sameFrame_refl].
  - match goal with |- context [GeoMap.centerOnWaypoint _ _ ?id ?o g'] =>
      destruct (GeoMap_centerOnWaypoint_returns id o g') as (m & Hm & Hf)
    end.
    exists m. split; [exact Hm|exact Hf].
Qed.

End GeoMapFacts.

(** ** The main component *)

Lemma Button_enable_disabled b : Button.disabled (Button.enable b) = false.
Proof. unfold Button.enable, Button.activate, Button.deactivate. cbn. now destruct (Button.active b). Qed.

Lemma updateButtonDisabledStates_buttons s :
  backwardEnabled (Main.updateButtonDisabledStates s) = (0 <? Main.openWaypointContentIndex s)%Z /\
  forwardEnabled (Main.updateButtonDisabledStates s) =
    (Main.openWaypointContentIndex s <? Main.lastMarkerIndex s)%Z.
Proof.
  unfold backwardEnabled, forwardEnabled, Main.updateButtonDisabledStates, Button.isDisabled. cbn.
  destruct (0 <? _)%Z, (_ <? Main.lastMarkerIndex s)%Z; cbn; rewrite ?Button_enable_disabled; auto.
Qed.

Lemma Main_eta s : Session.withLeaflet (fun _ => leafletOf s) s = s.
Proof. destruct s as [? ? ? [[? ? ? ?] ?] ?]. reflexivity. Qed.

Section MainFacts.
Variable rt : Runtime.
Variable projection : Leaflet.Projection.

Lemma Map_centerOnWaypoint_returns waypoint contentOpen m :
  exists lm,
    Map.centerOnWaypoint rt projection waypoint contentOpen m =
      Returned (Map.withGeoMap (GeoMap.withMap lm (Map.geoMap m)) m) /\
    sameFrame lm (GeoMap.map (Map.geoMap m)).
Proof.
  unfold Map.centerOnWaypoint.
  destruct (waypoint ≫= _) as [w|].
  - match goal with |- context [GeoMap.centerOnWaypoint _ _ ?id ?o ?g] =>
      destruct (GeoMap_centerOnWaypoint_returns rt projection id o g) as (lm & -> & Hf)
    end.
    exists lm. split; [reflexivity|assumption].
  - exists (GeoMap.map (Map.geoMap m)). rewrite GeoMap_withMap_id.
    split; [now destruct m|apply sameFrame_refl].
Qed.

Lemma Main_onMarkerFocus_returns waypoint s :
  exists lm,
    Main.onMarkerFocus rt projection waypoint s = Returned (Session.withLeaflet (fun _ => lm) s) /\
    sameFrame lm (leafletOf s).
Proof.
  unfold Main.onMarkerFocus.
  match goal with |- context [Map.centerOnWaypoint _ _ ?w ?c ?m] =>
    destruct (Map_centerOnWaypoint_returns w c m) as (lm & -> & Hf)
  end.
  exists lm. split; [reflexivity|assumption].
Qed.

Lemma Main_openWaypointContent_missing ref options s :
  waypointsOf s !! ref = None ->
  Main.openWaypointContent rt projection (Some ref) options s = Returned s.
Proof.
  intros Hw. unfold Main.openWaypointContent, Map.openWaypointContent.
  unfold waypointsOf in Hw. now rewrite Hw.
Qed.

Lemma Main_openWaypointContent_open ref wp options s :
  waypointsOf s !! ref = Some wp -> Waypoint.isOpen wp = true ->
  Main.openWaypointContent rt projection (Some ref) options s = Returned s.
Proof.
  intros Hw Ho. unfold Main.openWaypointContent, Map.openWaypointContent.
  unfold waypointsOf in Hw. now rewrite Hw, Ho.
Qed.

Lemma Main_openWaypointContent_closed ref wp options s :
  waypointsOf s !! ref = Some wp -> Waypoint.isOpen wp = false ->
  exists h lm,
    Main.openWaypointContent rt projection (Some ref) options s =
      Returned (Session.withLeaflet (fun _ => lm) h) /\
    openedFrom ref wp s h /\
    sameFrame lm (leafletOf s) /\
    (panTo options = Some false -> lm = leafletOf s).
Proof.
  intros Hw Ho. unfold Main.openWaypointContent, Map.openWaypointContent.
  unfold waypointsOf in Hw. rewrite Hw, Ho. unfold Main.handleWaypointContentOpened.
  cbn [mbind outcome_bind mret outcome_ret].
  match goal with |- context [Main.read ?t (Main.updateButtonDisabledStates ?x)] =>
    pose proof (updateButtonDisabledStates_buttons x) as [Hb Hf];
    set (h := Main.read t (Main.updateButtonDisabledStates x))
  end.
  assert (Hh : openedFrom ref wp s h).
  { unfold openedFrom. repeat split; try reflexivity; [exact Hb|exact Hf]. }
  clear Hb Hf.
  destruct (panTo options) as [[|]|] eqn:Hp.
  - destruct (Main_onMarkerFocus_returns ref h) as (lm & -> & Hf).
    exists h, lm. repeat split; try apply Hh; try apply Hf; discriminate.
  - exists h, (leafletOf h). rewrite Main_eta. repeat split; try apply Hh; reflexivity.
  - destruct (Main_onMarkerFocus_returns ref h) as (lm & -> & Hf).
    exists h, lm. repeat split; try apply Hh; try apply Hf; discriminate.
Qed.

(** *** Finding a waypoint by its index *)

Lemma getWaypointByIndex_Some index m ref :
  Map.getWaypointByIndex index m = Some ref ->
  exists n wp,
    index = VNum n /\ GeoMap.waypoints (Map.geoMap m) !! ref = Some wp /\
    eqb (ofZ (Waypoint.getIndex wp)) n = true.
Proof.
  unfold Map.getWaypointByIndex, GeoMap.getWaypointByIndex.
  destruct index as [| | |n| |]; try discriminate.
  destruct (lt n (ofZ 0) || ge n _); [discriminate|].
  destruct (list_find _ _) as [[i w]|] eqn:Hf; [|discriminate].
  cbn. intros [= <-]. apply list_find_Some in Hf as (Hl & Hp & _). eauto.
Qed.

Lemma getWaypointByIndex_not_number index m :
  isNumber index = false -> Map.getWaypointByIndex index m = None.
Proof. now destruct index. Qed.

Lemma getWaypointByIndex_outside n m :
  lt n (ofZ 0) = true \/
  ge n (ofZ (Z.of_nat (length (GeoMap.waypoints (Map.geoMap m))))) = true ->
  Map.getWaypointByIndex (VNum n) m = None.
Proof.
  unfold Map.getWaypointByIndex, GeoMap.getWaypointByIndex.
  intros [-> | ->]; [reflexivity|]. now rewrite orb_true_r.
Qed.

Lemma getWaypointByIndex_position s z wp :
  wellFormed s -> waypointsOf s !! Z.to_nat z = Some wp -> (0 <= z)%Z ->
  Map.getWaypointByIndex (VNum (ofZ z)) (Main.map s) = Some (Z.to_nat z).
Proof.
  intros [Hlast Hidx] Hw Hz.
  unfold Map.getWaypointByIndex, GeoMap.getWaypointByIndex. fold (waypointsOf s).
  rewrite lt_ofZ, ge_ofZ.
  pose proof (lookup_lt_Some _ _ _ Hw) as Hlen.
  destruct (Z.ltb_spec z 0); [lia|]. destruct (Z.leb_spec (Z.of_nat (length (waypointsOf s))) z); [lia|].
  cbn [orb].
  assert (Hf : list_find (fun w => eqb (ofZ (Waypoint.getIndex w)) (ofZ z) = true) (waypointsOf s)
               = Some (Z.to_nat z, wp)).
  { apply list_find_Some. split; [assumption|]. split.
    - rewrite eqb_ofZ, (Hidx _ _ Hw). apply Z.eqb_eq. lia.
    - intros j y Hj Hlt. rewrite eqb_ofZ, (Hidx _ _ Hj). intros He%Z.eqb_eq. lia. }
  now rewrite Hf.
Qed.

(** *** What the operations do to the waypoints *)

Lemma reopened_same ws : reopened ws ws.
Proof. now left. Qed.

Lemma Main_openWaypointContent_effect waypoint options s :
  exists s',
    Main.openWaypointContent rt projection waypoint options s = Returned s' /\
    Main.lastMarkerIndex s' = Main.lastMarkerIndex s /\
    reopened (waypointsOf s) (waypointsOf s').
Proof.
  destruct waypoint as [ref|]; [|exists s; repeat split; apply reopened_same].
  destruct (waypointsOf s !! ref) as [wp|] eqn:Hw.
  - destruct (Waypoint.isOpen wp) eqn:Ho.
    + exists s. rewrite (Main_openWaypointContent_open _ _ _ _ Hw Ho).
      repeat split. apply reopened_same.
    + destruct (Main_openWaypointContent_closed _ _ options _ Hw Ho)
        as (h & lm & -> & Hh & _ & _).
      eexists. split; [reflexivity|]. destruct Hh as (Hws & _ & _ & Hl & _).
      split; [exact Hl|]. right; left. exists ref. exact Hws.
  - exists s. rewrite (Main_openWaypointContent_missing _ _ _ Hw).
    repeat split. apply reopened_same.
Qed.

Lemma Main_openWaypointContentByIndex_effect index options s :
  exists s',
    Main.openWaypointContentByIndex rt projection index options s = Returned s' /\
    Main.lastMarkerIndex s' = Main.lastMarkerIndex s /\
    reopened (waypointsOf s) (waypointsOf s').
Proof.
  unfold Main.openWaypointContentByIndex, Map.openWaypointContentByIndex.
  destruct (Map.getWaypointByIndex index (Main.map s)) as [ref|].
  - exact (Main_openWaypointContent_effect (Some ref) options s).
  - exists s. repeat split. apply reopened_same.
Qed.

Lemma Main_reset_returns s :
  exists s',
    Main.reset rt projection s = Returned s' /\
    Main.openWaypointContentIndex s' = (-1)%Z /\
    Main.lastMarkerIndex s' = Main.lastMarkerIndex s /\
    waypointsOf s' = (Waypoint.setOpen false <$> waypointsOf s) /\
    backwardEnabled s' = false /\
    forwardEnabled s' = (-1 <? Main.lastMarkerIndex s)%Z /\
    miniMapShown s' = miniMapShown s /\
    miniMapButtonActive s' = miniMapButtonActive s /\
    sameFrame (leafletOf s') (leafletOf s).
Proof.
  unfold Main.reset, Map.reset.
  match goal with |- context [GeoMap.reset _ _ ?g] =>
    destruct (GeoMap_reset_returns rt projection g) as (lm & -> & Hf)
  end.
  cbn [mbind outcome_bind mret outcome_ret].
  eexists. split; [reflexivity|].
  destruct (updateButtonDisabledStates_buttons (Main.withOpenWaypointContentIndex (-1) s))
    as [Hb Hfw].
  destruct Hf as (Hf1 & Hf2 & Hf3 & Hf4).
  repeat split; try reflexivity; try assumption.
Qed.

Lemma Map_setCurrentState_returns state m :
  exists lm,
    Map.setCurrentState rt state m =
      Returned (Map.withGeoMap (GeoMap.withMap lm (Map.geoMap m)) m) /\
    sameFrame lm (GeoMap.map (Map.geoMap m)).
Proof.
  assert (Hid : exists lm,
             Returned m = Returned (Map.withGeoMap (GeoMap.withMap lm (Map.geoMap m)) m) /\
             sameFrame lm (GeoMap.map (Map.geoMap m))).
  { exists (GeoMap.map (Map.geoMap m)). rewrite GeoMap_withMap_id.
    split; [now destruct m|apply sameFrame_refl]. }
  unfold Map.setCurrentState.
  destruct (state ≫= stateCoordinates) as [coordinates|]; [|exact Hid].
  destruct (strictEq _ _ || strictEq _ _); [exact Hid|].
  rewrite GeoMap_setView_returns. cbn [mbind outcome_bind mret outcome_ret].
  eexists. split; [reflexivity|apply sameFrame_withView].
Qed.

Lemma Main_setCurrentState_effect state s :
  exists s',
    Main.setCurrentState rt projection state s = Returned s' /\
    Main.lastMarkerIndex s' = Main.lastMarkerIndex s /\
    reopened (waypointsOf s) (waypointsOf s').
Proof.
  unfold Main.setCurrentState.
  destruct (NavigationBar.setCurrentState _ _) as [n called].
  match goal with |- context [Map.setCurrentState _ ?st ?m] =>
    destruct (Map_setCurrentState_returns st m) as (lm & -> & _)
  end.
  cbn [mbind outcome_bind mret outcome_ret].
  match goal with |- context [Main.openWaypointContentByIndex _ _ ?i ?o ?x] =>
    destruct (Main_openWaypointContentByIndex_effect i o x) as (s' & -> & Hl & Hr)
  end.
  exists s'. split; [reflexivity|]. split.
  - rewrite Hl. now destruct called.
  - match type of Hr with reopened ?ws _ =>
      replace (waypointsOf s) with ws by (now destruct called)
    end.
    exact Hr.
Qed.

(** *** Construction *)

Lemma sanitizeNumber_number_default value defaultValue min max :
  exists n, Util.sanitizeNumber rt value (VNum defaultValue) min max = Returned (VNum n).
Proof.
  destruct (validNumber rt value) as [r|] eqn:Hv.
  - rewrite (sanitizeNumber_valid _ _ _ _ _ _ Hv).
    destruct (clamp_is_number r min max) as [n ->]. eauto.
  - rewrite (sanitizeNumber_invalid _ _ _ _ _ Hv). cbn. eauto.
Qed.

Lemma Leaflet_addTileLayer_frame layerMaxZoom m :
  Leaflet.center (Leaflet.addTileLayer layerMaxZoom m) = Leaflet.center m /\
  Leaflet.width (Leaflet.addTileLayer layerMaxZoom m) = Leaflet.width m /\
  Leaflet.height (Leaflet.addTileLayer layerMaxZoom m) = Leaflet.height m.
Proof.
  unfold Leaflet.addTileLayer. cbn [Leaflet.zoom].
  destruct (truthy (VNum layerMaxZoom) && gt (Leaflet.zoom m) layerMaxZoom); now repeat split.
Qed.

Lemma GeoMap_setMapStyle_fresh mapStyle g :
  GeoMap.miniMapVisible g = None -> GeoMap.inherited mapStyle = false ->
  exists m v,
    GeoMap.setMapStyle mapStyle g =
      Returned (GeoMap.withMiniMapVisible v (GeoMap.withMap m g)) /\
    default false v = false /\
    Leaflet.center m = Leaflet.center (GeoMap.map g) /\
    Leaflet.width m = Leaflet.width (GeoMap.map g) /\
    Leaflet.height m = Leaflet.height (GeoMap.map g).
Proof.
  intros Hv Hi. unfold GeoMap.setMapStyle. destruct (GeoMap.mapService mapStyle) as [options|].
  - cbn [GeoMap.miniMapVisible GeoMap.withMap]. rewrite Hv.
    exists (Leaflet.addTileLayer (default Leaflet.TILE_LAYER_MAX_ZOOM options) (GeoMap.map g)),
           (Some false).
    split; [reflexivity|]. split; [reflexivity|]. apply Leaflet_addTileLayer_frame.
  - rewrite Hi. exists (GeoMap.map g), None. split; [|now repeat split].
    destruct g. cbn in *. now subst.
Qed.

Lemma GeoMap_setMapStyle_inherited mapStyle g :
  GeoMap.inherited mapStyle = true ->
  exists msg, GeoMap.setMapStyle mapStyle g = Thrown msg.
Proof.
  intros Hi. unfold GeoMap.setMapStyle.
  assert (Hnone : GeoMap.mapService mapStyle = None).
  { unfold GeoMap.inherited, GeoMap.OBJECT_PROTOTYPE in Hi. cbn [existsb] in Hi.
    repeat (apply orb_true_iff in Hi as [Hi|Hi];
            [apply String.eqb_eq in Hi; subst mapStyle; reflexivity|]).
    discriminate. }
  rewrite Hnone, Hi. eauto.
Qed.

Lemma GeoMap_addWaypoints_returns unnamedWaypoint waypoints : forall index g,
  GeoMap.addWaypoints unnamedWaypoint waypoints index g =
    if forallb validMarker waypoints
    then Returned
           (GeoMap.withWaypoints
              (GeoMap.waypoints g ++
                 imap (fun position waypointParams =>
                         Waypoint.construct unnamedWaypoint (Z.of_nat (index + position))
                           waypointParams) waypoints) g)
    else Thrown "Invalid LatLng object".
Proof.
  induction waypoints as [|w rest IH]; intros index g; cbn [GeoMap.addWaypoints forallb].
  - cbn [imap]. rewrite app_nil_r. now destruct g.
  - unfold GeoMap.addWaypoint, Leaflet.marker, Leaflet.toLatLng, validMarker at 1.
    destruct (isNaN (wpLatitude w) || isNaN (wpLongitude w));
      cbn [negb andb mbind outcome_bind mret outcome_ret]; [reflexivity|].
    rewrite IH. destruct (forallb validMarker rest); [|reflexivity].
    unfold GeoMap.withWaypoints.
    cbn [GeoMap.waypoints GeoMap.zoomLevel GeoMap.map GeoMap.miniMapVisible imap].
    rewrite <- app_assoc. cbn [app]. rewrite Nat.add_0_r.
    replace (imap (fun position waypointParams =>
                     Waypoint.construct unnamedWaypoint (Z.of_nat (S index + position))
                       waypointParams) rest)
      with (imap ((fun position waypointParams =>
                     Waypoint.construct unnamedWaypoint (Z.of_nat (index + position))
                       waypointParams) ∘ S) rest); [reflexivity|].
    apply imap_ext. intros position x _. cbn. now rewrite Nat.add_succ_r.
Qed.

Lemma Main_construct_returns params :
  constructible params = true ->
  exists s,
    Main.construct rt params = Returned s /\
    Main.openWaypointContentIndex s = (-1)%Z /\
    Main.lastMarkerIndex s = (Z.of_nat (length (Main.paramWaypoints params)) - 1)%Z /\
    waypointsOf s =
      imap (fun index waypointParams =>
              Waypoint.construct (Main.paramUnnamedWaypoint params) (Z.of_nat index) waypointParams)
           (Main.paramWaypoints params) /\
    miniMapShown s = false /\
    miniMapButtonActive s = false /\
    backwardEnabled s = false /\
    forwardEnabled s = (-1 <? Main.lastMarkerIndex s)%Z /\
    Main.openedContent s = Main.paramOpenedContent params /\
    NavigationBar.minimap (Main.navigationBar s) =
      (if Main.paramUserCanUseMiniMap params
       then Some {| Button.type := Button.Toggle; Button.active := false;
                    Button.disabled := false |}
       else None).
Proof.
  intros Hok. apply andb_true_iff in Hok as [Hstyle Hmarkers].
  apply negb_true_iff in Hstyle.
  unfold Main.construct, Map.construct, GeoMap.construct. cbn [GeoMap.paramZoomLevel
    GeoMap.paramCoordinates GeoMap.paramWaypoints GeoMap.paramUnnamedWaypoint
    Map.paramWaypoints Map.paramZoomLevelDefault Map.paramMapStyle Map.paramPreviousState
    Map.paramUnnamedWaypoint].
  match goal with |- context [Util.sanitizeNumber rt ?v (VNum ?d) VUndefined VUndefined] =>
    destruct (sanitizeNumber_number_default v d VUndefined VUndefined) as [z ->]
  end.
  cbn [mbind outcome_bind mret outcome_ret].
  rewrite !sanitizeNumber_numbers. cbn [mbind outcome_bind mret outcome_ret].
  rewrite GeoMap_setView_returns. cbn [mbind outcome_bind mret outcome_ret].
  rewrite GeoMap_addWaypoints_returns, Hmarkers. cbn [mbind outcome_bind mret outcome_ret].
  match goal with |- context [GeoMap.setMapStyle ?st ?g] =>
    destruct (GeoMap_setMapStyle_fresh st g eq_refl Hstyle) as (m & v & -> & Hv & _)
  end.
  cbn [mbind outcome_bind mret outcome_ret].
  eexists. split; [reflexivity|].
  match goal with |- context [Main.updateButtonDisabledStates ?x] =>
    destruct (updateButtonDisabledStates_buttons x) as [Hb Hf]
  end.
  repeat split; try reflexivity; try assumption.
  unfold miniMapButtonActive. cbn. now destruct (Main.paramUserCanUseMiniMap params).
Qed.

(** The constructor returns for the parameters it accepts, and for no
    others. *)
Lemma Main_construct_constructible params s :
  Main.construct rt params = Returned s -> constructible params = true.
Proof.
  unfold constructible, Main.construct, Map.construct, GeoMap.construct. cbn [GeoMap.paramZoomLevel
    GeoMap.paramCoordinates GeoMap.paramWaypoints GeoMap.paramUnnamedWaypoint
    Map.paramWaypoints Map.paramZoomLevelDefault Map.paramMapStyle Map.paramPreviousState
    Map.paramUnnamedWaypoint].
  match goal with |- context [Util.sanitizeNumber rt ?v (VNum ?d) VUndefined VUndefined] =>
    destruct (sanitizeNumber_number_default v d VUndefined VUndefined) as [z ->]
  end.
  cbn [mbind outcome_bind mret outcome_ret].
  rewrite !sanitizeNumber_numbers. cbn [mbind outcome_bind mret outcome_ret].
  rewrite GeoMap_setView_returns. cbn [mbind outcome_bind mret outcome_ret].
  rewrite GeoMap_addWaypoints_returns.
  destruct (forallb validMarker (Main.paramWaypoints params)); [|discriminate].
  cbn [mbind outcome_bind mret outcome_ret].
  destruct (GeoMap.inherited (Main.paramMapStyle params)) eqn:Hi; [|reflexivity].
  match goal with |- context [GeoMap.setMapStyle ?st ?g] =>
    destruct (GeoMap_setMapStyle_inherited st g Hi) as [msg ->]
  end.
  discriminate.
Qed.

End MainFacts.

(** ** Invariants of a session *)

Lemma lookup_onlyOpen ref ws i :
  onlyOpen ref ws !! i = Waypoint.setOpen (Nat.eqb i ref) <$> ws !! i.
Proof. unfold onlyOpen. now rewrite list_lookup_imap. Qed.

Lemma atMostOneOpen_onlyOpen ref ws : atMostOneOpen (onlyOpen ref ws).
Proof.
  intros i j wi wj Hi Hj Hoi Hoj. rewrite lookup_onlyOpen in Hi, Hj.
  destruct (ws !! i) as [a|]; [|discriminate]. destruct (ws !! j) as [b|]; [|discriminate].
  cbn in Hi, Hj. injection Hi as <-. injection Hj as <-. cbn in Hoi, Hoj.
  apply Nat.eqb_eq in Hoi, Hoj. congruence.
Qed.

Lemma atMostOneOpen_closed ws :
  (forall i w, ws !! i = Some w -> Waypoint.isOpen w = false) -> atMostOneOpen ws.
Proof. intros Hc i j wi wj Hi _ Hoi _. rewrite (Hc _ _ Hi) in Hoi. discriminate. Qed.

Lemma atMostOneOpen_reopened ws ws' :
  reopened ws ws' -> atMostOneOpen ws -> atMostOneOpen ws'.
Proof.
  intros [-> | [[ref ->] | ->]] Ha; [assumption|apply atMostOneOpen_onlyOpen|].
  apply atMostOneOpen_closed. intros i w Hw. rewrite list_lookup_fmap in Hw.
  destruct (ws !! i); [|discriminate]. cbn in Hw. now injection Hw as <-.
Qed.

Lemma reopened_lookup ws ws' i w' :
  reopened ws ws' -> ws' !! i = Some w' ->
  exists w, ws !! i = Some w /\ Waypoint.getIndex w' = Waypoint.getIndex w.
Proof.
  intros [-> | [[ref ->] | ->]] Hw; [eauto| |].
  - rewrite lookup_onlyOpen in Hw. destruct (ws !! i) as [w|]; [|discriminate].
    cbn in Hw. injection Hw as <-. eauto.
  - rewrite list_lookup_fmap in Hw. destruct (ws !! i) as [w|]; [|discriminate].
    cbn in Hw. injection Hw as <-. eauto.
Qed.

Lemma reopened_length ws ws' : reopened ws ws' -> length ws' = length ws.
Proof.
  intros [-> | [[ref ->] | ->]]; [reflexivity|apply length_imap|apply length_fmap].
Qed.

Lemma wellFormed_reopened s s' :
  Main.lastMarkerIndex s' = Main.lastMarkerIndex s ->
  reopened (waypointsOf s) (waypointsOf s') -> wellFormed s -> wellFormed s'.
Proof.
  intros Hl Hr [Hlast Hidx]. split.
  - now rewrite Hl, (reopened_length _ _ Hr).
  - intros i w' Hw'. destruct (reopened_lookup _ _ _ _ Hr Hw') as (w & Hw & ->). eauto.
Qed.

Section SessionFacts.
Variable rt : Runtime.
Variable projection : Leaflet.Projection.

Lemma step_effect a s :
  exists s',
    Session.step rt projection a s = Returned s' /\
    Main.lastMarkerIndex s' = Main.lastMarkerIndex s /\
    reopened (waypointsOf s) (waypointsOf s').
Proof.
  destruct a; cbn [Session.step].
  - apply Main_openWaypointContentByIndex_effect.
  - apply Main_openWaypointContent_effect.
  - apply Main_openWaypointContent_effect.
  - destruct (Main_onMarkerFocus_returns rt projection waypoint s) as (lm & -> & _).
    eexists. split; [reflexivity|]. split; [reflexivity|apply reopened_same].
  - apply Main_openWaypointContentByIndex_effect.
  - apply Main_openWaypointContentByIndex_effect.
  - destruct (Main_reset_returns rt projection s) as (s' & -> & _ & Hl & Hw & _).
    exists s'. split; [reflexivity|]. split; [assumption|]. right; right. assumption.
  - eexists. split; [reflexivity|]. unfold Main.clickButtonMiniMap.
    destruct (NavigationBar.clickMiniMap _) as [n called].
    destruct called; split; try reflexivity; apply reopened_same.
  - apply Main_setCurrentState_effect.
  - eexists. split; [reflexivity|]. split; [reflexivity|apply reopened_same].
  - eexists. split; [reflexivity|]. split; [reflexivity|apply reopened_same].
Qed.

Lemma run_invariants actions s :
  wellFormed s -> atMostOneOpen (waypointsOf s) ->
  exists s',
    Session.run rt projection actions s = Returned s' /\
    wellFormed s' /\ atMostOneOpen (waypointsOf s').
Proof.
  revert s. induction actions as [|a actions IH]; intros s Hw Ho; cbn [Session.run].
  - exists s. split; [reflexivity|]. now split.
  - destruct (step_effect a s) as (s1 & -> & Hl & Hr).
    cbn [mbind outcome_bind]. apply IH.
    + eapply wellFormed_reopened; eassumption.
    + eapply atMostOneOpen_reopened; eassumption.
Qed.

Lemma StoryMap_construct_constructible params s :
  StoryMap.construct rt projection params = Returned s -> constructible params = true.
Proof.
  unfold StoryMap.construct. intros Hc.
  destruct (Main.construct rt params) as [s0|msg] eqn:Hm; [|discriminate].
  exact (Main_construct_constructible rt params s0 Hm).
Qed.

Lemma StoryMap_construct_invariants params :
  constructible params = true ->
  exists s,
    StoryMap.construct rt projection params = Returned s /\
    wellFormed s /\ atMostOneOpen (waypointsOf s).
Proof.
  intros Hok. unfold StoryMap.construct.
  destruct (Main_construct_returns rt params Hok) as (s0 & -> & _ & Hl & Hw & _).
  cbn [mbind outcome_bind].
  destruct (Main_setCurrentState_effect rt projection (Main.paramPreviousState params) s0)
    as (s & -> & Hl' & Hr).
  assert (Hwf : wellFormed s0).
  { split.
    - now rewrite Hl, Hw, length_imap.
    - intros i w Hi. rewrite Hw, list_lookup_imap in Hi.
      destruct (Main.paramWaypoints params !! i); [|discriminate].
      cbn in Hi. now injection Hi as <-. }
  exists s. split; [reflexivity|]. split.
  - eapply wellFormed_reopened; eassumption.
  - eapply atMostOneOpen_reopened; [eassumption|].
    apply atMostOneOpen_closed. intros i w Hi. rewrite Hw, list_lookup_imap in Hi.
    destruct (Main.paramWaypoints params !! i); [|discriminate].
    cbn in Hi. now injection Hi as <-.
Qed.

Lemma reachable_invariants params s :
  reachable rt projection params s -> wellFormed s /\ atMostOneOpen (waypointsOf s).
Proof.
  intros (s0 & actions & Hc & Hr).
  destruct (StoryMap_construct_invariants params (StoryMap_construct_constructible _ _ Hc))
    as (s0' & Hc' & Hw & Ho).
  rewrite Hc in Hc'. injection Hc' as <-.
  destruct (run_invariants actions s0 Hw Ho) as (s' & Hr' & Hw' & Ho').
  rewrite Hr in Hr'. injection Hr' as <-. now split.
Qed.

End SessionFacts.

(** ** Navigation *)

Lemma eqb_sym a b : eqb a b = eqb b a.
Proof.
  destruct a as [| |x|], b as [| |y|]; try reflexivity. cbn.
  destruct (Qeq_bool x y) eqn:Hxy, (Qeq_bool y x) eqn:Hyx; try reflexivity.
  - apply Qeq_bool_iff in Hxy. symmetry in Hxy. apply Qeq_bool_iff in Hxy. congruence.
  - apply Qeq_bool_iff in Hyx. symmetry in Hyx. apply Qeq_bool_iff in Hyx. congruence.
Qed.

Lemma lt_gt_of_eqb n z a :
  eqb n (ofZ z) = true ->
  lt n (ofZ a) = (z <? a)%Z /\ gt n (ofZ a) = (a <? z)%Z.
Proof.
  destruct n as [| |q|]; try discriminate. intros He.
  change (Qeq_bool q (inject_Z z) = true) in He. apply Qeq_bool_iff in He.
  rewrite <- !lt_ofZ. unfold gt, lt, ofZ. split; f_equal.
  - destruct (Qle_bool (inject_Z a) q) eqn:H1, (Qle_bool (inject_Z a) (inject_Z z)) eqn:H2;
      try reflexivity.
    + apply Qle_bool_iff in H1. rewrite He in H1. apply Qle_bool_iff in H1. congruence.
    + apply Qle_bool_iff in H2. rewrite <- He in H2. apply Qle_bool_iff in H2. congruence.
  - destruct (Qle_bool q (inject_Z a)) eqn:H1, (Qle_bool (inject_Z z) (inject_Z a)) eqn:H2;
      try reflexivity.
    + apply Qle_bool_iff in H1. rewrite He in H1. apply Qle_bool_iff in H1. congruence.
    + apply Qle_bool_iff in H2. rewrite <- He in H2. apply Qle_bool_iff in H2. congruence.
Qed.

Section Navigation.
Variable rt : Runtime.
Variable projection : Leaflet.Projection.

Lemma openWaypointContentByIndex_none index options s :
  Map.getWaypointByIndex index (Main.map s) = None ->
  Main.openWaypointContentByIndex rt projection index options s = Returned s.
Proof.
  intros Hn. unfold Main.openWaypointContentByIndex, Map.openWaypointContentByIndex.
  now rewrite Hn.
Qed.

Lemma openWaypointContentByIndex_some index options s ref :
  Map.getWaypointByIndex index (Main.map s) = Some ref ->
  Main.openWaypointContentByIndex rt projection index options s =
    Main.openWaypointContent rt projection (Some ref) options s.
Proof.
  intros Hn. unfold Main.openWaypointContentByIndex, Map.openWaypointContentByIndex.
  now rewrite Hn.
Qed.

Lemma getWaypointByIndex_valid s index ref :
  wellFormed s -> Map.getWaypointByIndex index (Main.map s) = Some ref ->
  (0 <= Z.of_nat ref <= Main.lastMarkerIndex s)%Z /\
  strictEq index (VNum (ofZ (Z.of_nat ref))) = true.
Proof.
  intros [Hlast Hidx] Hf.
  destruct (getWaypointByIndex_Some _ _ _ Hf) as (n & wp & -> & Hw & He).
  fold (waypointsOf s) in Hw. rewrite (Hidx _ _ Hw) in He.
  pose proof (lookup_lt_Some _ _ _ Hw). split; [lia|].
  cbn. now rewrite eqb_sym.
Qed.

(** C4.  In a state the story map can be in, [openWaypointContentByIndex]
    returns without an error and leaves the state as it is when the index
    is not a number, when it is a number below 0 or above the last index,
    when it is none of the indices 0 to the last one in any other way, and
    when the waypoint it names is open already; so do [goBackward] with
    the first waypoint open and [goForward] with the last one open. *)
Theorem openWaypointContentByIndex_ignored params s :
  reachable rt projection params s ->
  (forall index options,
     isNumber index = false ->
     Main.openWaypointContentByIndex rt projection index options s = Returned s) /\
  (forall n options,
     lt n (ofZ 0) = true \/ gt n (ofZ (Main.lastMarkerIndex s)) = true ->
     Main.openWaypointContentByIndex rt projection (VNum n) options s = Returned s) /\
  (forall index options,
     (forall z, (0 <= z <= Main.lastMarkerIndex s)%Z ->
                strictEq index (VNum (ofZ z)) = false) ->
     Main.openWaypointContentByIndex rt projection index options s = Returned s) /\
  (forall index options ref wp,
     Map.getWaypointByIndex index (Main.map s) = Some ref ->
     waypointsOf s !! ref = Some wp -> Waypoint.isOpen wp = true ->
     Main.openWaypointContentByIndex rt projection index options s = Returned s) /\
  (Main.openWaypointContentIndex s = 0%Z ->
   Main.goBackward rt projection s = Returned s) /\
  (Main.openWaypointContentIndex s = Main.lastMarkerIndex s ->
   Main.goForward rt projection s = Returned s).
Proof.
  intros Hr. destruct (reachable_invariants _ _ _ _ Hr) as [Hwf _].
  assert (Hnone : forall index options,
             (forall z, (0 <= z <= Main.lastMarkerIndex s)%Z ->
                        strictEq index (VNum (ofZ z)) = false) ->
             Main.openWaypointContentByIndex rt projection index options s = Returned s).
  { intros index options Hno. apply openWaypointContentByIndex_none.
    destruct (Map.getWaypointByIndex index (Main.map s)) as [ref|] eqn:Hf; [|reflexivity].
    destruct (getWaypointByIndex_valid _ _ _ Hwf Hf) as [Hrange He].
    rewrite (Hno _ Hrange) in He. discriminate. }
  assert (Hout : forall n options,
             lt n (ofZ 0) = true \/ gt n (ofZ (Main.lastMarkerIndex s)) = true ->
             Main.openWaypointContentByIndex rt projection (VNum n) options s = Returned s).
  { intros n options Hn. apply Hnone. intros z Hz.
    change (eqb n (ofZ z) = false). destruct (eqb n (ofZ z)) eqn:He; [|reflexivity].
    destruct (lt_gt_of_eqb n z 0 He) as [Hlt _].
    destruct (lt_gt_of_eqb n z (Main.lastMarkerIndex s) He) as [_ Hgt].
    rewrite Hlt, Hgt in Hn. destruct Hn as [Hn|Hn]; apply Z.ltb_lt in Hn; lia. }
  split; [|split; [|split; [|split; [|split]]]].
  - intros index options Hn. apply openWaypointContentByIndex_none.
    now apply getWaypointByIndex_not_number.
  - exact Hout.
  - exact Hnone.
  - intros index options ref wp Hf Hw Ho.
    rewrite (openWaypointContentByIndex_some _ _ _ _ Hf).
    eapply Main_openWaypointContent_open; eassumption.
  - intros H0. unfold Main.goBackward. apply Hout. left. rewrite lt_ofZ. apply Z.ltb_lt. lia.
  - intros Hl. unfold Main.goForward. apply Hout. right. unfold gt. rewrite lt_ofZ.
    apply Z.ltb_lt. lia.
Qed.

(** C1.  A story map is constructed from parameters whose map style is
    no inherited name and whose waypoints have no NaN for a coordinate.
    Whatever is done to it after its construction, no two of its waypoints
    are open; and opening a waypoint that is closed, by reference or by
    index, leaves that waypoint open and all others closed. *)
Theorem at_most_one_waypoint_open params actions :
  constructible params = true ->
  exists s0 s,
    StoryMap.construct rt projection params = Returned s0 /\
    Session.run rt projection actions s0 = Returned s /\
    atMostOneOpen (waypointsOf s) /\
    (forall ref wp options,
       waypointsOf s !! ref = Some wp -> Waypoint.isOpen wp = false ->
       exists s',
         Main.openWaypointContent rt projection (Some ref) options s = Returned s' /\
         length (waypointsOf s') = length (waypointsOf s) /\
         forall i w, waypointsOf s' !! i = Some w -> Waypoint.isOpen w = Nat.eqb i ref) /\
    (forall index ref wp options,
       Map.getWaypointByIndex index (Main.map s) = Some ref ->
       waypointsOf s !! ref = Some wp -> Waypoint.isOpen wp = false ->
       exists s',
         Main.openWaypointContentByIndex rt projection index options s = Returned s' /\
         length (waypointsOf s') = length (waypointsOf s) /\
         forall i w, waypointsOf s' !! i = Some w -> Waypoint.isOpen w = Nat.eqb i ref).
Proof.
  intros Hok.
  destruct (StoryMap_construct_invariants rt projection params Hok) as (s0 & Hc & Hw0 & Ho0).
  destruct (run_invariants rt projection actions s0 Hw0 Ho0) as (s & Hr & Hw & Ho).
  exists s0, s. split; [assumption|]. split; [assumption|]. split; [assumption|].
  assert (Hopen : forall ref wp options,
             waypointsOf s !! ref = Some wp -> Waypoint.isOpen wp = false ->
             exists s',
               Main.openWaypointContent rt projection (Some ref) options s = Returned s' /\
               length (waypointsOf s') = length (waypointsOf s) /\
               forall i w, waypointsOf s' !! i = Some w -> Waypoint.isOpen w = Nat.eqb i ref).
  { intros ref wp options Hwp Hcl.
    destruct (Main_openWaypointContent_closed rt projection _ _ options _ Hwp Hcl)
      as (h & lm & -> & Hh & _ & _).
    eexists. split; [reflexivity|]. destruct Hh as (Hws & _).
    change (waypointsOf (Session.withLeaflet (fun _ => lm) h)) with (waypointsOf h).
    rewrite Hws. split; [apply length_imap|].
    intros i w Hi. rewrite lookup_onlyOpen in Hi.
    destruct (waypointsOf s !! i); [|discriminate]. cbn in Hi. now injection Hi as <-. }
  split; [exact Hopen|].
  intros index ref wp options Hf Hwp Hcl.
  rewrite (openWaypointContentByIndex_some _ _ _ _ Hf). eauto.
Qed.

Lemma openWaypointContentByIndex_valid s z wp options :
  wellFormed s -> (0 <= z)%Z ->
  waypointsOf s !! Z.to_nat z = Some wp -> Waypoint.isOpen wp = false ->
  exists s',
    Main.openWaypointContentByIndex rt projection (VNum (ofZ z)) options s = Returned s' /\
    Main.openWaypointContentIndex s' = z /\
    Main.lastMarkerIndex s' = Main.lastMarkerIndex s /\
    waypointsOf s' = onlyOpen (Z.to_nat z) (waypointsOf s) /\
    backwardEnabled s' = (0 <? z)%Z /\
    forwardEnabled s' = (z <? Main.lastMarkerIndex s)%Z /\
    wellFormed s'.
Proof.
  intros Hwf Hz Hw Hc.
  rewrite (openWaypointContentByIndex_some _ _ _ _ (getWaypointByIndex_position _ _ _ Hwf Hw Hz)).
  destruct (Main_openWaypointContent_closed rt projection _ _ options _ Hw Hc)
    as (h & lm & -> & Hh & _ & _).
  destruct Hh as (Hws & _ & Hi & Hl & _ & _ & Hb & Hf).
  assert (Hidx : Waypoint.getIndex wp = z) by (rewrite (proj2 Hwf _ _ Hw); lia).
  rewrite Hidx in *.
  eexists. split; [reflexivity|]. repeat split; try assumption.
  - change (Main.lastMarkerIndex h = Z.of_nat (length (waypointsOf h)) - 1)%Z.
    rewrite Hl, Hws. unfold onlyOpen. rewrite length_imap. apply Hwf.
  - intros i w Hiw. change (waypointsOf h !! i = Some w) in Hiw.
    rewrite Hws, lookup_onlyOpen in Hiw.
    destruct (waypointsOf s !! i) as [w0|] eqn:Hw0; [|discriminate].
    cbn in Hiw. injection Hiw as <-. exact (proj2 Hwf _ _ Hw0).
Qed.

Lemma Main_construct_wellFormed params s :
  Main.construct rt params = Returned s ->
  wellFormed s /\
  (forall i w, waypointsOf s !! i = Some w -> Waypoint.isOpen w = false) /\
  length (waypointsOf s) = length (Main.paramWaypoints params).
Proof.
  intros Hc.
  destruct (Main_construct_returns rt params (Main_construct_constructible rt _ _ Hc))
    as (s0 & Hc0 & _ & Hl & Hw & _).
  rewrite Hc in Hc0. injection Hc0 as <-. split; [split|split].
  - now rewrite Hl, Hw, length_imap.
  - intros i w Hi. rewrite Hw, list_lookup_imap in Hi.
    destruct (Main.paramWaypoints params !! i); [|discriminate].
    cbn in Hi. now injection Hi as <-.
  - intros i w Hi. rewrite Hw, list_lookup_imap in Hi.
    destruct (Main.paramWaypoints params !! i); [|discriminate].
    cbn in Hi. now injection Hi as <-.
  - now rewrite Hw, length_imap.
Qed.

(** C5.  With four waypoints, none with NaN for a coordinate, and a map
    style that is no inherited name: the construction returns, and after
    it no waypoint is open (index -1); opening by index 2 makes 2 the open
    index, with the backward and the forward control enabled; going forward
    then makes it 3, with the forward control disabled; resetting then
    makes it -1, with the backward control disabled and the forward control
    enabled. *)
Theorem four_waypoints_scenario params :
  constructible params = true ->
  length (Main.paramWaypoints params) = 4 ->
  exists s0 s1 s2 s3,
    Main.construct rt params = Returned s0 /\
    Main.openWaypointContentIndex s0 = (-1)%Z /\
    Main.openWaypointContentByIndex rt projection (VNum (ofZ 2)) {| panTo := None |} s0
      = Returned s1 /\
    Main.openWaypointContentIndex s1 = 2%Z /\
    backwardEnabled s1 = true /\ forwardEnabled s1 = true /\
    Main.goForward rt projection s1 = Returned s2 /\
    Main.openWaypointContentIndex s2 = 3%Z /\
    backwardEnabled s2 = true /\ forwardEnabled s2 = false /\
    Main.reset rt projection s2 = Returned s3 /\
    Main.openWaypointContentIndex s3 = (-1)%Z /\
    backwardEnabled s3 = false /\ forwardEnabled s3 = true.
Proof.
  intros Hok Hlen.
  destruct (Main_construct_returns rt params Hok) as (s0 & Hc & Hi0 & Hl0 & _).
  destruct (Main_construct_wellFormed _ _ Hc) as (Hwf0 & Hcl0 & Hlen0).
  rewrite Hlen in Hl0, Hlen0.
  destruct (lookup_lt_is_Some_2 (waypointsOf s0) 2) as [w2 Hw2]; [lia|].
  destruct (openWaypointContentByIndex_valid s0 2 w2 {| panTo := None |} Hwf0 ltac:(lia) Hw2
              (Hcl0 _ _ Hw2))
    as (s1 & Ho1 & Hi1 & Hl1 & Hws1 & Hb1 & Hf1 & Hwf1).
  destruct (lookup_lt_is_Some_2 (waypointsOf s0) 3) as [w3 Hw3]; [lia|].
  assert (Hw3' : waypointsOf s1 !! Z.to_nat 3 = Some (Waypoint.setOpen false w3)).
  { rewrite Hws1, lookup_onlyOpen. change (Z.to_nat 3) with 3. now rewrite Hw3. }
  destruct (openWaypointContentByIndex_valid s1 3 _ {| panTo := None |} Hwf1 ltac:(lia) Hw3'
              eq_refl)
    as (s2 & Ho2 & Hi2 & Hl2 & Hws2 & Hb2 & Hf2 & Hwf2).
  destruct (Main_reset_returns rt projection s2) as (s3 & Hr & Hi3 & Hl3 & _ & Hb3 & Hf3 & _).
  exists s0, s1, s2, s3.
  rewrite Hl0 in Hf1. rewrite Hl1, Hl0 in Hf2. rewrite Hl2, Hl1, Hl0 in Hf3.
  repeat split; try assumption.
  unfold Main.goForward. now rewrite Hi1.
Qed.

End Navigation.

(** A bundle of a text, a task and another text: it is not completed while
    the task has not reported, nor when the task reports that it is not
    completed; it is completed once the task reports completion; and a
    reset takes that away again, leaving the records of the texts. *)
Example three_items_one_task :
  let b := ContentBundle.construct [Some sampleText; Some sampleTask; Some sampleText] in
  let report completion :=
    {| eventMaxScore := VNum (ofZ 5); eventVerb := "answered";
       eventResult := Some {| completion := Some completion; success := None;
                              score := Some (ofZ 5); maxScore := Some (ofZ 5) |} |} in
  let b1 := ContentBundle.triggerXAPI 1 (report false) b in
  let b2 := ContentBundle.triggerXAPI 1 (report true) b1 in
  ContentBundle.isCompleted b = false /\
  ContentBundle.isCompleted b1 = false /\
  ContentBundle.isCompleted b2 = true /\
  ContentBundle.trackingMap b2 !! 1 =
    Some {| trIsTask := None; trCompleted := true; trSuccess := true |} /\
  ContentBundle.isCompleted (ContentBundle.reset b2) = false /\
  size (ContentBundle.trackingMap (ContentBundle.reset b2)) = 2.
Proof. repeat split; vm_compute; reflexivity. Qed.

(** ** Resetting *)

(** C7.  In a bundle that was constructed and then received events,
    [reset] leaves no record under the index of a task and leaves every
    other record as it was, which is the seeded one (completed, success); it
    calls [resetTask] on each instance that has it and on no other; a
    second [reset] changes neither the tracking map nor the instances'
    handlers; and [reset] of the main component returns with the open index
    at -1. *)
Theorem reset_discards_task_records contents events :
  let b := ContentBundle.run events (ContentBundle.construct contents) in
  (forall i, i ∈ ContentBundle.taskIndices b ->
     ContentBundle.trackingMap (ContentBundle.reset b) !! i = None) /\
  (forall i, i ∉ ContentBundle.taskIndices b ->
     ContentBundle.trackingMap (ContentBundle.reset b) !! i = ContentBundle.trackingMap b !! i /\
     forall r, ContentBundle.trackingMap b !! i = Some r ->
       r = {| trIsTask := Some false; trCompleted := true; trSuccess := true |}) /\
  (forall position instance,
     ContentBundle.instances b !! position = Some instance ->
     exists instance',
       ContentBundle.instances (ContentBundle.reset b) !! position = Some instance' /\
       resetTaskCalls instance' =
         (if hasResetTask instance then S (resetTaskCalls instance) else resetTaskCalls instance) /\
       xAPIListeners instance' = xAPIListeners instance) /\
  length (ContentBundle.instances (ContentBundle.reset b)) = length (ContentBundle.instances b) /\
  ContentBundle.trackingMap (ContentBundle.reset (ContentBundle.reset b)) =
    ContentBundle.trackingMap (ContentBundle.reset b) /\
  ContentBundle.taskIndices (ContentBundle.reset (ContentBundle.reset b)) =
    ContentBundle.taskIndices (ContentBundle.reset b) /\
  (forall rt projection s,
     exists s', Main.reset rt projection s = Returned s' /\
                Main.openWaypointContentIndex s' = (-1)%Z).
Proof.
  intros b.
  assert (Ha : accounted b) by apply run_accounted, construct_accounted.
  split; [|split; [|split; [|split; [|split; [|split]]]]].
  - intros i Hi. rewrite reset_lookup.
    destruct (ContentBundle.trackingMap b !! i) as [r|] eqn:Hr; [|reflexivity].
    cbn. unfold keptByReset. now rewrite (task_records b Ha i r Hr Hi).
  - intros i Hi. split.
    + rewrite reset_lookup.
      destruct (ContentBundle.trackingMap b !! i) as [r|] eqn:Hr; [|reflexivity].
      now rewrite (other_records b Ha i r Hr Hi).
    + intros r Hr. exact (other_records b Ha i r Hr Hi).
  - intros position instance Hp. exists (ContentBundle.resetInstance instance).
    split; [|split].
    + cbn. rewrite list_lookup_fmap, Hp. reflexivity.
    + unfold ContentBundle.resetInstance. now destruct (hasResetTask instance).
    + apply resetInstance_listeners.
  - cbn. apply length_map.
  - apply map_eq. intros i. rewrite !reset_lookup. apply kept_kept.
  - apply reset_taskIndices.
  - intros rt projection s.
    destruct (Main_reset_returns rt projection s) as (s' & Hr & Hi & _). eauto.
Qed.

(** ** Centring on a waypoint *)

Lemma GeoMap_centerOnWaypoint_not_visible rt projection id options g :
  eqb (GeoMap.getSize g).1 (ofZ 0) = true \/ eqb (GeoMap.getSize g).2 (ofZ 0) = true ->
  GeoMap.centerOnWaypoint rt projection id options g = Returned g.
Proof.
  intros Hz. unfold GeoMap.centerOnWaypoint.
  destruct Hz as [-> | ->]; [reflexivity|]. now rewrite orb_true_r.
Qed.

(** C9.  The map's [centerOnWaypoint] asks for the horizontal fraction 0.25
    when told that content is open and 0.5 otherwise, and the geo map's does
    nothing on a map of width or height 0.  The callback for a focused
    marker tells it that content is open whatever the open index is: on the
    story map of four waypoints with none open, focusing the second marker
    puts it at x = 200 of the 800 wide map. *)
Theorem marker_focus_always_content_open :
  (forall rt projection waypoint s,
     Main.onMarkerFocus rt projection waypoint s =
       (m ← Map.centerOnWaypoint rt projection (Some waypoint) true (Main.map s);
        mret (Main.withMap m s))) /\
  (forall rt projection ref w contentOpen m,
     GeoMap.waypoints (Map.geoMap m) !! ref = Some w ->
     Map.centerOnWaypoint rt projection (Some ref) contentOpen m =
       (g ← GeoMap.centerOnWaypoint rt projection (Waypoint.getId w)
              {| positionXPercentage := VNum (if contentOpen then Fin 0.25 else Fin 0.5);
                 positionYPercentage := VUndefined;
                 optZoomLevel := VUndefined |} (Map.geoMap m);
        mret (Map.withGeoMap g m))) /\
  (forall rt projection id options g,
     eqb (GeoMap.getSize g).1 (ofZ 0) = true \/ eqb (GeoMap.getSize g).2 (ofZ 0) = true ->
     GeoMap.centerOnWaypoint rt projection id options g = Returned g) /\
  exists s0 s1,
    StoryMap.construct decimalRuntime flatProjection sampleParams = Returned s0 /\
    Main.openWaypointContentIndex s0 = (-1)%Z /\
    (forall i w, waypointsOf s0 !! i = Some w -> Waypoint.isOpen w = false) /\
    Main.onMarkerFocus decimalRuntime flatProjection 1 s0 = Returned s1 /\
    Leaflet.width (leafletOf s1) = ofZ 800 /\
    Leaflet.x (Leaflet.latLngToContainerPoint flatProjection (leafletOf s1)
                 {| Leaflet.lat := Fin 60.4; Leaflet.lng := Fin 5.3 |}) = ofZ 200.
Proof.
  split; [reflexivity|]. split; [|split].
  - intros rt projection ref w contentOpen m Hw. unfold Map.centerOnWaypoint. cbn [mbind option_bind].
    rewrite Hw. now destruct contentOpen.
  - apply GeoMap_centerOnWaypoint_not_visible.
  - eexists. eexists. split; [vm_compute; reflexivity|]. split; [reflexivity|].
    split; [|split; [vm_compute; reflexivity|split; reflexivity]].
    intros i w Hw. do 4 (destruct i as [|i]; [cbn in Hw; now injection Hw as <-|]).
    discriminate.
Qed.

(** ** Setting the view *)

Lemma lt_irrefl n : lt n n = false.
Proof.
  destruct n as [| |q|]; try reflexivity. cbn.
  assert (H : Qle_bool q q = true) by (apply Qle_bool_iff, Qle_refl). now rewrite H.
Qed.

Lemma clampNumber_within r lo hi :
  isNaN r = false -> isNaN lo = false -> isNaN hi = false -> lt hi lo = false ->
  within (clampNumber r lo hi) lo hi.
Proof.
  intros Hr Hlo Hhi Hord. unfold clampNumber, within, gt.
  destruct (lt r lo) eqn:H1.
  - now rewrite lt_irrefl.
  - unfold gt. destruct (lt hi r) eqn:H2.
    + now rewrite lt_irrefl.
    + auto.
Qed.

Lemma clampNumber_id r lo hi : within r lo hi -> clampNumber r lo hi = r.
Proof. intros (H1 & H2 & _). unfold clampNumber. now rewrite H1, H2. Qed.

Lemma sanitized_within rt value defaultValue lo hi :
  within defaultValue lo hi -> isNaN lo = false -> isNaN hi = false -> lt hi lo = false ->
  within (sanitized rt value defaultValue lo hi) lo hi.
Proof.
  intros Hd Hlo Hhi Hord. unfold sanitized.
  destruct (validNumber rt value) as [r|] eqn:Hv; [|assumption].
  apply clampNumber_within; try assumption. eapply validNumber_not_NaN, Hv.
Qed.

Lemma lt_asym a b : lt a b = true -> lt b a = false.
Proof.
  destruct a as [| |x|], b as [| |y|]; try discriminate; try reflexivity. cbn.
  intros H. apply negb_true_iff in H. apply negb_false_iff.
  destruct (Qle_bool x y) eqn:Hxy; [reflexivity|].
  destruct (Qle_bool y x) eqn:Hyx; [discriminate|].
  exfalso. destruct (Qlt_le_dec x y) as [Hlt | Hle].
  - apply Qlt_le_weak, Qle_bool_iff in Hlt. congruence.
  - apply Qle_bool_iff in Hle. congruence.
Qed.

Lemma mathRound_isNaN n : isNaN (mathRound n) = isNaN n.
Proof. now destruct n. Qed.

Lemma limitZoom_value m z :
  isNaN z = false -> isNaN (Leaflet.maxZoom m) = false ->
  Leaflet.limitZoom m z =
    let rounded := mathRound z in
    let limited := if lt (Leaflet.maxZoom m) rounded then Leaflet.maxZoom m else rounded in
    if lt limited (Leaflet.minZoom m) then Leaflet.minZoom m else limited.
Proof.
  intros Hz Hhi. unfold Leaflet.limitZoom, mathMax, mathMin.
  pose proof (mathRound_isNaN z) as Hr. rewrite Hz in Hr.
  change (Leaflet.minZoom m) with (ofZ 0). cbv zeta.
  destruct (Leaflet.maxZoom m) as [| |hi|]; try discriminate;
    destruct (mathRound z) as [| |r|]; try discriminate; try reflexivity;
    cbn [lt]; try reflexivity; now destruct (negb _).
Qed.

Lemma limitZoom_within m z :
  isNaN z = false -> isNaN (Leaflet.maxZoom m) = false ->
  lt (Leaflet.maxZoom m) (Leaflet.minZoom m) = false ->
  within (Leaflet.limitZoom m z) (Leaflet.minZoom m) (Leaflet.maxZoom m).
Proof.
  intros Hz Hhi Hord. rewrite (limitZoom_value m z Hz Hhi). cbv zeta.
  pose proof (mathRound_isNaN z) as Hr. rewrite Hz in Hr. unfold within, gt.
  destruct (lt (Leaflet.maxZoom m) (mathRound z)) eqn:H1.
  - rewrite Hord. now rewrite lt_irrefl.
  - destruct (lt (mathRound z) (Leaflet.minZoom m)) eqn:H2.
    + now rewrite lt_irrefl.
    + now rewrite H1.
Qed.

Lemma limitZoom_id m z :
  within z (Leaflet.minZoom m) (Leaflet.maxZoom m) -> isNaN (Leaflet.maxZoom m) = false ->
  mathRound z = z -> Leaflet.limitZoom m z = z.
Proof.
  intros (Hlo & Hhi & Hz) Hmax Hr. rewrite (limitZoom_value m z Hz Hmax). cbv zeta.
  rewrite Hr. unfold gt in Hhi. now rewrite Hhi, Hlo.
Qed.

(** C8.  [setView] throws when it is given null for the coordinates.
    Given anything else it returns, and changes the view only.  Latitude
    and longitude are the numbers read from the coordinates, moved into
    [-90, 90] and [-180, 180]; the zoom is the number read from the zoom
    argument, moved into the zoom bounds of the map and then limited by
    the map, which rounds it to a whole zoom level and moves it into the
    bounds again; where no number is read they are 69.6456737, 18.9501558
    and 13, limited in the same way, whatever the view was before.  So
    latitude 999, longitude -200 and zoom 50 give 90, -180 and the
    greatest zoom of the map when that is below 50; the zoom 5.5 gives 6,
    and no zoom gives 13, when the zoom bounds allow them. *)
Theorem setView_sanitizes rt argument zoomLevel g :
  let lo := Leaflet.minZoom (GeoMap.map g) in
  let hi := Leaflet.maxZoom (GeoMap.map g) in
  (argument = CoordinatesValue VNull ->
   exists msg, GeoMap.setView rt argument zoomLevel g = Thrown msg) /\
  (forall coordinates, readFrom argument coordinates ->
   exists g',
    GeoMap.setView rt argument zoomLevel g = Returned g' /\
    GeoMap.waypoints g' = GeoMap.waypoints g /\
    GeoMap.miniMapVisible g' = GeoMap.miniMapVisible g /\
    sameFrame (GeoMap.map g') (GeoMap.map g) /\
    Leaflet.lat (GeoMap.getCoordinates g') =
      sanitized rt (coordLatitude coordinates) (Fin 69.6456737) (ofZ (-90)) (ofZ 90) /\
    Leaflet.lng (GeoMap.getCoordinates g') =
      sanitized rt (coordLongitude coordinates) (Fin 18.9501558) (ofZ (-180)) (ofZ 180) /\
    GeoMap.getZoomLevel g' =
      Leaflet.limitZoom (GeoMap.map g) (sanitized rt zoomLevel (ofZ 13) lo hi) /\
    within (Leaflet.lat (GeoMap.getCoordinates g')) (ofZ (-90)) (ofZ 90) /\
    within (Leaflet.lng (GeoMap.getCoordinates g')) (ofZ (-180)) (ofZ 180) /\
    (isNaN hi = false -> lt hi lo = false -> within (GeoMap.getZoomLevel g') lo hi) /\
    (forall r, validNumber rt zoomLevel = Some r -> isNaN hi = false ->
       within r lo hi -> mathRound r = r -> GeoMap.getZoomLevel g' = r) /\
    (validNumber rt (coordLatitude coordinates) = None ->
       Leaflet.lat (GeoMap.getCoordinates g') = Fin 69.6456737) /\
    (validNumber rt (coordLongitude coordinates) = None ->
       Leaflet.lng (GeoMap.getCoordinates g') = Fin 18.9501558) /\
    (validNumber rt zoomLevel = None ->
       GeoMap.getZoomLevel g' = Leaflet.limitZoom (GeoMap.map g) (ofZ 13) /\
       (isNaN hi = false -> lt hi (ofZ 13) = false -> GeoMap.getZoomLevel g' = ofZ 13)) /\
    (coordLatitude coordinates = VNum (ofZ 999) ->
       Leaflet.lat (GeoMap.getCoordinates g') = ofZ 90) /\
    (coordLongitude coordinates = VNum (ofZ (-200)) ->
       Leaflet.lng (GeoMap.getCoordinates g') = ofZ (-180)) /\
    (zoomLevel = VNum (ofZ 50) -> gt (ofZ 50) hi = true -> lt hi lo = false ->
       mathRound hi = hi -> GeoMap.getZoomLevel g' = hi) /\
    (zoomLevel = VNum (Fin 5.5) -> isNaN hi = false -> gt (Fin 5.5) hi = false ->
       lt hi (ofZ 6) = false -> GeoMap.getZoomLevel g' = ofZ 6)).
Proof.
  intros lo hi. split.
  { intros ->. now eexists. }
  intros coordinates Hread.
  assert (Hset : GeoMap.setView rt argument zoomLevel g =
                 GeoMap.setView rt (CoordinatesObject coordinates) zoomLevel g).
  { destruct argument as [given|v]; cbn in Hread.
    - now subst.
    - destruct Hread as [Hv ->]. destruct v; try reflexivity. now destruct Hv. }
  rewrite Hset, GeoMap_setView_returns. eexists. split; [reflexivity|].
  cbn [GeoMap.waypoints GeoMap.miniMapVisible GeoMap.withMap GeoMap.map GeoMap.getCoordinates
       GeoMap.getZoomLevel Leaflet.withView Leaflet.center Leaflet.zoom Leaflet.lat Leaflet.lng].
  fold lo hi.
  assert (Hnum : isNaN hi = false -> isNaN (sanitized rt zoomLevel (ofZ 13) lo hi) = false).
  { intros Hhi. now apply sanitized_not_NaN. }
  split; [reflexivity|]. split; [reflexivity|]. split; [apply sameFrame_withView|].
  split; [reflexivity|]. split; [reflexivity|]. split; [reflexivity|].
  split; [apply sanitized_within; (reflexivity || now repeat split)|].
  split; [apply sanitized_within; (reflexivity || now repeat split)|].
  split.
  { intros Hhi Hord. apply limitZoom_within; auto. }
  split.
  { intros r Hv Hhi Hw Hr. unfold sanitized. rewrite Hv, (clampNumber_id _ _ _ Hw).
    now apply limitZoom_id. }
  unfold sanitized.
  split; [now intros ->|]. split; [now intros ->|].
  split.
  { intros ->. split; [reflexivity|]. intros Hhi H13.
    rewrite (limitZoom_value (GeoMap.map g) (ofZ 13) eq_refl Hhi). cbv zeta.
    change (mathRound (ofZ 13)) with (ofZ 13). fold hi. now rewrite H13. }
  split; [now intros ->|]. split; [now intros ->|].
  split.
  { intros -> H50 Hord Hr. cbn [validNumber isNaN ofZ]. unfold clampNumber.
    change (Fin (inject_Z 50)) with (ofZ 50). change (lt (ofZ 50) lo) with false.
    cbv iota. rewrite H50.
    assert (Hhi : isNaN hi = false) by (now destruct hi).
    rewrite (limitZoom_value (GeoMap.map g) hi Hhi Hhi). cbv zeta. fold lo hi.
    now rewrite Hr, lt_irrefl, Hord. }
  intros -> Hhi H55 H6. cbn [validNumber isNaN]. unfold clampNumber.
  change (lt (Fin 5.5) lo) with false. cbv iota. rewrite H55.
  rewrite (limitZoom_value (GeoMap.map g) (Fin 5.5) eq_refl Hhi). cbv zeta. fold hi.
  change (mathRound (Fin 5.5)) with (ofZ 6). now rewrite H6.
Qed.

(** ** Saving and restoring the state *)

Section Restore.
Variable rt : Runtime.
Variable projection : Leaflet.Projection.

Lemma validNumber_print n :
  isNaN n = false -> readsBack rt n -> validNumber rt (VStr (toString rt n)) = Some n.
Proof.
  intros Hn [Hp Ht]. unfold validNumber. now rewrite Hp, Ht, String.eqb_refl, Hn.
Qed.

Lemma sanitized_print n defaultValue lo hi :
  within n lo hi -> readsBack rt n ->
  sanitized rt (VStr (toString rt n)) defaultValue lo hi = n.
Proof.
  intros Hw Hr. unfold sanitized.
  rewrite (validNumber_print n (proj2 (proj2 Hw)) Hr). now apply clampNumber_id.
Qed.

Lemma sanitized_number n defaultValue lo hi :
  within n lo hi -> sanitized rt (VNum n) defaultValue lo hi = n.
Proof.
  intros Hw. unfold sanitized, validNumber. rewrite (proj2 (proj2 Hw)).
  now apply clampNumber_id.
Qed.

Lemma openWaypointContentByIndex_restoring z x :
  exists x',
    Main.openWaypointContentByIndex rt projection (VNum (ofZ z)) {| panTo := Some false |} x
      = Returned x' /\
    (Main.openWaypointContentIndex x = z -> Main.openWaypointContentIndex x' = z) /\
    leafletOf x' = leafletOf x /\
    miniMapShown x' = miniMapShown x /\
    miniMapButtonActive x' = miniMapButtonActive x.
Proof.
  destruct (Map.getWaypointByIndex (VNum (ofZ z)) (Main.map x)) as [ref|] eqn:Hf.
  2:{ rewrite (openWaypointContentByIndex_none _ _ _ _ _ Hf). exists x. now repeat split. }
  rewrite (openWaypointContentByIndex_some _ _ _ _ _ _ Hf).
  destruct (getWaypointByIndex_Some _ _ _ Hf) as (n & wp & Hn & Hw & He).
  injection Hn as <-. rewrite eqb_ofZ in He. apply Z.eqb_eq in He.
  destruct (Waypoint.isOpen wp) eqn:Ho.
  - rewrite (Main_openWaypointContent_open rt projection _ _ _ _ Hw Ho).
    exists x. now repeat split.
  - destruct (Main_openWaypointContent_closed rt projection _ _ {| panTo := Some false |} _ Hw Ho)
      as (h & lm & -> & Hh & _ & Hlm).
    rewrite (Hlm eq_refl).
    destruct Hh as (_ & Hl & Hi & _ & Hm & Hb & _).
    eexists. split; [reflexivity|].
    rewrite <- Hl, Main_eta. repeat split; try assumption. intros _. now rewrite Hi.
Qed.

(** A story map as constructed has its mini map off. *)
Lemma Main_construct_miniMapOff params s t :
  Main.construct rt params = Returned t ->
  (Main.paramUserCanUseMiniMap params = false ->
   NavigationBar.minimap (Main.navigationBar s) = None) ->
  miniMapOff s t.
Proof.
  intros Hc Hs.
  destruct (Main_construct_returns rt params (Main_construct_constructible rt _ _ Hc))
    as (t0 & Hc0 & _ & _ & _ & Hm & _ & _ & _ & _ & Hb).
  rewrite Hc in Hc0. injection Hc0 as <-. split; [assumption|]. rewrite Hb.
  destruct (Main.paramUserCanUseMiniMap params); [now repeat split|now apply Hs].
Qed.

(** C3.  The state [getCurrentState] returns for [s], set with
    [setCurrentState] on a story map [t] whose mini map is hidden, gives a
    state with the open index, the centre and zoom of the view, and the
    mini map button and mini map of [s]; provided the view of [s] is
    within the bounds of latitude, longitude and zoom, its zoom is one the
    map of [t] leaves as it is (a whole zoom level, as the map makes every
    zoom it is given), the runtime reads the prints of its coordinates
    back, and the mini map button of [s] shows whether its mini map is
    shown. *)
Theorem setCurrentState_restores s t :
  viewKept rt s t -> miniMapInSync s -> miniMapOff s t ->
  exists t',
    Main.setCurrentState rt projection (Some (Main.getCurrentState rt s)) t = Returned t' /\
    Main.openWaypointContentIndex t' = Main.openWaypointContentIndex s /\
    Leaflet.center (leafletOf t') = Leaflet.center (leafletOf s) /\
    Leaflet.zoom (leafletOf t') = Leaflet.zoom (leafletOf s) /\
    miniMapButtonActive t' = miniMapButtonActive s /\
    miniMapShown t' = miniMapShown s.
Proof.
  intros (Hlat & Hlng & Hzoom & Hlimit & Hrlat & Hrlng) Hsync (Hoff & Hbtn).
  unfold Main.setCurrentState.
  cbn [mbind option_bind Main.getCurrentState stateOpenWaypointContentIndex
       stateNavigationBar stateMap default ofOption Main.getCurrentOpenWaypointContentIndex].
  set (t1 := Main.updateButtonDisabledStates _).
  assert (Hnav : NavigationBar.minimap (Main.navigationBar t1)
                 = NavigationBar.minimap (Main.navigationBar t)) by reflexivity.
  assert (Hleaf1 : Main.map t1 = Main.map t) by reflexivity.
  assert (Hidx1 : Main.openWaypointContentIndex t1 = Main.openWaypointContentIndex s)
    by reflexivity.
  set (a := miniMapButtonActive s).
  assert (Hsnap : NavigationBar.getCurrentState (Main.navigationBar s)
                  = {| minimapActive := Some a |}) by reflexivity.
  rewrite Hsnap. clear Hsnap.
  assert (Hshown : miniMapShown s = a).
  { unfold a, miniMapButtonActive. unfold miniMapInSync in Hsync.
    destruct (NavigationBar.minimap (Main.navigationBar s)); cbn; congruence. }
  (* the navigation bar and the mini map *)
  assert (Hmini : exists t2,
             (let (n, called) :=
                NavigationBar.setCurrentState (Some {| minimapActive := Some a |})
                  (Main.navigationBar t1) in
              if called then Main.toggleMiniMap (Main.withNavigationBar n t1)
              else Main.withNavigationBar n t1) = t2 /\
             Main.openWaypointContentIndex t2 = Main.openWaypointContentIndex s /\
             leafletOf t2 = leafletOf t /\
             miniMapButtonActive t2 = a /\ miniMapShown t2 = a).
  { unfold NavigationBar.setCurrentState. rewrite Hnav.
    cbn [mbind option_bind minimapActive].
    destruct (NavigationBar.minimap (Main.navigationBar t)) as [button|] eqn:Hb.
    - destruct Hbtn as (Hty & Hact & Hdis). destruct a eqn:Ha.
      + unfold Button.forceState, Button.toggle, Button.activate. rewrite Hty, Hdis. cbn.
        eexists. split; [reflexivity|]. repeat split.
        unfold miniMapShown in *. cbn.
        destruct (GeoMap.miniMapVisible (Map.geoMap (Main.map t))) as [[|]|];
          cbn in *; congruence.
      + eexists. split; [reflexivity|]. repeat split.
        * unfold miniMapButtonActive. cbn. rewrite Hb. cbn. exact Hact.
        * exact Hoff.
    - assert (Ha : a = false) by (unfold a, miniMapButtonActive; now rewrite Hbtn).
      rewrite Ha. eexists. split; [reflexivity|]. repeat split.
      + unfold miniMapButtonActive. cbn. now rewrite Hb.
      + exact Hoff. }
  destruct Hmini as (t2 & Ht2 & Hidx2 & Hleaf2 & Hbtn2 & Hshown2).
  destruct (NavigationBar.setCurrentState _ _) as [n called]. rewrite Ht2. clear Ht2.
  (* the view *)
  unfold Map.setCurrentState, Map.getCurrentState.
  cbn [mbind option_bind stateCoordinates coordLatitude coordLongitude strictEq orb
       fmap option_fmap option_map stateZoomLevel default].
  rewrite GeoMap_setView_returns.
  cbn [mbind outcome_bind mret outcome_ret coordLatitude coordLongitude
       GeoMap.getCoordinates GeoMap.getZoomLevel].
  fold (leafletOf s). fold (leafletOf t2). rewrite Hleaf2.
  rewrite (sanitized_print _ _ _ _ Hlat Hrlat), (sanitized_print _ _ _ _ Hlng Hrlng),
    (sanitized_number _ _ _ _ Hzoom), Hlimit.
  match goal with |- context [Main.openWaypointContentByIndex _ _ _ _ ?x] =>
    destruct (openWaypointContentByIndex_restoring (Main.openWaypointContentIndex s) x)
      as (t' & Ht' & Hi' & Hl' & Hm' & Hb')
  end.
  exists t'. split; [exact Ht'|]. split; [now apply Hi'|].
  rewrite Hl', Hm', Hb'. repeat split; try assumption.
  - now destruct (Leaflet.center (leafletOf s)).
  - now rewrite Hshown.
Qed.

End Restore.

(** ** The statements on a story map of four waypoints *)

Lemma sampleStart_constructed :
  StoryMap.construct decimalRuntime flatProjection sampleParams = Returned sampleStart.
Proof. vm_compute. reflexivity. Qed.

Lemma sampleFirstOpen_reachable :
  reachable decimalRuntime flatProjection sampleParams sampleFirstOpen.
Proof.
  exists sampleStart, [OpenWaypointContentByIndex (VNum (ofZ 0)) {| panTo := None |}].
  split; vm_compute; reflexivity.
Defined.

Lemma sampleMiniMapOn_reachable :
  reachable decimalRuntime flatProjection sampleParams sampleMiniMapOn.
Proof.
  exists sampleStart, [OpenWaypointContentByIndex (VNum (ofZ 2)) {| panTo := None |};
                       ClickButtonMiniMap].
  split; vm_compute; reflexivity.
Defined.

Lemma xAPIHandler_records_witness :
  (isNumber (eventMaxScore sampleEvent) = true /\
   eventVerb sampleEvent = "completed"%string /\
   eventResult sampleEvent = Some sampleResult) /\
  ContentBundle.trackingMap
    (ContentBundle.xAPIHandler 0 sampleEvent (ContentBundle.construct [Some sampleTask])) !! 0 =
    Some {| trIsTask := None; trCompleted := true; trSuccess := false |}.
Proof.
  split; [repeat split|].
  exact (xAPIHandler_records 0 sampleEvent (ContentBundle.construct [Some sampleTask])
           sampleResult eq_refl (or_introl eq_refl) eq_refl).
Defined.

Lemma openWaypointContentByIndex_ignored_witness :
  reachable decimalRuntime flatProjection sampleParams sampleFirstOpen /\
  Main.openWaypointContentIndex sampleFirstOpen = 0%Z /\
  Main.goBackward decimalRuntime flatProjection sampleFirstOpen = Returned sampleFirstOpen /\
  Main.openWaypointContentByIndex decimalRuntime flatProjection (VStr "2")
    {| panTo := None |} sampleFirstOpen = Returned sampleFirstOpen /\
  Main.openWaypointContentByIndex decimalRuntime flatProjection (VNum (ofZ 4))
    {| panTo := None |} sampleFirstOpen = Returned sampleFirstOpen.
Proof.
  split; [exact sampleFirstOpen_reachable|]. split; [reflexivity|].
  destruct (openWaypointContentByIndex_ignored decimalRuntime flatProjection sampleParams
              sampleFirstOpen sampleFirstOpen_reachable)
    as (Hnot & Hout & _ & _ & Hback & _).
  split; [exact (Hback eq_refl)|]. split.
  - exact (Hnot (VStr "2") {| panTo := None |} eq_refl).
  - exact (Hout (ofZ 4) {| panTo := None |} (or_intror eq_refl)).
Defined.

Lemma at_most_one_waypoint_open_witness :
  constructible sampleParams = true /\
  exists s0 s,
    StoryMap.construct decimalRuntime flatProjection sampleParams = Returned s0 /\
    Session.run decimalRuntime flatProjection
      [OpenWaypointContentByIndex (VNum (ofZ 2)) {| panTo := None |}; GoForward; MarkerClick 0]
      s0 = Returned s /\
    atMostOneOpen (waypointsOf s).
Proof.
  split; [reflexivity|].
  destruct (at_most_one_waypoint_open decimalRuntime flatProjection sampleParams
              [OpenWaypointContentByIndex (VNum (ofZ 2)) {| panTo := None |}; GoForward;
               MarkerClick 0] eq_refl)
    as (s0 & s & Hc & Hr & Hone & _).
  exists s0, s. now repeat split.
Defined.

Lemma four_waypoints_scenario_witness :
  constructible sampleParams = true /\
  length (Main.paramWaypoints sampleParams) = 4 /\
  exists s0 s1 s2 s3,
    Main.construct decimalRuntime sampleParams = Returned s0 /\
    Main.openWaypointContentIndex s0 = (-1)%Z /\
    Main.openWaypointContentByIndex decimalRuntime flatProjection (VNum (ofZ 2))
      {| panTo := None |} s0 = Returned s1 /\
    Main.openWaypointContentIndex s1 = 2%Z /\
    backwardEnabled s1 = true /\ forwardEnabled s1 = true /\
    Main.goForward decimalRuntime flatProjection s1 = Returned s2 /\
    Main.openWaypointContentIndex s2 = 3%Z /\
    backwardEnabled s2 = true /\ forwardEnabled s2 = false /\
    Main.reset decimalRuntime flatProjection s2 = Returned s3 /\
    Main.openWaypointContentIndex s3 = (-1)%Z /\
    backwardEnabled s3 = false /\ forwardEnabled s3 = true.
Proof.
  split; [reflexivity|]. split; [reflexivity|].
  exact (four_waypoints_scenario decimalRuntime flatProjection sampleParams eq_refl eq_refl).
Defined.

(** C5, as the scenario is told: after the reset the forward control is not
    disabled. *)
Lemma four_waypoints_forward_enabled_after_reset :
  ~ exists s0 s1 s2 s3,
      Main.construct decimalRuntime sampleParams = Returned s0 /\
      Main.openWaypointContentByIndex decimalRuntime flatProjection (VNum (ofZ 2))
        {| panTo := None |} s0 = Returned s1 /\
      Main.goForward decimalRuntime flatProjection s1 = Returned s2 /\
      Main.reset decimalRuntime flatProjection s2 = Returned s3 /\
      Main.openWaypointContentIndex s3 = (-1)%Z /\
      backwardEnabled s3 = false /\ forwardEnabled s3 = false.
Proof.
  intros (s0 & s1 & s2 & s3 & H0 & H1 & H2 & H3 & _ & _ & Hf).
  vm_compute in H0. injection H0 as <-.
  vm_compute in H1. injection H1 as <-.
  vm_compute in H2. injection H2 as <-.
  vm_compute in H3. injection H3 as <-.
  vm_compute in Hf. discriminate.
Qed.

(** C8, as the claim has it: a latitude that is not a number does not give
    the latitude the view had, but the default one; and [setView] throws
    when it is given null for the coordinates. *)
Lemma setView_forgets_the_view :
  exists g1 g2 msg,
    GeoMap.setView decimalRuntime
      (CoordinatesObject {| coordLatitude := VNum (ofZ 10); coordLongitude := VNum (ofZ 20) |})
      (VNum (ofZ 5)) (Map.geoMap (Main.map sampleStart)) = Returned g1 /\
    Leaflet.lat (GeoMap.getCoordinates g1) = ofZ 10 /\
    GeoMap.setView decimalRuntime
      (CoordinatesObject {| coordLatitude := VStr "north"; coordLongitude := VNum (ofZ 20) |})
      (VNum (ofZ 5)) g1 = Returned g2 /\
    Leaflet.lat (GeoMap.getCoordinates g2) = Fin 69.6456737 /\
    Leaflet.lat (GeoMap.getCoordinates g2) <> Leaflet.lat (GeoMap.getCoordinates g1) /\
    GeoMap.setView decimalRuntime (CoordinatesValue VNull) (VNum (ofZ 5)) g1 = Thrown msg.
Proof.
  eexists. eexists. eexists. split; [vm_compute; reflexivity|]. split; [reflexivity|].
  split; [vm_compute; reflexivity|]. split; [reflexivity|]. split; [discriminate|].
  reflexivity.
Qed.

(** C3, as the claim has it: restoring the state of a story map into itself
    while its mini map is shown hides the mini map. *)
Lemma setCurrentState_hides_the_mini_map :
  exists t',
    reachable decimalRuntime flatProjection sampleParams sampleMiniMapOn /\
    miniMapShown sampleMiniMapOn = true /\
    Main.setCurrentState decimalRuntime flatProjection
      (Some (Main.getCurrentState decimalRuntime sampleMiniMapOn)) sampleMiniMapOn
      = Returned t' /\
    miniMapButtonActive t' = true /\
    miniMapShown t' = false /\
    miniMapShown t' <> miniMapShown sampleMiniMapOn.
Proof.
  eexists. split; [exact sampleMiniMapOn_reachable|]. split; [reflexivity|].
  split; [vm_compute; reflexivity|]. split; [reflexivity|]. split; [reflexivity|].
  discriminate.
Qed.

Lemma setCurrentState_restores_witness :
  (viewKept decimalRuntime sampleMiniMapOn sampleStart /\
   miniMapInSync sampleMiniMapOn /\ miniMapOff sampleMiniMapOn sampleStart) /\
  exists t',
    Main.setCurrentState decimalRuntime flatProjection
      (Some (Main.getCurrentState decimalRuntime sampleMiniMapOn)) sampleStart = Returned t' /\
    Main.openWaypointContentIndex t' = Main.openWaypointContentIndex sampleMiniMapOn /\
    Leaflet.center (leafletOf t') = Leaflet.center (leafletOf sampleMiniMapOn) /\
    Leaflet.zoom (leafletOf t') = Leaflet.zoom (leafletOf sampleMiniMapOn) /\
    miniMapButtonActive t' = miniMapButtonActive sampleMiniMapOn /\
    miniMapShown t' = miniMapShown sampleMiniMapOn.
Proof.
  assert (Hv : viewKept decimalRuntime sampleMiniMapOn sampleStart)
    by (vm_compute; repeat split; reflexivity).
  assert (Hs : miniMapInSync sampleMiniMapOn) by reflexivity.
  assert (Ho : miniMapOff sampleMiniMapOn sampleStart) by (vm_compute; repeat split; reflexivity).
  split; [now repeat split|].
  exact (setCurrentState_restores decimalRuntime flatProjection sampleMiniMapOn sampleStart
           Hv Hs Ho).
Defined.

(** * Further properties *)

(** ** The state after each operation *)

Lemma moved_refl m : moved m m.
Proof. split; [apply sameFrame_refl|auto]. Qed.

Lemma inBounds_sanitized rt latitude longitude z m :
  inBounds
    (Leaflet.withView
       {| Leaflet.lat := sanitized rt latitude (Fin 69.6456737) (ofZ (-90)) (ofZ 90);
          Leaflet.lng := sanitized rt longitude (Fin 18.9501558) (ofZ (-180)) (ofZ 180) |}
       z m).
Proof. split; cbn; apply sanitized_within; (reflexivity || now repeat split). Qed.

Section Shapes.
Variable rt : Runtime.
Variable projection : Leaflet.Projection.

Lemma GeoMap_panTo_moved coordinates options g :
  exists m, GeoMap.panTo rt coordinates options g = Returned (GeoMap.withMap m g) /\
            moved (GeoMap.map g) m.
Proof.
  unfold GeoMap.panTo.
  destruct (negb (isNumber (coordLatitude coordinates)) ||
            negb (isNumber (coordLongitude coordinates))).
  - exists (GeoMap.map g). rewrite GeoMap_withMap_id. split; [reflexivity|apply moved_refl].
  - rewrite !sanitizeNumber_numbers. cbn. unfold Leaflet.panTo, Leaflet.toLatLng.
    rewrite !sanitized_not_NaN by reflexivity. cbn.
    eexists. split; [reflexivity|].
    destruct (truthy (optZoomLevel options)); (split; [now repeat split|]); intros _;
      apply inBounds_sanitized.
Qed.

Lemma GeoMap_centerOnWaypoint_moved id options g :
  exists m, GeoMap.centerOnWaypoint rt projection id options g = Returned (GeoMap.withMap m g) /\
            moved (GeoMap.map g) m.
Proof.
  assert (Hid : exists m, Returned g = Returned (GeoMap.withMap m g) /\ moved (GeoMap.map g) m).
  { exists (GeoMap.map g). rewrite GeoMap_withMap_id. split; [reflexivity|apply moved_refl]. }
  unfold GeoMap.centerOnWaypoint.
  destruct (eqb _ _ || eqb _ _); [exact Hid|].
  rewrite !sanitizeNumber_numbers. cbn [mbind outcome_bind].
  destruct (GeoMap.getWaypointById id g ≫= _); [apply GeoMap_panTo_moved|exact Hid].
Qed.

Lemma GeoMap_reset_moved g :
  exists m,
    GeoMap.reset rt projection g =
      Returned (GeoMap.withMap m
                  (GeoMap.withWaypoints (Waypoint.setOpen false <$> GeoMap.waypoints g) g)) /\
    moved (GeoMap.map g) m.
Proof.
  unfold GeoMap.reset.
  set (g' := GeoMap.withWaypoints _ g).
  destruct (GeoMap.waypoints g') as [|first rest].
  - exists (GeoMap.map g'). rewrite GeoMap_withMap_id. split; [reflexivity|apply moved_refl].
  - match goal with |- context [GeoMap.centerOnWaypoint _ _ ?id ?o g'] =>
      destruct (GeoMap_centerOnWaypoint_moved id o g') as (m & Hm & Hf)
    end.
    exists m. split; [exact Hm|exact Hf].
Qed.

Lemma Map_centerOnWaypoint_moved waypoint contentOpen m :
  exists lm,
    Map.centerOnWaypoint rt projection waypoint contentOpen m =
      Returned (Map.withGeoMap (GeoMap.withMap lm (Map.geoMap m)) m) /\
    moved (GeoMap.map (Map.geoMap m)) lm.
Proof.
  unfold Map.centerOnWaypoint.
  destruct (waypoint ≫= _) as [w|].
  - match goal with |- context [GeoMap.centerOnWaypoint _ _ ?id ?o ?g] =>
      destruct (GeoMap_centerOnWaypoint_moved id o g) as (lm & -> & Hf)
    end.
    exists lm. split; [reflexivity|assumption].
  - exists (GeoMap.map (Map.geoMap m)). rewrite GeoMap_withMap_id.
    split; [now destruct m|apply moved_refl].
Qed.

Lemma Main_onMarkerFocus_moved waypoint s :
  exists lm,
    Main.onMarkerFocus rt projection waypoint s = Returned (Session.withLeaflet (fun _ => lm) s) /\
    moved (leafletOf s) lm.
Proof.
  unfold Main.onMarkerFocus.
  match goal with |- context [Map.centerOnWaypoint _ _ ?w ?c ?m] =>
    destruct (Map_centerOnWaypoint_moved w c m) as (lm & -> & Hf)
  end.
  exists lm. split; [reflexivity|assumption].
Qed.

Lemma Map_setCurrentState_moved state m :
  exists lm,
    Map.setCurrentState rt state m =
      Returned (Map.withGeoMap (GeoMap.withMap lm (Map.geoMap m)) m) /\
    moved (GeoMap.map (Map.geoMap m)) lm.
Proof.
  assert (Hid : exists lm,
             Returned m = Returned (Map.withGeoMap (GeoMap.withMap lm (Map.geoMap m)) m) /\
             moved (GeoMap.map (Map.geoMap m)) lm).
  { exists (GeoMap.map (Map.geoMap m)). rewrite GeoMap_withMap_id.
    split; [now destruct m|apply moved_refl]. }
  unfold Map.setCurrentState.
  destruct (state ≫= stateCoordinates) as [coordinates|]; [|exact Hid].
  destruct (strictEq _ _ || strictEq _ _); [exact Hid|].
  rewrite GeoMap_setView_returns. cbn [mbind outcome_bind mret outcome_ret].
  eexists. split; [reflexivity|]. split; [apply sameFrame_withView|].
  intros _. apply inBounds_sanitized.
Qed.

(** Opening a closed waypoint. *)
Lemma Main_openWaypointContent_opened ref wp options s :
  waypointsOf s !! ref = Some wp -> Waypoint.isOpen wp = false ->
  exists lm,
    Main.openWaypointContent rt projection (Some ref) options s =
      Returned (Session.withLeaflet (fun _ => lm) (opened ref wp s)) /\
    moved (leafletOf s) lm /\
    (panTo options = Some false -> lm = leafletOf s).
Proof.
  intros Hw Ho. unfold Main.openWaypointContent, Map.openWaypointContent.
  unfold waypointsOf in Hw. rewrite Hw, Ho. unfold Main.handleWaypointContentOpened.
  cbn [mbind outcome_bind mret outcome_ret].
  change (Main.read _ _) with (opened ref wp s).
  destruct (panTo options) as [[|]|] eqn:Hp.
  - destruct (Main_onMarkerFocus_moved ref (opened ref wp s)) as (lm & -> & Hf).
    exists lm. split; [reflexivity|]. split; [exact Hf|discriminate].
  - exists (leafletOf s). split; [|split; [apply moved_refl|reflexivity]].
    now rewrite <- (Main_eta (opened ref wp s)) at 1.
  - destruct (Main_onMarkerFocus_moved ref (opened ref wp s)) as (lm & -> & Hf).
    exists lm. split; [reflexivity|]. split; [exact Hf|discriminate].
Qed.

Lemma Main_openWaypointContent_shape waypoint options s :
  Main.openWaypointContent rt projection waypoint options s = Returned s \/
  exists ref wp lm,
    waypoint = Some ref /\ waypointsOf s !! ref = Some wp /\ Waypoint.isOpen wp = false /\
    Main.openWaypointContent rt projection waypoint options s =
      Returned (Session.withLeaflet (fun _ => lm) (opened ref wp s)) /\
    moved (leafletOf s) lm /\
    (panTo options = Some false -> lm = leafletOf s).
Proof.
  destruct waypoint as [ref|]; [|now left].
  destruct (waypointsOf s !! ref) as [wp|] eqn:Hw.
  - destruct (Waypoint.isOpen wp) eqn:Ho.
    + left. eapply Main_openWaypointContent_open; eassumption.
    + right. destruct (Main_openWaypointContent_opened _ _ options _ Hw Ho) as (lm & Hr & Hm).
      exists ref, wp, lm. split; [reflexivity|]. split; [exact Hw|]. split; [exact Ho|].
      split; [exact Hr|exact Hm].
  - left. now apply Main_openWaypointContent_missing.
Qed.

Lemma Main_openWaypointContentByIndex_shape index options s :
  Main.openWaypointContentByIndex rt projection index options s = Returned s \/
  exists ref wp lm,
    Map.getWaypointByIndex index (Main.map s) = Some ref /\
    waypointsOf s !! ref = Some wp /\ Waypoint.isOpen wp = false /\
    Main.openWaypointContentByIndex rt projection index options s =
      Returned (Session.withLeaflet (fun _ => lm) (opened ref wp s)) /\
    moved (leafletOf s) lm /\
    (panTo options = Some false -> lm = leafletOf s).
Proof.
  destruct (Map.getWaypointByIndex index (Main.map s)) as [ref|] eqn:Hf.
  - rewrite (openWaypointContentByIndex_some _ _ _ _ _ _ Hf).
    destruct (Main_openWaypointContent_shape (Some ref) options s)
      as [Hs | (ref' & wp & lm & [= <-] & Hrest)]; [now left|].
    right. exists ref, wp, lm. now split.
  - left. now apply openWaypointContentByIndex_none.
Qed.

End Shapes.

(** ** What a session keeps *)

Lemma NavigationBar_setCurrentState_shape state n :
  NavigationBar.setCurrentState state n = (n, false) \/
  exists button,
    NavigationBar.minimap n = Some button /\
    NavigationBar.setCurrentState state n =
      (NavigationBar.withMinimap (Some (Button.forceState true false button).1) n, true).
Proof.
  unfold NavigationBar.setCurrentState.
  destruct (NavigationBar.minimap n) as [button|]; [|now left].
  destruct (state ≫= minimapActive) as [[|]|]; [|now left|now left].
  right. exists button. split; reflexivity.
Qed.

Lemma opened_buttons ref wp s : buttonsFollowIndex (opened ref wp s).
Proof.
  unfold opened.
  match goal with |- context [Main.read ?t (Main.updateButtonDisabledStates ?x)] =>
    pose proof (updateButtonDisabledStates_buttons x) as [Hb Hf]
  end.
  split; [exact Hb|exact Hf].
Qed.

Lemma Main_clickButtonMiniMap_shape s :
  Main.openWaypointContentIndex (Main.clickButtonMiniMap s) = Main.openWaypointContentIndex s /\
  Main.lastMarkerIndex (Main.clickButtonMiniMap s) = Main.lastMarkerIndex s /\
  waypointsOf (Main.clickButtonMiniMap s) = waypointsOf s /\
  overlayOf (Main.clickButtonMiniMap s) = overlayOf s /\
  leafletOf (Main.clickButtonMiniMap s) = leafletOf s /\
  backwardEnabled (Main.clickButtonMiniMap s) = backwardEnabled s /\
  forwardEnabled (Main.clickButtonMiniMap s) = forwardEnabled s /\
  Main.screenreader (Main.clickButtonMiniMap s) = Main.screenreader s.
Proof.
  unfold Main.clickButtonMiniMap, NavigationBar.clickMiniMap.
  destruct (NavigationBar.minimap _) as [b|];
    [destruct (Button.click b) as [b' called]; destruct called|]; repeat split; reflexivity.
Qed.

Section SessionShapes.
Variable rt : Runtime.
Variable projection : Leaflet.Projection.

Lemma Main_reset_shape s :
  exists s',
    Main.reset rt projection s = Returned s' /\
    Main.openWaypointContentIndex s' = (-1)%Z /\
    Main.lastMarkerIndex s' = Main.lastMarkerIndex s /\
    waypointsOf s' = (Waypoint.setOpen false <$> waypointsOf s) /\
    buttonsFollowIndex s' /\
    overlayOf s' = ContentOverlay.hide (overlayOf s) /\
    miniMapButton s' = miniMapButton s /\
    miniMapShown s' = miniMapShown s /\
    Main.screenreader s' = Main.screenreader s /\
    moved (leafletOf s) (leafletOf s').
Proof.
  unfold Main.reset, Map.reset.
  match goal with |- context [GeoMap.reset _ _ ?g] =>
    destruct (GeoMap_reset_moved rt projection g) as (lm & -> & Hf)
  end.
  cbn [mbind outcome_bind mret outcome_ret].
  eexists. split; [reflexivity|].
  destruct (updateButtonDisabledStates_buttons (Main.withOpenWaypointContentIndex (-1) s))
    as [Hb Hfw].
  split; [reflexivity|]. split; [reflexivity|]. split; [reflexivity|].
  split; [split; [exact Hb|exact Hfw]|].
  split; [reflexivity|]. split; [reflexivity|]. split; [reflexivity|].
  split; [reflexivity|]. exact Hf.
Qed.

(** [setCurrentState] up to the opening of the waypoint the state names. *)
Lemma Main_setCurrentState_shape state s :
  exists s3,
    Main.setCurrentState rt projection state s =
      Main.openWaypointContentByIndex rt projection
        (ofOption (fun i => VNum (ofZ i)) (state ≫= stateOpenWaypointContentIndex))
        {| panTo := Some false |} s3 /\
    Main.openWaypointContentIndex s3 =
      default (-1)%Z (state ≫= stateOpenWaypointContentIndex) /\
    Main.lastMarkerIndex s3 = Main.lastMarkerIndex s /\
    waypointsOf s3 = waypointsOf s /\
    overlayOf s3 = overlayOf s /\
    buttonsFollowIndex s3 /\
    (Main.screenreader s3 = Main.screenreader s /\
     Main.openedContent s3 = Main.openedContent s) /\
    moved (leafletOf s) (leafletOf s3) /\
    ((miniMapButton s3 = miniMapButton s /\ miniMapShown s3 = miniMapShown s) \/
     (exists button,
        miniMapButton s = Some button /\
        miniMapButton s3 = Some (Button.forceState true false button).1 /\
        miniMapShown s3 = negb (miniMapShown s))).
Proof.
  unfold Main.setCurrentState.
  set (s1 := Main.updateButtonDisabledStates _).
  destruct (updateButtonDisabledStates_buttons
              (Main.withOpenWaypointContentIndex
                 (default (-1)%Z (state ≫= stateOpenWaypointContentIndex)) s)) as [Hb Hf].
  fold s1 in Hb, Hf.
  destruct (NavigationBar_setCurrentState_shape (state ≫= stateNavigationBar)
              (Main.navigationBar s1)) as [-> | (button & Hbutton & ->)].
  - match goal with |- context [Map.setCurrentState _ ?st ?m] =>
      destruct (Map_setCurrentState_moved rt st m) as (lm & -> & Hm)
    end.
    cbn [mbind outcome_bind mret outcome_ret].
    eexists. split; [reflexivity|]. split; [reflexivity|]. split; [reflexivity|].
    split; [reflexivity|]. split; [reflexivity|]. split; [split; [exact Hb|exact Hf]|].
    split; [split; reflexivity|]. split; [exact Hm|]. left. split; reflexivity.
  - match goal with |- context [Map.setCurrentState _ ?st ?m] =>
      destruct (Map_setCurrentState_moved rt st m) as (lm & -> & Hm)
    end.
    cbn [mbind outcome_bind mret outcome_ret].
    eexists. split; [reflexivity|]. split; [reflexivity|]. split; [reflexivity|].
    split; [reflexivity|]. split; [reflexivity|]. split; [split; [exact Hb|exact Hf]|].
    split; [split; reflexivity|]. split; [exact Hm|]. right. exists button.
    split; [exact Hbutton|]. split; reflexivity.
Qed.

Lemma run_preserves (I : Main.t -> Prop) (P : action -> Prop) :
  (forall a s s', P a -> I s -> Session.step rt projection a s = Returned s' -> I s') ->
  forall actions s s',
    Forall P actions -> I s -> Session.run rt projection actions s = Returned s' -> I s'.
Proof.
  intros Hstep actions. induction actions as [|a actions IH]; intros s s' HP HI Hr;
    cbn [Session.run] in Hr.
  - injection Hr as <-. exact HI.
  - apply Forall_cons in HP as [Ha HP].
    destruct (Session.step rt projection a s) as [s1|] eqn:Hs; [|discriminate].
    cbn [mbind outcome_bind] in Hr. exact (IH s1 s' HP (Hstep a s s1 Ha HI Hs) Hr).
Qed.

Lemma run_returns actions s : exists s', Session.run rt projection actions s = Returned s'.
Proof.
  revert s. induction actions as [|a actions IH]; intros s; cbn [Session.run].
  - now exists s.
  - destruct (step_effect rt projection a s) as (s1 & -> & _). apply IH.
Qed.

End SessionShapes.

Section Preservation.
Variable rt : Runtime.
Variable projection : Leaflet.Projection.
Variable I : Main.t -> Prop.
Variable P : action -> Prop.

Hypothesis I_opened : forall ref wp lm s,
  waypointsOf s !! ref = Some wp -> Waypoint.isOpen wp = false ->
  moved (leafletOf s) lm -> I s ->
  I (Session.withLeaflet (fun _ => lm) (opened ref wp s)).

Lemma openWaypointContent_preserves waypoint options s s' :
  I s -> Main.openWaypointContent rt projection waypoint options s = Returned s' -> I s'.
Proof.
  intros HI Hr.
  destruct (Main_openWaypointContent_shape rt projection waypoint options s)
    as [Hs | (ref & wp & lm & _ & Hw & Hc & Hs & Hm & _)];
    rewrite Hs in Hr; injection Hr as <-; [exact HI|].
  now apply I_opened.
Qed.

Lemma openWaypointContentByIndex_preserves index options s s' :
  I s -> Main.openWaypointContentByIndex rt projection index options s = Returned s' -> I s'.
Proof.
  intros HI Hr.
  destruct (Main_openWaypointContentByIndex_shape rt projection index options s)
    as [Hs | (ref & wp & lm & _ & Hw & Hc & Hs & Hm & _)];
    rewrite Hs in Hr; injection Hr as <-; [exact HI|].
  now apply I_opened.
Qed.

Hypothesis I_moved : forall lm s,
  moved (leafletOf s) lm -> I s -> I (Session.withLeaflet (fun _ => lm) s).
Hypothesis I_reset : forall s s', I s -> Main.reset rt projection s = Returned s' -> I s'.
Hypothesis I_click : forall s, I s -> I (Main.clickButtonMiniMap s).
Hypothesis I_set : forall state s s',
  P (SetCurrentState state) -> I s ->
  Main.setCurrentState rt projection state s = Returned s' -> I s'.
Hypothesis I_user : forall center zoom s,
  P (UserView center zoom) -> I s ->
  I (Session.withLeaflet (Leaflet.withView center zoom) s).
Hypothesis I_resize : forall width height s,
  I s ->
  I (Session.withLeaflet (Leaflet.withSize width height) s).

Lemma step_preserves a s s' :
  P a -> I s -> Session.step rt projection a s = Returned s' -> I s'.
Proof.
  intros Ha HI Hs. destruct a; cbn [Session.step] in Hs.
  - exact (openWaypointContentByIndex_preserves _ _ _ _ HI Hs).
  - exact (openWaypointContent_preserves _ _ _ _ HI Hs).
  - exact (openWaypointContent_preserves _ _ _ _ HI Hs).
  - destruct (Main_onMarkerFocus_moved rt projection waypoint s) as (lm & Hr & Hm).
    rewrite Hr in Hs. injection Hs as <-. now apply I_moved.
  - exact (openWaypointContentByIndex_preserves _ _ _ _ HI Hs).
  - exact (openWaypointContentByIndex_preserves _ _ _ _ HI Hs).
  - exact (I_reset _ _ HI Hs).
  - injection Hs as <-. now apply I_click.
  - exact (I_set _ _ _ Ha HI Hs).
  - injection Hs as <-. now apply I_user.
  - injection Hs as <-. now apply I_resize.
Qed.

Lemma session_preserves actions s s' :
  Forall P actions -> I s -> Session.run rt projection actions s = Returned s' -> I s'.
Proof. apply run_preserves. exact step_preserves. Qed.

End Preservation.

Section Invariants.
Variable rt : Runtime.
Variable projection : Leaflet.Projection.

Lemma Main_construct_shape params :
  constructible params = true ->
  exists s,
    Main.construct rt params = Returned s /\
    overlayOf s = ContentOverlay.construct /\
    Main.screenreader s = [] /\
    inBounds (leafletOf s) /\
    buttonsFollowIndex s.
Proof.
  intros Hok. apply andb_true_iff in Hok as [Hstyle Hmarkers].
  apply negb_true_iff in Hstyle.
  unfold Main.construct, Map.construct, GeoMap.construct. cbn [GeoMap.paramZoomLevel
    GeoMap.paramCoordinates GeoMap.paramWaypoints GeoMap.paramUnnamedWaypoint
    Map.paramWaypoints Map.paramZoomLevelDefault Map.paramMapStyle Map.paramPreviousState
    Map.paramUnnamedWaypoint].
  match goal with |- context [Util.sanitizeNumber rt ?v (VNum ?d) VUndefined VUndefined] =>
    destruct (sanitizeNumber_number_default rt v d VUndefined VUndefined) as [z ->]
  end.
  cbn [mbind outcome_bind mret outcome_ret].
  rewrite !sanitizeNumber_numbers. cbn [mbind outcome_bind mret outcome_ret].
  rewrite GeoMap_setView_returns. cbn [mbind outcome_bind mret outcome_ret].
  rewrite GeoMap_addWaypoints_returns, Hmarkers. cbn [mbind outcome_bind mret outcome_ret].
  match goal with |- context [GeoMap.setMapStyle ?st ?g] =>
    destruct (GeoMap_setMapStyle_fresh st g eq_refl Hstyle) as (m & v & -> & Hv & Hcenter & _)
  end.
  cbn [mbind outcome_bind mret outcome_ret].
  eexists. split; [reflexivity|].
  match goal with |- context [Main.updateButtonDisabledStates ?x] =>
    destruct (updateButtonDisabledStates_buttons x) as [Hb Hf]
  end.
  split; [reflexivity|]. split; [reflexivity|]. split; [|split; [exact Hb|exact Hf]].
  unfold inBounds. change (Leaflet.center (leafletOf _)) with (Leaflet.center m).
  rewrite Hcenter. apply inBounds_sanitized with (z := ofZ 0) (m := m).
Qed.

(** *** The navigation buttons *)

Lemma buttonsFollowIndex_opened ref wp lm s :
  waypointsOf s !! ref = Some wp -> Waypoint.isOpen wp = false ->
  moved (leafletOf s) lm -> buttonsFollowIndex s ->
  buttonsFollowIndex (Session.withLeaflet (fun _ => lm) (opened ref wp s)).
Proof. intros _ _ _ _. exact (opened_buttons ref wp s). Qed.

Lemma buttonsFollowIndex_step a s s' :
  buttonsFollowIndex s -> Session.step rt projection a s = Returned s' ->
  buttonsFollowIndex s'.
Proof.
  apply (step_preserves rt projection buttonsFollowIndex (fun _ => True)
           buttonsFollowIndex_opened); try (intros; assumption); [| | |exact Logic.I].
  - intros h h' _ Hr. destruct (Main_reset_shape rt projection h) as (x & Hx & _ & _ & _ & Hb & _).
    rewrite Hx in Hr. now injection Hr as <-.
  - intros h [Hb Hf]. destruct (Main_clickButtonMiniMap_shape h) as (Hi & Hl & _ & _ & _ & Hb' & Hf' & _).
    split; [now rewrite Hb', Hi|now rewrite Hf', Hi, Hl].
  - intros state h h' _ _ Hr.
    destruct (Main_setCurrentState_shape rt projection state h) as (s3 & Hs3 & _ & _ & _ & _ & Hb & _).
    rewrite Hs3 in Hr.
    exact (openWaypointContentByIndex_preserves rt projection buttonsFollowIndex
             buttonsFollowIndex_opened _ _ _ _ Hb Hr).
Qed.

Lemma buttonsFollowIndex_set state s s' :
  Main.setCurrentState rt projection state s = Returned s' -> buttonsFollowIndex s'.
Proof.
  intros Hr.
  destruct (Main_setCurrentState_shape rt projection state s) as (s3 & Hs3 & _ & _ & _ & _ & Hb & _).
  rewrite Hs3 in Hr.
  exact (openWaypointContentByIndex_preserves rt projection buttonsFollowIndex
           buttonsFollowIndex_opened _ _ _ _ Hb Hr).
Qed.

(** *** The overlay *)

Lemma allClosed_closed ws : allClosed (Waypoint.setOpen false <$> ws).
Proof.
  intros i w Hw. rewrite list_lookup_fmap in Hw.
  destruct (ws !! i); [|discriminate]. cbn in Hw. now injection Hw as <-.
Qed.

Lemma overlayShowsOpen_same s s' :
  overlayOf s' = overlayOf s -> waypointsOf s' = waypointsOf s ->
  overlayShowsOpen s -> overlayShowsOpen s'.
Proof. unfold overlayShowsOpen. now intros -> ->. Qed.

Lemma overlayShowsOpen_opened ref wp lm s :
  waypointsOf s !! ref = Some wp -> Waypoint.isOpen wp = false ->
  moved (leafletOf s) lm -> overlayShowsOpen s ->
  overlayShowsOpen (Session.withLeaflet (fun _ => lm) (opened ref wp s)).
Proof.
  intros Hw _ _ _. unfold overlayShowsOpen.
  change (overlayOf (Session.withLeaflet (fun _ => lm) (opened ref wp s)))
    with {| ContentOverlay.hidden := false; ContentOverlay.content := Some ref |}.
  cbn [ContentOverlay.hidden ContentOverlay.content].
  exists ref, (Waypoint.setOpen true wp). split; [reflexivity|]. split; [|reflexivity].
  change (waypointsOf (Session.withLeaflet (fun _ => lm) (opened ref wp s)))
    with (onlyOpen ref (waypointsOf s)).
  rewrite lookup_onlyOpen, Hw. cbn. now rewrite Nat.eqb_refl.
Qed.

Lemma overlayShowsOpen_set state s s' :
  overlayShowsOpen s -> Main.setCurrentState rt projection state s = Returned s' ->
  overlayShowsOpen s'.
Proof.
  intros Ho Hr.
  destruct (Main_setCurrentState_shape rt projection state s)
    as (s3 & Hs3 & _ & _ & Hw & Hov & _).
  rewrite Hs3 in Hr.
  exact (openWaypointContentByIndex_preserves rt projection overlayShowsOpen
           overlayShowsOpen_opened _ _ _ _ (overlayShowsOpen_same _ _ Hov Hw Ho) Hr).
Qed.

Lemma overlayShowsOpen_step a s s' :
  overlayShowsOpen s -> Session.step rt projection a s = Returned s' ->
  overlayShowsOpen s'.
Proof.
  apply (step_preserves rt projection overlayShowsOpen (fun _ => True)
           overlayShowsOpen_opened); try (intros; assumption); [| | |exact Logic.I].
  - intros h h' _ Hr.
    destruct (Main_reset_shape rt projection h) as (x & Hx & _ & _ & Hw & _ & Hov & _).
    rewrite Hx in Hr. injection Hr as <-. unfold overlayShowsOpen. rewrite Hov, Hw.
    apply allClosed_closed.
  - intros h Ho. destruct (Main_clickButtonMiniMap_shape h) as (_ & _ & Hw & Hov & _).
    exact (overlayShowsOpen_same _ _ Hov Hw Ho).
  - intros state h h' _. apply overlayShowsOpen_set.
Qed.

(** *** The open index *)

Lemma wellFormed_opened ref wp lm s :
  wellFormed s -> wellFormed (Session.withLeaflet (fun _ => lm) (opened ref wp s)).
Proof.
  apply wellFormed_reopened; [reflexivity|]. right; left. now exists ref.
Qed.

Lemma indexNamesOpen_opened ref wp lm s :
  wellFormed s -> waypointsOf s !! ref = Some wp ->
  indexNamesOpen (Session.withLeaflet (fun _ => lm) (opened ref wp s)).
Proof.
  intros Hwf Hw. unfold indexNamesOpen.
  change (Main.openWaypointContentIndex (Session.withLeaflet (fun _ => lm) (opened ref wp s)))
    with (Waypoint.getIndex wp).
  rewrite (proj2 Hwf _ _ Hw).
  destruct (Z.eqb_spec (Z.of_nat ref) (-1)); [lia|]. split; [lia|].
  rewrite Nat2Z.id. exists (Waypoint.setOpen true wp). split; [|reflexivity].
  change (waypointsOf (Session.withLeaflet (fun _ => lm) (opened ref wp s)))
    with (onlyOpen ref (waypointsOf s)).
  rewrite lookup_onlyOpen, Hw. cbn. now rewrite Nat.eqb_refl.
Qed.

Lemma indexed_opened count ref wp lm s :
  waypointsOf s !! ref = Some wp -> Waypoint.isOpen wp = false ->
  moved (leafletOf s) lm ->
  wellFormed s /\ length (waypointsOf s) = count /\ indexNamesOpen s ->
  wellFormed (Session.withLeaflet (fun _ => lm) (opened ref wp s)) /\
  length (waypointsOf (Session.withLeaflet (fun _ => lm) (opened ref wp s))) = count /\
  indexNamesOpen (Session.withLeaflet (fun _ => lm) (opened ref wp s)).
Proof.
  intros Hw _ _ (Hwf & Hlen & _). split; [now apply wellFormed_opened|]. split.
  - change (length (onlyOpen ref (waypointsOf s)) = count). unfold onlyOpen.
    now rewrite length_imap.
  - now apply indexNamesOpen_opened.
Qed.

Lemma indexed_set count state s s' :
  namesWaypoint count state ->
  wellFormed s /\ length (waypointsOf s) = count /\ indexNamesOpen s ->
  Main.setCurrentState rt projection state s = Returned s' ->
  wellFormed s' /\ length (waypointsOf s') = count /\ indexNamesOpen s'.
Proof.
  intros (z & Hz & Hrange) (Hwf & Hlen & _) Hr.
  destruct (Main_setCurrentState_shape rt projection state s)
    as (s3 & Hs3 & Hi & Hl & Hw & _).
  rewrite Hs3, Hz in Hr. rewrite Hz in Hi. cbn [ofOption default from_option id] in Hr, Hi.
  assert (Hwf3 : wellFormed s3).
  { apply (wellFormed_reopened s); [assumption|now rewrite Hw; left|assumption]. }
  assert (Hlen3 : length (waypointsOf s3) = count) by now rewrite Hw.
  destruct (lookup_lt_is_Some_2 (waypointsOf s3) (Z.to_nat z)) as [w Hwz]; [lia|].
  rewrite (openWaypointContentByIndex_some _ _ _ _ _ _
             (getWaypointByIndex_position _ _ _ Hwf3 Hwz (proj1 Hrange))) in Hr.
  destruct (Waypoint.isOpen w) eqn:Ho.
  - rewrite (Main_openWaypointContent_open rt projection _ _ _ _ Hwz Ho) in Hr.
    injection Hr as <-. split; [assumption|]. split; [assumption|].
    unfold indexNamesOpen. rewrite Hi. destruct (Z.eqb_spec z (-1)); [lia|].
    split; [lia|]. now exists w.
  - destruct (Main_openWaypointContent_opened rt projection _ _ {| panTo := Some false |} _ Hwz Ho)
      as (lm & Hopen & Hm & _).
    rewrite Hopen in Hr. injection Hr as <-.
    split; [now apply wellFormed_opened|]. split.
    + change (length (onlyOpen (Z.to_nat z) (waypointsOf s3)) = count). unfold onlyOpen.
      now rewrite length_imap.
    + now apply indexNamesOpen_opened.
Qed.

Lemma indexed_step count a s s' :
  setsNamedWaypoint count a ->
  wellFormed s /\ length (waypointsOf s) = count /\ indexNamesOpen s ->
  Session.step rt projection a s = Returned s' ->
  wellFormed s' /\ length (waypointsOf s') = count /\ indexNamesOpen s'.
Proof.
  apply (step_preserves rt projection
           (fun x => wellFormed x /\ length (waypointsOf x) = count /\ indexNamesOpen x)
           (setsNamedWaypoint count) (indexed_opened count)); try (intros; assumption).
  - intros h h' (Hwf & Hlen & _) Hr.
    destruct (Main_reset_shape rt projection h) as (x & Hx & Hi & Hl & Hw & _).
    rewrite Hx in Hr. injection Hr as <-. split; [|split].
    + apply (wellFormed_reopened h); [assumption| |assumption]. right; right. exact Hw.
    + now rewrite Hw, length_fmap.
    + unfold indexNamesOpen. rewrite Hi, Hw. apply allClosed_closed.
  - intros h (Hwf & Hlen & Hn).
    destruct (Main_clickButtonMiniMap_shape h) as (Hi & Hl & Hw & _). split; [|split].
    + apply (wellFormed_reopened h); [assumption| |assumption]. left. exact Hw.
    + now rewrite Hw.
    + unfold indexNamesOpen in *. now rewrite Hi, Hw.
  - intros state h h'. apply indexed_set.
Qed.

(** *** The mini map and its button *)

Lemma miniMapInSync_same s s' :
  miniMapButton s' = miniMapButton s -> miniMapShown s' = miniMapShown s ->
  miniMapInSync s /\ miniMapButtonToggles s -> miniMapInSync s' /\ miniMapButtonToggles s'.
Proof.
  unfold miniMapInSync, miniMapButtonToggles, miniMapButton. now intros -> ->.
Qed.

Lemma miniMapInSync_opened ref wp lm s :
  waypointsOf s !! ref = Some wp -> Waypoint.isOpen wp = false ->
  moved (leafletOf s) lm ->
  miniMapInSync s /\ miniMapButtonToggles s ->
  miniMapInSync (Session.withLeaflet (fun _ => lm) (opened ref wp s)) /\
  miniMapButtonToggles (Session.withLeaflet (fun _ => lm) (opened ref wp s)).
Proof. intros _ _ _. now apply miniMapInSync_same. Qed.



(** Setting a state on a story map whose mini map is off and whose button
    is an enabled, inactive toggle. *)
Lemma miniMapInSync_set_off state s t t' :
  miniMapOff s t -> Main.setCurrentState rt projection state t = Returned t' ->
  miniMapInSync t' /\ miniMapButtonToggles t'.
Proof.
  intros [Hoff Hbtn] Hr.
  destruct (Main_setCurrentState_shape rt projection state t)
    as (s3 & Hs3 & _ & _ & _ & _ & _ & _ & _ & Hmini).
  rewrite Hs3 in Hr.
  apply (openWaypointContentByIndex_preserves rt projection
           (fun x => miniMapInSync x /\ miniMapButtonToggles x) miniMapInSync_opened
           _ _ _ _) in Hr; [exact Hr|].
  unfold miniMapInSync, miniMapButtonToggles.
  fold (miniMapButton s3). fold (miniMapButton t) in Hbtn.
  destruct Hmini as [[Hb Hm] | (button & Hb & Hb3 & Hm)].
  - rewrite Hb, Hm, Hoff. destruct (miniMapButton t) as [b|].
    + destruct Hbtn as (Hty & Hact & _). split; [exact Hact|]. now intros ? [= <-].
    + split; [reflexivity|discriminate].
  - rewrite Hb3, Hm, Hoff. rewrite Hb in Hbtn. destruct Hbtn as (Hty & Hact & Hdis).
    unfold Button.forceState, Button.toggle, Button.activate. rewrite Hty, Hdis. cbn.
    split; [reflexivity|]. now intros ? [= <-].
Qed.

(** *** The view *)

Lemma inBounds_opened ref wp lm s :
  waypointsOf s !! ref = Some wp -> Waypoint.isOpen wp = false ->
  moved (leafletOf s) lm -> inBounds (leafletOf s) ->
  inBounds (leafletOf (Session.withLeaflet (fun _ => lm) (opened ref wp s))).
Proof. intros _ _ [_ Hm] Hb. exact (Hm Hb). Qed.

Lemma inBounds_set state s s' :
  inBounds (leafletOf s) -> Main.setCurrentState rt projection state s = Returned s' ->
  inBounds (leafletOf s').
Proof.
  intros Hb Hr.
  destruct (Main_setCurrentState_shape rt projection state s)
    as (s3 & Hs3 & _ & _ & _ & _ & _ & _ & [_ Hm] & _).
  rewrite Hs3 in Hr.
  exact (openWaypointContentByIndex_preserves rt projection (fun x => inBounds (leafletOf x))
           inBounds_opened _ _ _ _ (Hm Hb) Hr).
Qed.

Lemma inBounds_step a s s' :
  notUserView a -> inBounds (leafletOf s) -> Session.step rt projection a s = Returned s' ->
  inBounds (leafletOf s').
Proof.
  apply (step_preserves rt projection (fun x => inBounds (leafletOf x)) notUserView
           inBounds_opened); try (intros; assumption).
  - intros lm h [_ Hm] Hb. exact (Hm Hb).
  - intros h h' Hb Hr.
    destruct (Main_reset_shape rt projection h) as (x & Hx & _ & _ & _ & _ & _ & _ & _ & _ & [_ Hm]).
    rewrite Hx in Hr. injection Hr as <-. exact (Hm Hb).
  - intros h Hb. destruct (Main_clickButtonMiniMap_shape h) as (_ & _ & _ & _ & Hl & _).
    now rewrite Hl.
  - intros state h h' _. apply inBounds_set.
  - intros center zoom h [].
Qed.

(** *** The waypoints themselves *)

Lemma sameWaypoint_refl w : sameWaypoint w w.
Proof. now repeat split. Qed.

Lemma sameWaypoint_trans a b c : sameWaypoint a b -> sameWaypoint b c -> sameWaypoint a c.
Proof.
  intros (H1 & H2 & H3 & H4 & H5) (K1 & K2 & K3 & K4 & K5).
  repeat split; congruence.
Qed.

Lemma reopened_sameWaypoint ws ws' i w' :
  reopened ws ws' -> ws' !! i = Some w' ->
  exists w, ws !! i = Some w /\ sameWaypoint w w'.
Proof.
  intros [-> | [[ref ->] | ->]] Hw.
  - exists w'. split; [assumption|apply sameWaypoint_refl].
  - rewrite lookup_onlyOpen in Hw. destruct (ws !! i) as [w|]; [|discriminate].
    cbn in Hw. injection Hw as <-. exists w. now repeat split.
  - rewrite list_lookup_fmap in Hw. destruct (ws !! i) as [w|]; [|discriminate].
    cbn in Hw. injection Hw as <-. exists w. now repeat split.
Qed.

Lemma run_sameWaypoint actions s s' i w' :
  Session.run rt projection actions s = Returned s' -> waypointsOf s' !! i = Some w' ->
  exists w, waypointsOf s !! i = Some w /\ sameWaypoint w w'.
Proof.
  revert s. induction actions as [|a actions IH]; intros s Hr Hw; cbn [Session.run] in Hr.
  - injection Hr as <-. exists w'. split; [assumption|apply sameWaypoint_refl].
  - destruct (step_effect rt projection a s) as (s1 & Hs & _ & Hre). rewrite Hs in Hr.
    cbn [mbind outcome_bind] in Hr.
    destruct (IH s1 Hr Hw) as (w1 & Hw1 & Hsame1).
    destruct (reopened_sameWaypoint _ _ _ _ Hre Hw1) as (w & Hw0 & Hsame).
    exists w. split; [assumption|]. eapply sameWaypoint_trans; eassumption.
Qed.

End Invariants.

(** ** Replacing in a text *)

Lemma substitution_plain matched before after template :
  Util.includes "$" template = false ->
  substitution matched before after template = template.
Proof.
  induction template as [|c rest IH]; [reflexivity|].
  cbn [Util.includes]. intros Hplain. apply orb_false_iff in Hplain as [Hc Hrest].
  specialize (IH Hrest).
  destruct c as [[|] [|] [|] [|] [|] [|] [|] [|]]; try discriminate Hc;
    cbn [substitution]; now rewrite IH.
Qed.

Lemma startsWith_parts pattern : forall s,
  startsWith pattern s = true ->
  s = (pattern ++ dropString (String.length pattern) s)%string.
Proof.
  induction pattern as [|a pattern IH]; intros s Hs; [reflexivity|].
  destruct s as [|b s]; [discriminate|]. cbn in Hs.
  apply andb_true_iff in Hs as [Hab Hs]. apply Ascii.eqb_eq in Hab as ->.
  change (String b s = String b (pattern ++ dropString (String.length pattern) s))%string.
  f_equal. exact (IH s Hs).
Qed.

Lemma findFirst_parts pattern s : forall before after,
  findFirst pattern s = Some (before, after) ->
  s = (before ++ pattern ++ after)%string.
Proof.
  induction s as [|c rest IH]; intros before after Hfind.
  - cbn in Hfind. destruct (startsWith pattern "") eqn:Hs; [|discriminate].
    injection Hfind as <- <-. exact (startsWith_parts _ _ Hs).
  - cbn [findFirst] in Hfind. destruct (startsWith pattern (String c rest)) eqn:Hs.
    + injection Hfind as <- <-. exact (startsWith_parts _ _ Hs).
    + destruct (findFirst pattern rest) as [[before' after']|]; [|discriminate].
      injection Hfind as <- <-.
      change (String c rest = String c (before' ++ pattern ++ after'))%string.
      f_equal. exact (IH before' after' eq_refl).
Qed.

Lemma append_empty_r s : (s ++ "")%string = s.
Proof.
  induction s as [|c s IH]; [reflexivity|].
  change (String c (s ++ "") = String c s)%string. now rewrite IH.
Qed.

(** ** Sessions of a story map *)

Section Sessions.
Variable rt : Runtime.
Variable projection : Leaflet.Projection.

Lemma run_length actions s s' :
  Session.run rt projection actions s = Returned s' ->
  length (waypointsOf s') = length (waypointsOf s).
Proof.
  revert s. induction actions as [|a actions IH]; intros s Hr; cbn [Session.run] in Hr.
  - now injection Hr as <-.
  - destruct (step_effect rt projection a s) as (s1 & Hs & _ & Hre). rewrite Hs in Hr.
    cbn [mbind outcome_bind] in Hr. rewrite (IH _ Hr). now apply reopened_length.
Qed.

(** The story map as constructed: the main component is built, then the
    previous state is set. *)
Lemma StoryMap_construct_keeps params :
  constructible params = true ->
  exists t s0,
    Main.construct rt params = Returned t /\
    Main.setCurrentState rt projection (Main.paramPreviousState params) t = Returned s0 /\
    StoryMap.construct rt projection params = Returned s0 /\
    wellFormed t /\ allClosed (waypointsOf t) /\
    Main.openWaypointContentIndex t = (-1)%Z /\
    wellFormed s0 /\ atMostOneOpen (waypointsOf s0) /\
    length (waypointsOf s0) = length (Main.paramWaypoints params) /\
    buttonsFollowIndex s0 /\ overlayShowsOpen s0 /\ inBounds (leafletOf s0) /\
    miniMapInSync s0 /\ miniMapButtonToggles s0.
Proof.
  intros Hok.
  destruct (Main_construct_shape rt params Hok) as (t & Ht & Hov & _ & Hb & _).
  destruct (Main_construct_wellFormed rt _ _ Ht) as (Hwf & Hcl & Hlen).
  destruct (Main_setCurrentState_effect rt projection (Main.paramPreviousState params) t)
    as (s0 & Hs0 & Hl & Hre).
  destruct (StoryMap_construct_invariants rt projection params Hok)
    as (s0' & Hc & Hwf0 & Hone).
  assert (Hsame : s0' = s0).
  { unfold StoryMap.construct in Hc. rewrite Ht in Hc. cbn [mbind outcome_bind] in Hc.
    rewrite Hs0 in Hc. now injection Hc. }
  subst s0'.
  exists t, s0. split; [exact Ht|]. split; [exact Hs0|]. split; [exact Hc|].
  split; [exact Hwf|]. split; [exact Hcl|]. split.
  { destruct (Main_construct_returns rt params Hok) as (t' & Ht' & Hi & _).
    rewrite Ht in Ht'. now injection Ht' as <-. }
  split; [exact Hwf0|]. split; [exact Hone|]. split.
  { now rewrite (reopened_length _ _ Hre). }
  split; [exact (buttonsFollowIndex_set rt projection _ _ _ Hs0)|]. split.
  { refine (overlayShowsOpen_set rt projection _ t s0 _ Hs0).
    unfold overlayShowsOpen. now rewrite Hov. }
  split; [exact (inBounds_set rt projection _ _ _ Hb Hs0)|].
  refine (miniMapInSync_set_off rt projection _ t t s0 _ Hs0).
  apply (Main_construct_miniMapOff rt params); [exact Ht|].
  destruct (Main_construct_returns rt params Hok)
    as (t' & Ht' & _ & _ & _ & _ & _ & _ & _ & _ & Hm).
  rewrite Ht in Ht'. injection Ht' as <-. intros Hu. now rewrite Hm, Hu.
Qed.

(** X1.  A story map whose configuration can be constructed (the map
    style is not a name that every object inherits, and no waypoint has a
    coordinate that is NaN) is constructed, and whatever is done to it
    afterwards, the backward control is enabled exactly when the open index
    is above 0 and the forward control exactly when it is below the index of
    the last configured waypoint. *)
Theorem navigation_buttons_follow_the_open_index params actions :
  constructible params = true ->
  exists s0 s,
    StoryMap.construct rt projection params = Returned s0 /\
    Session.run rt projection actions s0 = Returned s /\
    backwardEnabled s = (0 <? Main.openWaypointContentIndex s)%Z /\
    forwardEnabled s =
      (Main.openWaypointContentIndex s <? Z.of_nat (length (Main.paramWaypoints params)) - 1)%Z.
Proof.
  intros Hok.
  destruct (StoryMap_construct_keeps params Hok)
    as (t & s0 & _ & _ & Hc & _ & _ & _ & Hwf0 & Hone & Hlen & Hb & _).
  destruct (run_invariants rt projection actions s0 Hwf0 Hone) as (s & Hr & [Hlast _] & _).
  exists s0, s. split; [exact Hc|]. split; [exact Hr|].
  assert (Hbs : buttonsFollowIndex s).
  { refine (run_preserves rt projection buttonsFollowIndex (fun _ => True) _
              actions s0 s _ Hb Hr).
    - intros a h h' _. apply buttonsFollowIndex_step.
    - apply Forall_forall. intros; exact Logic.I. }
  destruct Hbs as [Hback Hfwd]. split; [exact Hback|].
  now rewrite Hfwd, Hlast, (run_length _ _ _ Hr), Hlen.
Qed.

(** X2.  A story map whose configuration can be constructed (the map
    style is not a name that every object inherits, and no waypoint has a
    coordinate that is NaN) is constructed, and whatever is done to it
    afterwards, the content overlay is hidden exactly when no waypoint is
    open; while it is shown, the content it holds is that of the waypoint
    that is open. *)
Theorem overlay_shows_the_open_waypoint params actions :
  constructible params = true ->
  exists s0 s,
    StoryMap.construct rt projection params = Returned s0 /\
    Session.run rt projection actions s0 = Returned s /\
    (ContentOverlay.hidden (overlayOf s) = true <-> allClosed (waypointsOf s)) /\
    (ContentOverlay.hidden (overlayOf s) = false ->
     exists ref w,
       ContentOverlay.content (overlayOf s) = Some ref /\
       waypointsOf s !! ref = Some w /\ Waypoint.isOpen w = true /\
       forall i w', waypointsOf s !! i = Some w' -> Waypoint.isOpen w' = true -> i = ref).
Proof.
  intros Hok.
  destruct (StoryMap_construct_keeps params Hok)
    as (t & s0 & _ & _ & Hc & _ & _ & _ & Hwf0 & Hone0 & _ & _ & Hov & _).
  destruct (run_invariants rt projection actions s0 Hwf0 Hone0) as (s & Hr & _ & Hone).
  exists s0, s. split; [exact Hc|]. split; [exact Hr|].
  assert (Hs : overlayShowsOpen s).
  { refine (run_preserves rt projection overlayShowsOpen (fun _ => True) _
              actions s0 s _ Hov Hr).
    - intros a h h' _. apply overlayShowsOpen_step.
    - apply Forall_forall. intros; exact Logic.I. }
  unfold overlayShowsOpen in Hs.
  destruct (ContentOverlay.hidden (overlayOf s)).
  - split; [now split|discriminate].
  - destruct Hs as (ref & w & Hcontent & Hw & Ho). split.
    + split; [discriminate|]. intros Hcl. rewrite (Hcl _ _ Hw) in Ho. discriminate.
    + intros _. exists ref, w. repeat split; try assumption.
      intros i w' Hw' Ho'. exact (Hone _ _ _ _ Hw' Hw Ho' Ho).
Qed.

(** X3.  A story map whose configuration can be constructed (the map
    style is not a name that every object inherits, and no waypoint has a
    coordinate that is NaN) is constructed, and whatever is done to it
    afterwards, its waypoints are those of the configuration, in their
    order: none is added, removed or moved, and each keeps its index, id,
    title and coordinates; the title is the configured one, or the
    dictionary's name for an unnamed waypoint when none is configured. *)
Theorem waypoints_stay_as_configured params actions :
  constructible params = true ->
  exists s0 s,
    StoryMap.construct rt projection params = Returned s0 /\
    Session.run rt projection actions s0 = Returned s /\
    length (waypointsOf s) = length (Main.paramWaypoints params) /\
    forall i w,
      waypointsOf s !! i = Some w ->
      exists p,
        Main.paramWaypoints params !! i = Some p /\
        Waypoint.getIndex w = Z.of_nat i /\
        Waypoint.getId w = wpId p /\
        Waypoint.getTitle w =
          (if String.eqb (wpTitle p) "" then Main.paramUnnamedWaypoint params else wpTitle p) /\
        Waypoint.latitude w = wpLatitude p /\
        Waypoint.longitude w = wpLongitude p.
Proof.
  intros Hok.
  destruct (StoryMap_construct_keeps params Hok)
    as (t & s0 & Ht & Hs0 & Hc & _ & _ & _ & Hwf0 & Hone0 & Hlen & _).
  destruct (run_returns rt projection actions s0) as (s & Hr).
  exists s0, s. split; [exact Hc|]. split; [exact Hr|].
  split; [now rewrite (run_length _ _ _ Hr)|].
  intros i w Hw.
  destruct (run_sameWaypoint rt projection _ _ _ _ _ Hr Hw) as (w0 & Hw0 & Hsame0).
  destruct (Main_setCurrentState_effect rt projection (Main.paramPreviousState params) t)
    as (s0' & Hs0' & _ & Hre).
  rewrite Hs0 in Hs0'. injection Hs0' as <-.
  destruct (reopened_sameWaypoint _ _ _ _ Hre Hw0) as (wt & Hwt & Hsamet).
  destruct (Main_construct_returns rt params Hok) as (t' & Ht' & _ & _ & Hws & _).
  rewrite Ht in Ht'. injection Ht' as <-.
  rewrite Hws, list_lookup_imap in Hwt.
  destruct (Main.paramWaypoints params !! i) as [p|]; [|discriminate].
  cbn in Hwt. injection Hwt as <-. exists p. split; [reflexivity|].
  destruct (sameWaypoint_trans _ _ _ Hsamet Hsame0) as (H1 & H2 & H3 & H4 & H5).
  rewrite H1, H2, H3, H4, H5. now repeat split.
Qed.

(** X4.  For a configuration that can be constructed (the map style is
    not a name that every object inherits, and no waypoint has a coordinate
    that is NaN), and as long as the user does not drag or zoom the map, the
    centre of the view stays within the bounds of latitude and longitude,
    -90 to 90 and -180 to 180: at the construction and after every operation
    of the story map, a resize of its element included. *)
Theorem view_stays_within_bounds params actions :
  constructible params = true ->
  Forall notUserView actions ->
  exists s0 s,
    StoryMap.construct rt projection params = Returned s0 /\
    Session.run rt projection actions s0 = Returned s /\
    within (Leaflet.lat (Leaflet.center (leafletOf s))) (ofZ (-90)) (ofZ 90) /\
    within (Leaflet.lng (Leaflet.center (leafletOf s))) (ofZ (-180)) (ofZ 180).
Proof.
  intros Hok Hactions.
  destruct (StoryMap_construct_keeps params Hok)
    as (t & s0 & _ & _ & Hc & _ & _ & _ & _ & _ & _ & _ & _ & Hb & _).
  destruct (run_returns rt projection actions s0) as (s & Hr).
  exists s0, s. split; [exact Hc|]. split; [exact Hr|].
  exact (run_preserves rt projection (fun x => inBounds (leafletOf x)) notUserView
           (inBounds_step rt projection) actions s0 s Hactions Hb Hr).
Qed.


Lemma indexed_set_fresh count state s s' :
  state ≫= stateOpenWaypointContentIndex = None ->
  wellFormed s -> length (waypointsOf s) = count -> allClosed (waypointsOf s) ->
  Main.setCurrentState rt projection state s = Returned s' ->
  wellFormed s' /\ length (waypointsOf s') = count /\ indexNamesOpen s'.
Proof.
  intros Hnone Hwf Hlen Hcl Hr.
  destruct (Main_setCurrentState_shape rt projection state s)
    as (s3 & Hs3 & Hi & Hl & Hw & _).
  rewrite Hs3, Hnone in Hr. rewrite Hnone in Hi. cbn [ofOption default from_option id] in Hr, Hi.
  rewrite openWaypointContentByIndex_none in Hr by reflexivity. injection Hr as <-.
  split; [|split].
  - apply (wellFormed_reopened s); [assumption|now rewrite Hw; left|assumption].
  - now rewrite Hw.
  - unfold indexNamesOpen. now rewrite Hi, Hw.
Qed.

(** X6.  On a story map whose configuration can be constructed (the map
    style is not a name that every object inherits, and no waypoint has a
    coordinate that is NaN), that starts from no previous state, or from one
    that names no open waypoint or names a configured one, and on which no
    state is set later but one that names a configured waypoint, the open
    index always tells which waypoint is open: it is -1 exactly when all
    waypoints are closed, and otherwise it is the index of the one waypoint
    that is open. *)
Theorem open_index_names_the_open_waypoint params actions :
  constructible params = true ->
  resumable (length (Main.paramWaypoints params)) (Main.paramPreviousState params) ->
  Forall (setsNamedWaypoint (length (Main.paramWaypoints params))) actions ->
  exists s0 s,
    StoryMap.construct rt projection params = Returned s0 /\
    Session.run rt projection actions s0 = Returned s /\
    (Main.openWaypointContentIndex s = (-1)%Z <-> allClosed (waypointsOf s)) /\
    (Main.openWaypointContentIndex s <> (-1)%Z ->
     exists w,
       waypointsOf s !! Z.to_nat (Main.openWaypointContentIndex s) = Some w /\
       Waypoint.getIndex w = Main.openWaypointContentIndex s /\
       Waypoint.isOpen w = true /\
       forall i w', waypointsOf s !! i = Some w' -> Waypoint.isOpen w' = true ->
                    i = Z.to_nat (Main.openWaypointContentIndex s)).
Proof.
  intros Hok Hprev Hactions.
  destruct (StoryMap_construct_keeps params Hok)
    as (t & s0 & Ht & Hs0 & Hc & Hwft & Hclt & Hit & Hwf0 & Hone0 & _).
  destruct (Main_construct_wellFormed rt _ _ Ht) as (_ & _ & Hlent).
  destruct (run_invariants rt projection actions s0 Hwf0 Hone0) as (s & Hr & _ & Hone).
  exists s0, s. split; [exact Hc|]. split; [exact Hr|].
  assert (H0 : wellFormed s0 /\
               length (waypointsOf s0) = length (Main.paramWaypoints params) /\
               indexNamesOpen s0).
  { destruct Hprev as [Hnone | Hnames].
    - exact (indexed_set_fresh _ _ _ _ Hnone Hwft Hlent Hclt Hs0).
    - refine (indexed_set rt projection _ _ t s0 Hnames _ Hs0).
      split; [exact Hwft|]. split; [exact Hlent|]. unfold indexNamesOpen. now rewrite Hit. }
  destruct (run_preserves rt projection _ _
              (indexed_step rt projection (length (Main.paramWaypoints params)))
              actions s0 s Hactions H0 Hr) as (Hwf & _ & Hnames).
  unfold indexNamesOpen in Hnames.
  destruct (Z.eqb_spec (Main.openWaypointContentIndex s) (-1)) as [He | Hne].
  - split; [now split|]. intros Hn. now destruct Hn.
  - destruct Hnames as (Hpos & w & Hw & Ho). split.
    + split; [intros He; now destruct Hne|].
      intros Hcl. rewrite (Hcl _ _ Hw) in Ho. discriminate.
    + intros _. exists w. split; [exact Hw|]. split.
      * rewrite (proj2 Hwf _ _ Hw). lia.
      * split; [exact Ho|]. intros i w' Hw' Ho'. exact (Hone _ _ _ _ Hw' Hw Ho' Ho).
Qed.

(** X7.  With a waypoint other than the last one open, and the open index
    naming it, going forward opens the next waypoint and going backward
    then opens the former one again: the open index is what it was, the
    same waypoints are open as before, and the controls are enabled as the
    index tells. *)
Theorem goForward_then_goBackward s :
  wellFormed s -> atMostOneOpen (waypointsOf s) -> indexNamesOpen s ->
  (0 <= Main.openWaypointContentIndex s < Main.lastMarkerIndex s)%Z ->
  exists s1 s2,
    Main.goForward rt projection s = Returned s1 /\
    Main.openWaypointContentIndex s1 = (Main.openWaypointContentIndex s + 1)%Z /\
    Main.goBackward rt projection s1 = Returned s2 /\
    Main.openWaypointContentIndex s2 = Main.openWaypointContentIndex s /\
    length (waypointsOf s2) = length (waypointsOf s) /\
    (forall i w, waypointsOf s !! i = Some w ->
       exists w2, waypointsOf s2 !! i = Some w2 /\ Waypoint.isOpen w2 = Waypoint.isOpen w) /\
    backwardEnabled s2 = (0 <? Main.openWaypointContentIndex s)%Z /\
    forwardEnabled s2 = true.
Proof.
  intros Hwf Hone Hnames Hrange.
  set (z := Main.openWaypointContentIndex s) in *.
  pose proof (proj1 Hwf) as Hlast.
  unfold indexNamesOpen in Hnames. fold z in Hnames.
  destruct (Z.eqb_spec z (-1)) as [|_]; [lia|]. destruct Hnames as (_ & w & Hw & Ho).
  destruct (lookup_lt_is_Some_2 (waypointsOf s) (Z.to_nat (z + 1))) as [w1 Hw1]; [lia|].
  assert (Hc1 : Waypoint.isOpen w1 = false).
  { destruct (Waypoint.isOpen w1) eqn:Ho1; [|reflexivity].
    pose proof (Hone _ _ _ _ Hw1 Hw Ho1 Ho). lia. }
  destruct (openWaypointContentByIndex_valid rt projection s (z + 1) w1 {| panTo := None |}
              Hwf ltac:(lia) Hw1 Hc1)
    as (s1 & Hs1 & Hi1 & Hl1 & Hws1 & _ & _ & Hwf1).
  assert (Hwz1 : waypointsOf s1 !! Z.to_nat z = Some (Waypoint.setOpen false w)).
  { rewrite Hws1, lookup_onlyOpen, Hw. cbn.
    destruct (Nat.eqb_spec (Z.to_nat z) (Z.to_nat (z + 1))); [lia|reflexivity]. }
  destruct (openWaypointContentByIndex_valid rt projection s1 z _ {| panTo := None |}
              Hwf1 ltac:(lia) Hwz1 eq_refl)
    as (s2 & Hs2 & Hi2 & Hl2 & Hws2 & Hb2 & Hf2 & _).
  exists s1, s2. split; [exact Hs1|]. split; [exact Hi1|]. split.
  { unfold Main.goBackward. rewrite Hi1. now replace (z + 1 - 1)%Z with z by lia. }
  split; [exact Hi2|]. split.
  { rewrite Hws2, Hws1. unfold onlyOpen. now rewrite !length_imap. }
  split.
  { intros i wi Hwi. rewrite Hws2, Hws1, !lookup_onlyOpen, Hwi. cbn.
    eexists. split; [reflexivity|]. cbn.
    destruct (Nat.eqb_spec i (Z.to_nat z)) as [-> | Hne].
    - rewrite Hw in Hwi. injection Hwi as <-. now rewrite Ho.
    - destruct (Waypoint.isOpen wi) eqn:Hoi; [|reflexivity].
      now destruct Hne; apply (Hone _ _ _ _ Hwi Hw Hoi Ho). }
  split; [exact Hb2|]. rewrite Hf2, Hl1. apply Z.ltb_lt. lia.
Qed.

Lemma opened_announces ref wp lm s :
  wellFormed s -> waypointsOf s !! ref = Some wp ->
  let h := Session.withLeaflet (fun _ => lm) (opened ref wp s) in
  waypointsOf h !! Z.to_nat (Main.openWaypointContentIndex h) = Some (Waypoint.setOpen true wp) /\
  waypointsOf h !! ref = Some (Waypoint.setOpen true wp) /\
  Main.screenreader h = Main.screenreader s ++ [announcement (Waypoint.getTitle wp) s].
Proof.
  intros Hwf Hw h.
  assert (Hidx : Waypoint.getIndex wp = Z.of_nat ref) by exact (proj2 Hwf _ _ Hw).
  assert (Hlookup : waypointsOf (opened ref wp s) !! ref = Some (Waypoint.setOpen true wp)).
  { change (waypointsOf (opened ref wp s)) with (onlyOpen ref (waypointsOf s)).
    rewrite lookup_onlyOpen, Hw. cbn. now rewrite Nat.eqb_refl. }
  split; [|split; [exact Hlookup|]].
  - change (Main.openWaypointContentIndex h) with (Waypoint.getIndex wp).
    rewrite Hidx, Nat2Z.id. exact Hlookup.
  - assert (Hfind : Map.getWaypointByIndex (VNum (ofZ (Waypoint.getIndex wp)))
                      (Main.map (opened ref wp s)) = Some ref).
    { pose proof (getWaypointByIndex_position (opened ref wp s) (Z.of_nat ref)
                    (Waypoint.setOpen true wp) (wellFormed_opened ref wp (leafletOf s) s Hwf))
        as Hp.
      rewrite Nat2Z.id in Hp. rewrite Hidx. apply Hp; [exact Hlookup|lia]. }
    change (Main.screenreader h)
      with (Main.screenreader s ++
            [replace "@title"
               (default ""%string
                  (Waypoint.getTitle <$>
                     (Map.getWaypointByIndex (VNum (ofZ (Waypoint.getIndex wp)))
                        (Main.map (opened ref wp s))
                        ≫= fun r => waypointsOf (opened ref wp s) !! r)))
               (Main.openedContent s)]).
    rewrite Hfind. cbn [mbind option_bind]. now rewrite Hlookup.
Qed.

Lemma same_not_opens s s' : waypointsOf s' = waypointsOf s -> ~ opensWaypoint s s'.
Proof.
  intros Hsame (position & w & w' & Hw & Hc & Hw' & Ho). rewrite Hsame, Hw in Hw'.
  injection Hw' as <-. congruence.
Qed.

Lemma closed_not_opens s s' :
  waypointsOf s' = (Waypoint.setOpen false <$> waypointsOf s) -> ~ opensWaypoint s s'.
Proof.
  intros Hclosed (position & w & w' & Hw & Hc & Hw' & Ho).
  rewrite Hclosed, list_lookup_fmap, Hw in Hw'. injection Hw' as <-. discriminate.
Qed.

(** What a step has the screen reader read: nothing when it opens no
    waypoint, and the announcement of the waypoint it opens. *)
Lemma step_announces a s :
  wellFormed s ->
  exists s',
    Session.step rt projection a s = Returned s' /\
    ((~ opensWaypoint s s' /\ Main.screenreader s' = Main.screenreader s) \/
     (opensWaypoint s s' /\
      exists w,
        waypointsOf s' !! Z.to_nat (Main.openWaypointContentIndex s') = Some w /\
        Waypoint.isOpen w = true /\
        Main.screenreader s' = Main.screenreader s ++ [announcement (Waypoint.getTitle w) s])).
Proof.
  intros Hwf.
  assert (Hopen : forall x index options,
            wellFormed x -> Main.screenreader x = Main.screenreader s ->
            Main.openedContent x = Main.openedContent s -> waypointsOf x = waypointsOf s ->
            exists s',
              Main.openWaypointContentByIndex rt projection index options x = Returned s' /\
              ((~ opensWaypoint s s' /\ Main.screenreader s' = Main.screenreader s) \/
               (opensWaypoint s s' /\
                exists w,
                  waypointsOf s' !! Z.to_nat (Main.openWaypointContentIndex s') = Some w /\
                  Waypoint.isOpen w = true /\
                  Main.screenreader s' =
                    Main.screenreader s ++ [announcement (Waypoint.getTitle w) s]))).
  { intros x index options Hwfx Hsr Htext Hws.
    destruct (Main_openWaypointContentByIndex_shape rt projection index options x)
      as [Hs | (ref & wp & lm & _ & Hw & Hc & Hs & _)]; rewrite Hs.
    - exists x. split; [reflexivity|]. left. split; [now apply same_not_opens|exact Hsr].
    - eexists. split; [reflexivity|]. right.
      destruct (opened_announces ref wp lm x Hwfx Hw) as (Hl & Hat & Hr).
      split.
      + exists ref, wp, (Waypoint.setOpen true wp).
        split; [now rewrite <- Hws|]. split; [exact Hc|]. split; [exact Hat|reflexivity].
      + exists (Waypoint.setOpen true wp). split; [exact Hl|]. split; [reflexivity|].
        rewrite Hr, Hsr. unfold announcement. now rewrite Htext. }
  assert (Hopen' : forall waypoint options,
            exists s',
              Main.openWaypointContent rt projection waypoint options s = Returned s' /\
              ((~ opensWaypoint s s' /\ Main.screenreader s' = Main.screenreader s) \/
               (opensWaypoint s s' /\
                exists w,
                  waypointsOf s' !! Z.to_nat (Main.openWaypointContentIndex s') = Some w /\
                  Waypoint.isOpen w = true /\
                  Main.screenreader s' =
                    Main.screenreader s ++ [announcement (Waypoint.getTitle w) s]))).
  { intros waypoint options.
    destruct (Main_openWaypointContent_shape rt projection waypoint options s)
      as [Hs | (ref & wp & lm & _ & Hw & Hc & Hs & _)]; rewrite Hs.
    - exists s. split; [reflexivity|]. left. split; [now apply same_not_opens|reflexivity].
    - eexists. split; [reflexivity|]. right.
      destruct (opened_announces ref wp lm s Hwf Hw) as (Hl & Hat & Hr).
      split.
      + exists ref, wp, (Waypoint.setOpen true wp).
        split; [exact Hw|]. split; [exact Hc|]. split; [exact Hat|reflexivity].
      + exists (Waypoint.setOpen true wp). split; [exact Hl|]. split; [reflexivity|exact Hr]. }
  destruct a; cbn [Session.step].
  - now apply Hopen.
  - apply Hopen'.
  - apply Hopen'.
  - destruct (Main_onMarkerFocus_moved rt projection waypoint s) as (lm & -> & _).
    eexists. split; [reflexivity|]. left. split; [now apply same_not_opens|reflexivity].
  - now apply Hopen.
  - now apply Hopen.
  - destruct (Main_reset_shape rt projection s)
      as (s' & -> & _ & _ & Hws & _ & _ & _ & _ & Hsr & _).
    exists s'. split; [reflexivity|]. left. split; [now apply closed_not_opens|exact Hsr].
  - eexists. split; [reflexivity|]. left.
    destruct (Main_clickButtonMiniMap_shape s) as (_ & _ & Hws & _ & _ & _ & _ & Hsr).
    split; [now apply same_not_opens|exact Hsr].
  - destruct (Main_setCurrentState_shape rt projection state s)
      as (s3 & -> & _ & Hl & Hw & _ & _ & [Hsr Htext] & _).
    apply Hopen; try assumption.
    apply (wellFormed_reopened s); [assumption|now rewrite Hw; left|assumption].
  - eexists. split; [reflexivity|]. left. split; [now apply same_not_opens|reflexivity].
  - eexists. split; [reflexivity|]. left. split; [now apply same_not_opens|reflexivity].
Qed.

(** X8.  An operation of the story map has the screen reader read
    something exactly when it opens a waypoint.  When it opens none, the
    screen reader is given nothing; when it opens one, the screen reader
    is given one text, the dictionary's text for an opened waypoint with
    the first [@title] in it replaced as [String.prototype.replace] does it
    with the title of that waypoint, which is then the open one.  A title
    without a dollar sign is put in as it is; in another title [$$], [$&],
    [$`] and [$'] stand for a dollar sign, for [@title] and for the text
    before and after it; a text without [@title] is read as it is. *)
Theorem announcements_follow_openings a s :
  wellFormed s ->
  exists s',
    Session.step rt projection a s = Returned s' /\
    (opensWaypoint s s' ->
     exists w,
       waypointsOf s' !! Z.to_nat (Main.openWaypointContentIndex s') = Some w /\
       Waypoint.isOpen w = true /\
       Main.screenreader s' = Main.screenreader s ++ [announcement (Waypoint.getTitle w) s]) /\
    (~ opensWaypoint s s' -> Main.screenreader s' = Main.screenreader s) /\
    (forall before after,
       findFirst "@title" (Main.openedContent s) = Some (before, after) ->
       (forall title, Util.includes "$" title = false ->
          announcement title s = (before ++ title ++ after)%string) /\
       announcement "$$" s = (before ++ "$" ++ after)%string /\
       announcement "$&" s = Main.openedContent s /\
       announcement "$`" s = (before ++ before ++ after)%string /\
       announcement "$'" s = (before ++ after ++ after)%string) /\
    (findFirst "@title" (Main.openedContent s) = None ->
     forall title, announcement title s = Main.openedContent s).
Proof.
  intros Hwf. destruct (step_announces a s Hwf) as (s' & Hs & Hcases).
  exists s'. split; [exact Hs|]. split; [|split; [|split]].
  - intros Hopens. destruct Hcases as [[Hnot _] | [_ Hread]]; [contradiction|exact Hread].
  - intros Hnot. destruct Hcases as [[_ Hsame] | [Hopens _]]; [exact Hsame|contradiction].
  - intros before after Hfind. unfold announcement, replace. rewrite Hfind.
    split; [|split; [|split; [|split]]].
    + intros title Hplain. now rewrite (substitution_plain _ _ _ _ Hplain).
    + reflexivity.
    + cbn [substitution]. rewrite append_empty_r.
      symmetry. exact (findFirst_parts _ _ _ _ Hfind).
    + cbn [substitution]. now rewrite append_empty_r.
    + cbn [substitution]. now rewrite append_empty_r.
  - intros Hnone title. unfold announcement, replace. now rewrite Hnone.
Qed.

End Sessions.

Lemma sampleStart_invariants :
  wellFormed sampleStart /\ atMostOneOpen (waypointsOf sampleStart).
Proof.
  destruct (StoryMap_construct_invariants decimalRuntime flatProjection sampleParams eq_refl)
    as (s & Hs & Hw & Ho).
  rewrite sampleStart_constructed in Hs. now injection Hs as <-.
Defined.

Lemma sampleFirstOpen_invariants :
  wellFormed sampleFirstOpen /\ atMostOneOpen (waypointsOf sampleFirstOpen).
Proof.
  exact (reachable_invariants decimalRuntime flatProjection sampleParams sampleFirstOpen
           sampleFirstOpen_reachable).
Defined.

Lemma navigation_buttons_follow_the_open_index_witness :
  constructible sampleParams = true /\
  exists s0 s,
    StoryMap.construct decimalRuntime flatProjection sampleParams = Returned s0 /\
    Session.run decimalRuntime flatProjection [GoForward; GoForward; GoBackward] s0
      = Returned s /\
    backwardEnabled s = (0 <? Main.openWaypointContentIndex s)%Z /\
    forwardEnabled s =
      (Main.openWaypointContentIndex s
         <? Z.of_nat (length (Main.paramWaypoints sampleParams)) - 1)%Z.
Proof.
  split; [reflexivity|].
  exact (navigation_buttons_follow_the_open_index decimalRuntime flatProjection sampleParams
           [GoForward; GoForward; GoBackward] eq_refl).
Defined.

Lemma overlay_shows_the_open_waypoint_witness :
  constructible sampleParams = true /\
  exists s0 s,
    StoryMap.construct decimalRuntime flatProjection sampleParams = Returned s0 /\
    Session.run decimalRuntime flatProjection [GoForward; MarkerFocus 2] s0 = Returned s /\
    (ContentOverlay.hidden (overlayOf s) = true <-> allClosed (waypointsOf s)) /\
    (ContentOverlay.hidden (overlayOf s) = false ->
     exists ref w,
       ContentOverlay.content (overlayOf s) = Some ref /\
       waypointsOf s !! ref = Some w /\ Waypoint.isOpen w = true /\
       forall i w', waypointsOf s !! i = Some w' -> Waypoint.isOpen w' = true -> i = ref).
Proof.
  split; [reflexivity|].
  exact (overlay_shows_the_open_waypoint decimalRuntime flatProjection sampleParams
           [GoForward; MarkerFocus 2] eq_refl).
Defined.

Lemma waypoints_stay_as_configured_witness :
  constructible sampleParams = true /\
  exists s0 s,
    StoryMap.construct decimalRuntime flatProjection sampleParams = Returned s0 /\
    Session.run decimalRuntime flatProjection [GoForward; Reset; GoForward] s0 = Returned s /\
    length (waypointsOf s) = length (Main.paramWaypoints sampleParams) /\
    forall i w,
      waypointsOf s !! i = Some w ->
      exists p,
        Main.paramWaypoints sampleParams !! i = Some p /\
        Waypoint.getIndex w = Z.of_nat i /\
        Waypoint.getId w = wpId p /\
        Waypoint.getTitle w =
          (if String.eqb (wpTitle p) "" then Main.paramUnnamedWaypoint sampleParams
           else wpTitle p) /\
        Waypoint.latitude w = wpLatitude p /\
        Waypoint.longitude w = wpLongitude p.
Proof.
  split; [reflexivity|].
  exact (waypoints_stay_as_configured decimalRuntime flatProjection sampleParams
           [GoForward; Reset; GoForward] eq_refl).
Defined.

Lemma view_stays_within_bounds_witness :
  (constructible sampleParams = true /\
   Forall notUserView [GoForward; Resize (ofZ 400) (ofZ 300); MarkerFocus 2; Reset]) /\
  exists s0 s,
    StoryMap.construct decimalRuntime flatProjection sampleParams = Returned s0 /\
    Session.run decimalRuntime flatProjection
      [GoForward; Resize (ofZ 400) (ofZ 300); MarkerFocus 2; Reset] s0 = Returned s /\
    within (Leaflet.lat (Leaflet.center (leafletOf s))) (ofZ (-90)) (ofZ 90) /\
    within (Leaflet.lng (Leaflet.center (leafletOf s))) (ofZ (-180)) (ofZ 180).
Proof.
  assert (H : Forall notUserView [GoForward; Resize (ofZ 400) (ofZ 300); MarkerFocus 2; Reset])
    by (repeat constructor).
  split; [split; [reflexivity|exact H]|].
  exact (view_stays_within_bounds decimalRuntime flatProjection sampleParams _ eq_refl H).
Defined.


Lemma open_index_names_the_open_waypoint_witness :
  let actions :=
    [GoForward;
     SetCurrentState (Some {| stateOpenWaypointContentIndex := Some 2%Z;
                              stateNavigationBar := None; stateMap := None |});
     GoBackward] in
  (constructible sampleParams = true /\
   resumable 4 None /\ Forall (setsNamedWaypoint 4) actions) /\
  exists s0 s,
    StoryMap.construct decimalRuntime flatProjection sampleParams = Returned s0 /\
    Session.run decimalRuntime flatProjection actions s0 = Returned s /\
    (Main.openWaypointContentIndex s = (-1)%Z <-> allClosed (waypointsOf s)) /\
    (Main.openWaypointContentIndex s <> (-1)%Z ->
     exists w,
       waypointsOf s !! Z.to_nat (Main.openWaypointContentIndex s) = Some w /\
       Waypoint.getIndex w = Main.openWaypointContentIndex s /\
       Waypoint.isOpen w = true /\
       forall i w', waypointsOf s !! i = Some w' -> Waypoint.isOpen w' = true ->
                    i = Z.to_nat (Main.openWaypointContentIndex s)).
Proof.
  intros actions.
  assert (Hp : resumable 4 None) by (left; reflexivity).
  assert (H : Forall (setsNamedWaypoint 4) actions).
  { repeat constructor. exists 2%Z. split; [reflexivity|lia]. }
  split; [split; [reflexivity|now split]|].
  exact (open_index_names_the_open_waypoint decimalRuntime flatProjection sampleParams
           actions eq_refl Hp H).
Defined.

Lemma goForward_then_goBackward_witness :
  (0 <= Main.openWaypointContentIndex sampleFirstOpen
     < Main.lastMarkerIndex sampleFirstOpen)%Z /\
  exists s1 s2,
    Main.goForward decimalRuntime flatProjection sampleFirstOpen = Returned s1 /\
    Main.openWaypointContentIndex s1 = (Main.openWaypointContentIndex sampleFirstOpen + 1)%Z /\
    Main.goBackward decimalRuntime flatProjection s1 = Returned s2 /\
    Main.openWaypointContentIndex s2 = Main.openWaypointContentIndex sampleFirstOpen /\
    length (waypointsOf s2) = length (waypointsOf sampleFirstOpen) /\
    (forall i w, waypointsOf sampleFirstOpen !! i = Some w ->
       exists w2, waypointsOf s2 !! i = Some w2 /\ Waypoint.isOpen w2 = Waypoint.isOpen w) /\
    backwardEnabled s2 = (0 <? Main.openWaypointContentIndex sampleFirstOpen)%Z /\
    forwardEnabled s2 = true.
Proof.
  assert (Hr : (0 <= Main.openWaypointContentIndex sampleFirstOpen
                  < Main.lastMarkerIndex sampleFirstOpen)%Z) by (change (0 <= 0 < 3)%Z; lia).
  split; [exact Hr|].
  assert (Hn : indexNamesOpen sampleFirstOpen).
  { split; [discriminate|]. eexists. split; reflexivity. }
  exact (goForward_then_goBackward decimalRuntime flatProjection sampleFirstOpen
           (proj1 sampleFirstOpen_invariants) (proj2 sampleFirstOpen_invariants) Hn Hr).
Defined.

Lemma announcements_follow_openings_witness :
  wellFormed sampleStart /\
  exists s',
    Session.step decimalRuntime flatProjection GoForward sampleStart = Returned s' /\
    (opensWaypoint sampleStart s' ->
     exists w,
       waypointsOf s' !! Z.to_nat (Main.openWaypointContentIndex s') = Some w /\
       Waypoint.isOpen w = true /\
       Main.screenreader s' =
         Main.screenreader sampleStart ++ [announcement (Waypoint.getTitle w) sampleStart]) /\
    (~ opensWaypoint sampleStart s' -> Main.screenreader s' = Main.screenreader sampleStart) /\
    (forall before after,
       findFirst "@title" (Main.openedContent sampleStart) = Some (before, after) ->
       (forall title, Util.includes "$" title = false ->
                      announcement title sampleStart = (before ++ title ++ after)%string) /\
       announcement "$$" sampleStart = (before ++ "$" ++ after)%string /\
       announcement "$&" sampleStart = Main.openedContent sampleStart /\
       announcement "$`" sampleStart = (before ++ before ++ after)%string /\
       announcement "$'" sampleStart = (before ++ after ++ after)%string) /\
    (findFirst "@title" (Main.openedContent sampleStart) = None ->
     forall title, announcement title sampleStart = Main.openedContent sampleStart).
Proof.
  split; [exact (proj1 sampleStart_invariants)|].
  exact (announcements_follow_openings decimalRuntime flatProjection GoForward sampleStart
           (proj1 sampleStart_invariants)).
Defined.

(** ** More on the content bundle *)

Section BundleSessions.
Import H5PUtil ContentBundle.
Implicit Types (b : ContentBundle.t) (i index : nat).

Lemma xAPIHandler_not_accepted index e b : accepted e = false -> xAPIHandler index e b = b.
Proof.
  unfold accepted, xAPIHandler. intros Ha.
  destruct (isNumber (eventMaxScore e)); [|reflexivity]. cbn in *. now rewrite Ha.
Qed.

Lemma xAPIHandler_accepted index e b :
  accepted e = true ->
  exists r,
    trIsTask r = None /\
    trackingMap (xAPIHandler index e b) = <[index := r]> (trackingMap b) /\
    instances (xAPIHandler index e b) = instances b /\
    taskCompletedCalls (xAPIHandler index e b) = S (taskCompletedCalls b).
Proof.
  unfold accepted, xAPIHandler. intros Ha.
  destruct (isNumber (eventMaxScore e)); [|discriminate]. cbn in *. rewrite Ha. cbn.
  eexists. split; [|split; [reflexivity|split; reflexivity]]. reflexivity.
Qed.

Lemma task_listener b position instance :
  accounted b -> instances b !! position = Some instance ->
  if isInstanceTask instance
  then exists i, xAPIListeners instance = [i] /\ i ∈ taskIndices b
  else xAPIListeners instance = [].
Proof.
  intros Ha Hp. pose proof (list_elem_of_lookup_2 _ _ _ Hp) as Hin.
  pose proof (handlers b Ha instance Hin) as Hh.
  destruct (isInstanceTask instance); [|exact Hh].
  destruct Hh as [i Hi]. exists i. split; [exact Hi|].
  apply elem_of_taskIndices. exists instance. split; [exact Hin|].
  rewrite Hi. apply elem_of_cons. now left.
Qed.

Lemma taskIndices_task b i :
  accounted b -> i ∈ taskIndices b ->
  exists position instance,
    instances b !! position = Some instance /\ isInstanceTask instance = true /\
    xAPIListeners instance = [i].
Proof.
  intros Ha Hi. apply elem_of_taskIndices in Hi as (instance & Hin & Hi).
  apply list_elem_of_lookup_1 in Hin as [position Hp].
  pose proof (task_listener b position instance Ha Hp) as Hl.
  destruct (isInstanceTask instance) eqn:Ht.
  - destruct Hl as (j & Hj & _). rewrite Hj in Hi. apply elem_of_cons in Hi as [-> | Hi].
    + now exists position, instance.
    + now apply elem_of_nil in Hi.
  - rewrite Hl in Hi. now apply elem_of_nil in Hi.
Qed.

Lemma containsAnyTask_taskIndices b :
  accounted b -> containsAnyTask b = true <-> exists i, i ∈ taskIndices b.
Proof.
  intros Ha. unfold containsAnyTask. rewrite existsb_exists. split.
  - intros (instance & Hin & Ht). apply list_elem_of_In in Hin.
    apply list_elem_of_lookup_1 in Hin as [position Hp].
    pose proof (task_listener b position instance Ha Hp) as Hl. rewrite Ht in Hl.
    destruct Hl as (i & _ & Hi). now exists i.
  - intros [i Hi]. destruct (taskIndices_task b i Ha Hi) as (position & instance & Hp & Ht & _).
    exists instance. split; [|exact Ht]. apply list_elem_of_In. eapply list_elem_of_lookup_2, Hp.
Qed.

Lemma completed_by_tasks b :
  accounted b ->
  isCompleted b = true <->
  forall i, i ∈ taskIndices b -> exists r, trackingMap b !! i = Some r /\ trCompleted r = true.
Proof.
  intros Ha. split.
  - intros Hc i Hi. now apply accounted_completed_record.
  - intros Hall. apply isCompleted_true. split.
    + rewrite (instances_counted b Ha), <- (size_dom (D := gset nat)). f_equal.
      apply set_eq. intros i. rewrite elem_of_union, elem_of_list_to_set. split; [|tauto].
      intros [Hd | Ht]; [exact Hd|]. destruct (Hall i Ht) as (r & Hr & _).
      apply elem_of_dom. now exists r.
    + intros i r Hr. destruct (decide (i ∈ taskIndices b)) as [Hi | Hi].
      * destruct (Hall i Hi) as (r' & Hr' & Hc). congruence.
      * now rewrite (other_records b Ha i r Hr Hi).
Qed.

(** X9.  A bundle that was constructed and then received events and resets
    is completed exactly when every one of its task instances has a
    record, under the content index of its handler, that says completed;
    the instances that are not tasks never stand in the way. *)
Theorem bundle_completed_when_its_tasks_are contents events :
  let b := run events (construct contents) in
  isCompleted b = true <->
  forall position instance,
    instances b !! position = Some instance -> isInstanceTask instance = true ->
    exists i r,
      xAPIListeners instance = [i] /\ trackingMap b !! i = Some r /\ trCompleted r = true.
Proof.
  intros b.
  assert (Ha : accounted b) by apply run_accounted, construct_accounted.
  rewrite (completed_by_tasks b Ha). split.
  - intros Hall position instance Hp Ht.
    pose proof (task_listener b position instance Ha Hp) as Hl. rewrite Ht in Hl.
    destruct Hl as (i & Hi & Hin). destruct (Hall i Hin) as (r & Hr & Hc).
    now exists i, r.
  - intros Hall i Hi.
    destruct (taskIndices_task b i Ha Hi) as (position & instance & Hp & Ht & Hl).
    destruct (Hall position instance Hp Ht) as (j & r & Hj & Hr & Hc).
    rewrite Hl in Hj. injection Hj as <-. now exists r.
Qed.

Lemma step_containsAnyTask ev b : containsAnyTask (step ev b) = containsAnyTask b.
Proof.
  destruct ev as [position e|]; cbn [step].
  - unfold triggerXAPI, containsAnyTask.
    destruct (instances b !! position) as [instance|]; [|reflexivity].
    generalize (xAPIListeners instance). intros indices. revert b.
    induction indices as [|i indices IH]; intros b; cbn; [reflexivity|].
    rewrite IH. destruct (xAPIHandler_cases i e b) as [-> | (_ & _ & _ & ->)]; reflexivity.
  - unfold containsAnyTask, reset. cbn. induction (instances b) as [|x l IH]; cbn; [reflexivity|].
    now rewrite resetInstance_isInstanceTask, IH.
Qed.

Lemma run_containsAnyTask events b : containsAnyTask (run events b) = containsAnyTask b.
Proof.
  unfold run. revert b. induction events as [|ev events IH]; intros b; cbn; [reflexivity|].
  now rewrite IH, step_containsAnyTask.
Qed.

(** X10.  Events and resets never change whether a bundle contains a
    task; and right after a reset a bundle is completed exactly when it
    contains no task, whatever its tasks had reported before. *)
Theorem reset_leaves_only_taskless_bundles_completed contents events :
  let b := run events (construct contents) in
  containsAnyTask b = containsAnyTask (construct contents) /\
  isCompleted (reset b) = negb (containsAnyTask b).
Proof.
  intros b. split; [apply run_containsAnyTask|].
  assert (Ha : accounted b) by apply run_accounted, construct_accounted.
  pose proof (reset_accounted b Ha) as Har.
  destruct (containsAnyTask b) eqn:Ht; cbn.
  - apply (containsAnyTask_taskIndices b Ha) in Ht as [i Hi].
    destruct (isCompleted (reset b)) eqn:Hc; [|reflexivity]. exfalso.
    rewrite <- reset_taskIndices in Hi.
    destruct (accounted_completed_record _ i Har Hi Hc) as (r & Hr & _).
    rewrite reset_lookup in Hr. rewrite reset_taskIndices in Hi.
    destruct (trackingMap b !! i) as [r0|] eqn:Hr0; [|discriminate].
    cbn in Hr. unfold keptByReset in Hr. rewrite (task_records b Ha i r0 Hr0 Hi) in Hr.
    discriminate.
  - apply (completed_by_tasks _ Har). intros i Hi. rewrite reset_taskIndices in Hi.
    assert (Hex : containsAnyTask b = true) by (apply containsAnyTask_taskIndices; eauto).
    congruence.
Qed.

(** X11.  On a bundle that was constructed and then received events and
    resets, an xAPI event changes nothing unless it comes from a task
    instance and carries a number as max score and the verb "completed" or
    "answered"; such an event replaces the record under the content index
    of that task, leaves every other record and the instances as they
    are, and calls the task-completed callback once. *)
Theorem xAPI_event_touches_one_record contents events position e :
  let b := run events (construct contents) in
  (accepted e = false -> triggerXAPI position e b = b) /\
  ((forall instance, instances b !! position = Some instance ->
      isInstanceTask instance = false) ->
   triggerXAPI position e b = b) /\
  (forall instance,
     instances b !! position = Some instance -> isInstanceTask instance = true ->
     accepted e = true ->
     exists i r,
       xAPIListeners instance = [i] /\ trIsTask r = None /\
       trackingMap (triggerXAPI position e b) = <[i := r]> (trackingMap b) /\
       (forall j, j <> i ->
          trackingMap (triggerXAPI position e b) !! j = trackingMap b !! j) /\
       instances (triggerXAPI position e b) = instances b /\
       taskCompletedCalls (triggerXAPI position e b) = S (taskCompletedCalls b)).
Proof.
  intros b.
  assert (Ha : accounted b) by apply run_accounted, construct_accounted.
  split; [|split].
  - intros Hn. unfold triggerXAPI. destruct (instances b !! position) as [instance|]; [|reflexivity].
    generalize (xAPIListeners instance). intros indices.
    induction indices as [|i indices IH]; cbn; [reflexivity|].
    now rewrite (xAPIHandler_not_accepted i e b Hn).
  - intros Hnt. unfold triggerXAPI.
    destruct (instances b !! position) as [instance|] eqn:Hp; [|reflexivity].
    pose proof (task_listener b position instance Ha Hp) as Hl.
    rewrite (Hnt instance eq_refl) in Hl. now rewrite Hl.
  - intros instance Hp Ht Hacc.
    pose proof (task_listener b position instance Ha Hp) as Hl. rewrite Ht in Hl.
    destruct Hl as (i & Hi & _). unfold triggerXAPI. rewrite Hp, Hi. cbn.
    destruct (xAPIHandler_accepted i e b Hacc) as (r & Hr & Htm & Hinst & Hcalls).
    exists i, r. split; [reflexivity|]. split; [exact Hr|]. split; [exact Htm|].
    split; [|split; assumption].
    intros j Hj. rewrite Htm. now apply lookup_insert_ne.
Qed.

Lemma step_tasks ev b :
  isInstanceTask <$> instances (step ev b) = isInstanceTask <$> instances b.
Proof.
  destruct ev as [position e|]; cbn [step].
  - unfold triggerXAPI. destruct (instances b !! position) as [instance|]; [|reflexivity].
    generalize (xAPIListeners instance). intros indices. revert b.
    induction indices as [|i indices IH]; intros b; cbn; [reflexivity|].
    rewrite IH. destruct (xAPIHandler_cases i e b) as [-> | (_ & _ & _ & ->)]; reflexivity.
  - cbn. induction (instances b) as [|x l IH]; cbn; [reflexivity|].
    now rewrite resetInstance_isInstanceTask, IH.
Qed.

Lemma notifies_tasks b b' ev :
  isInstanceTask <$> instances b' = isInstanceTask <$> instances b ->
  notifies b' ev = notifies b ev.
Proof.
  intros Ht. destruct ev as [position e|]; [|reflexivity]. cbn.
  now rewrite <- !list_lookup_fmap, Ht.
Qed.

Lemma step_calls ev b :
  accounted b ->
  taskCompletedCalls (step ev b) =
    taskCompletedCalls b + (if notifies b ev then 1 else 0).
Proof.
  intros Ha. destruct ev as [position e|]; cbn [step notifies]; [|cbn; lia].
  unfold triggerXAPI. destruct (instances b !! position) as [instance|] eqn:Hp.
  - pose proof (task_listener b position instance Ha Hp) as Hl. cbn.
    destruct (isInstanceTask instance).
    + destruct Hl as (i & -> & _). cbn. destruct (accepted e) eqn:Hacc; cbn.
      * destruct (xAPIHandler_accepted i e b Hacc) as (_ & _ & _ & _ & ->). lia.
      * rewrite (xAPIHandler_not_accepted i e b Hacc). lia.
    + rewrite Hl, andb_false_r. cbn. lia.
  - cbn. rewrite andb_false_r. lia.
Qed.

Lemma addContents_calls contents k b :
  taskCompletedCalls (addContents contents k b) = taskCompletedCalls b.
Proof.
  revert k b. induction contents as [|c contents IH]; intros k b; cbn; [reflexivity|].
  rewrite IH. unfold addContent. destruct (H5P.newRunnable c) as [instance|]; [|reflexivity].
  now destruct (isInstanceTask instance).
Qed.

(** X12.  The task-completed callback of a bundle is called once for each
    event that comes from a task instance with a number as max score and
    the verb "completed" or "answered", and never otherwise: not at the
    construction, not by a reset, not by an event of an instance that is
    no task or of a position that holds no instance. *)
Theorem task_completed_callback_counts_reports contents events :
  taskCompletedCalls (run events (construct contents)) =
    length (List.filter (notifies (construct contents)) events).
Proof.
  assert (Hgen : forall b b0,
            accounted b ->
            isInstanceTask <$> instances b = isInstanceTask <$> instances b0 ->
            taskCompletedCalls (run events b) =
              taskCompletedCalls b + length (List.filter (notifies b0) events)).
  { induction events as [|ev events IH]; intros b b0 Ha Ht; cbn; [lia|].
    change (fold_left (fun acc ev0 => step ev0 acc) events (step ev b))
      with (run events (step ev b)).
    rewrite (IH (step ev b) b0).
    - rewrite (step_calls ev b Ha), (notifies_tasks b0 b ev Ht).
      destruct (notifies b0 ev); cbn; lia.
    - destruct ev; [now apply triggerXAPI_accounted|now apply reset_accounted].
    - now rewrite step_tasks. }
  rewrite (Hgen (construct contents) (construct contents) (construct_accounted contents) eq_refl).
  unfold construct. now rewrite addContents_calls.
Qed.

End BundleSessions.

Lemma orZero_countsFor result z :
  countsFor result z -> ContentBundle.orZero result = ofZ z.
Proof.
  intros [Hz H]. destruct result as [[| |q|]|]; cbn in *; try discriminate;
    try (now subst z).
  injection H as ->. unfold ofZ, inject_Z.
  destruct (Qeq_bool (z # 1) 0) eqn:H0; cbn [negb]; [|reflexivity].
  apply Qeq_bool_iff in H0. unfold Qeq in H0. cbn in H0.
  now replace z with 0%Z by lia.
Qed.

Lemma sum_countsFor rt (f : Instance -> option number) instances scores :
  addsWholeNumbers rt ->
  Forall2 (fun instance z => countsFor (f instance) z) instances scores ->
  forall total,
    (0 <= total)%Z -> (total + sumZ scores <= 2 ^ 53)%Z ->
    fold_left (fun total instance => plus rt total (ContentBundle.orZero (f instance)))
      instances (ofZ total) = ofZ (total + sumZ scores).
Proof.
  intros Hrt Hall. induction Hall as [|instance z instances scores Hz Hall IH];
    intros total Ht Hsum; cbn [fold_left].
  - unfold sumZ. cbn [fold_right]. now rewrite Z.add_0_r.
  - change (sumZ (z :: scores)) with (z + sumZ scores)%Z in *.
    assert (Hrest : (0 <= sumZ scores)%Z).
    { clear -Hall. induction Hall as [|? y ? l' [H _] _ IH']; [now cbn|].
      change (sumZ (y :: l')) with (y + sumZ l')%Z. lia. }
    rewrite (orZero_countsFor _ _ Hz). destruct Hz as [Hz _].
    rewrite Hrt by lia. rewrite IH by lia. f_equal. lia.
Qed.

Lemma Qred_inject_Z z : Qred (inject_Z z) = inject_Z z.
Proof.
  unfold inject_Z, Qred. pose proof (Z.ggcd_gcd z 1) as Hg.
  pose proof (Z.ggcd_correct_divisors z 1) as Hd.
  destruct (Z.ggcd z 1) as (g & a & c). cbn [fst snd] in *.
  rewrite Z.gcd_1_r in Hg. subst g. destruct Hd as [-> Hc].
  assert (c = 1%Z) by lia. subst c. cbn. now destruct a.
Qed.

Lemma decimalRuntime_addsWholeNumbers : addsWholeNumbers decimalRuntime.
Proof.
  intros x y _ _ _. cbn [plus decimalRuntime]. unfold add, ofZ. f_equal.
  rewrite <- (Qred_inject_Z (x + y)). apply Qred_complete. now rewrite inject_Z_plus.
Qed.

(** X13.  The score and the maximum score of a bundle are the sums of
    what its instances report, added from 0 in the order of the instances
    with the addition of the runtime, in which an instance without the
    method, or one that reports NaN or 0, counts as 0.  So a bundle whose
    instances report whole numbers from 0 on that add up to no more than
    2^53, the range in which doubles add without rounding, has their sum
    as its score, and likewise for the maximum score. *)
Theorem bundle_scores_are_sums rt (b : ContentBundle.t) (scores maxScores : list Z) :
  addsWholeNumbers rt ->
  Forall2 (fun instance z => countsFor (getScore instance) z)
    (ContentBundle.instances b) scores ->
  Forall2 (fun instance z => countsFor (getMaxScore instance) z)
    (ContentBundle.instances b) maxScores ->
  (sumZ scores <= 2 ^ 53)%Z -> (sumZ maxScores <= 2 ^ 53)%Z ->
  ContentBundle.getScore rt b = ofZ (sumZ scores) /\
  ContentBundle.getMaxScore rt b = ofZ (sumZ maxScores) /\
  ContentBundle.getScore rt b =
    fold_left (plus rt) (ContentBundle.orZero <$> (getScore <$> ContentBundle.instances b))
      (ofZ 0) /\
  ContentBundle.getMaxScore rt b =
    fold_left (plus rt) (ContentBundle.orZero <$> (getMaxScore <$> ContentBundle.instances b))
      (ofZ 0).
Proof.
  intros Hrt Hscores HmaxScores Hsum HmaxSum.
  assert (Hfold : forall (f : Instance -> option number) instances total,
            fold_left (fun total instance => plus rt total (ContentBundle.orZero (f instance)))
              instances total =
            fold_left (plus rt) (ContentBundle.orZero <$> (f <$> instances)) total).
  { intros f instances. induction instances as [|x l IH]; intros total; [reflexivity|].
    cbn. apply IH. }
  split; [|split; [|split]].
  - exact (sum_countsFor rt getScore _ _ Hrt Hscores 0%Z ltac:(lia) Hsum).
  - exact (sum_countsFor rt getMaxScore _ _ Hrt HmaxScores 0%Z ltac:(lia) HmaxSum).
  - apply Hfold.
  - apply Hfold.
Qed.

Lemma bundle_scores_are_sums_witness :
  (addsWholeNumbers decimalRuntime /\
   Forall2 (fun instance z => countsFor (getScore instance) z)
     (ContentBundle.instances sampleBundle) [3; 0; 3]%Z /\
   Forall2 (fun instance z => countsFor (getMaxScore instance) z)
     (ContentBundle.instances sampleBundle) [5; 0; 5]%Z /\
   (sumZ [3; 0; 3]%Z <= 2 ^ 53)%Z /\ (sumZ [5; 0; 5]%Z <= 2 ^ 53)%Z) /\
  ContentBundle.getScore decimalRuntime sampleBundle = ofZ (sumZ [3; 0; 3]%Z) /\
  ContentBundle.getMaxScore decimalRuntime sampleBundle = ofZ (sumZ [5; 0; 5]%Z) /\
  ContentBundle.getScore decimalRuntime sampleBundle =
    fold_left (plus decimalRuntime)
      (ContentBundle.orZero <$> (getScore <$> ContentBundle.instances sampleBundle)) (ofZ 0) /\
  ContentBundle.getMaxScore decimalRuntime sampleBundle =
    fold_left (plus decimalRuntime)
      (ContentBundle.orZero <$> (getMaxScore <$> ContentBundle.instances sampleBundle))
      (ofZ 0).
Proof.
  assert (H1 : Forall2 (fun instance z => countsFor (getScore instance) z)
                 (ContentBundle.instances sampleBundle) [3; 0; 3]%Z).
  { repeat (constructor; [split; [lia|reflexivity]|]). constructor. }
  assert (H2 : Forall2 (fun instance z => countsFor (getMaxScore instance) z)
                 (ContentBundle.instances sampleBundle) [5; 0; 5]%Z).
  { repeat (constructor; [split; [lia|reflexivity]|]). constructor. }
  assert (H3 : (sumZ [3; 0; 3]%Z <= 2 ^ 53)%Z) by (vm_compute; discriminate).
  assert (H4 : (sumZ [5; 0; 5]%Z <= 2 ^ 53)%Z) by (vm_compute; discriminate).
  split; [now repeat split; try exact decimalRuntime_addsWholeNumbers|].
  exact (bundle_scores_are_sums decimalRuntime sampleBundle [3; 0; 3]%Z [5; 0; 5]%Z
           decimalRuntime_addsWholeNumbers H1 H2 H3 H4).
Defined.

(** ** The button and its element *)

Section ButtonElementFacts.
Import ButtonElement.

Lemma attributesFollow_step params op e :
  attributesFollow params e -> attributesFollow params (step op e).
Proof.
  unfold attributesFollow, labelOf.
  destruct e as [ty labels act dis cAct cDis pressed label].
  intros (Hty & Hl & Hd & Hlabel & Hrest). cbn in *. subst ty cDis label.
  destruct op as [| | | |should ignore| |a skip]; cbn;
    unfold activate, deactivate, enable, disable, toggle, click, forceState, isToggle; cbn;
    repeat match goal with
           | |- context [ButtonElement.paramType params] =>
               destruct (ButtonElement.paramType params)
           | b : bool |- _ => destruct b
           | o : option bool |- _ => destruct o
           end; cbn in *; intuition congruence.
Qed.

Lemma attributesFollow_construct params : attributesFollow params (construct params).
Proof.
  unfold attributesFollow, labelOf, construct, activate, deactivate, enable, disable, isToggle.
  destruct params as [given pa pd ty]. cbn.
  destruct ty, pa, pd; cbn; intuition congruence.
Qed.

(** X14.  Whatever is done to a button after its construction, its element
    tells its state: the class [disabled] is there exactly when the button
    is disabled, [aria-label] is the label for disabled, active or inactive
    as the button is, on a toggle button [aria-pressed] is the active flag
    and, while the button is enabled, so is the class [active]; on a pulse
    button [aria-pressed] stays as constructed and the class [active] is
    never set. *)
Theorem button_element_tells_its_state params ops :
  let e := run ops (construct params) in
  classDisabled e = disabled e /\
  ariaLabel e =
    Some (if disabled e then labelDisabled (labels params)
          else if active e then labelActive (labels params)
          else labelInactive (labels params)) /\
  match paramType params with
  | Button.Toggle =>
      ariaPressed e = active e /\ (disabled e = false -> classActive e = active e)
  | Button.Pulse => ariaPressed e = paramActive params /\ classActive e = false
  end.
Proof.
  intros e.
  assert (He : attributesFollow params e).
  { unfold e, run. generalize (attributesFollow_construct params).
    generalize (construct params). induction ops as [|op ops IH]; intros x Hx; cbn; [exact Hx|].
    apply IH. now apply attributesFollow_step. }
  destruct He as (Hty & Hl & Hd & Hlabel & Hrest).
  split; [exact Hd|]. split.
  - rewrite Hlabel. unfold labelOf. now rewrite Hl.
  - now rewrite <- Hty.
Qed.

Lemma state_step op e :
  state (step op e) =
    match op with
    | Activate => Button.activate (state e)
    | Deactivate => Button.deactivate (state e)
    | Enable => Button.enable (state e)
    | Disable => Button.disable (state e)
    | Toggle shouldBeActive ignoreDisabled =>
        Button.toggle shouldBeActive ignoreDisabled (state e)
    | Click => (Button.click (state e)).1
    | ForceState a skip => (Button.forceState a skip (state e)).1
    end.
Proof.
  destruct e as [ty labels act dis cAct cDis pressed label].
  destruct op as [| | | |should ignore| |a skip]; cbn;
    unfold activate, deactivate, enable, disable, toggle, click, forceState, isToggle, state,
      Button.activate, Button.deactivate, Button.enable, Button.disable, Button.toggle,
      Button.click, Button.forceState; cbn;
    repeat match goal with
           | b : bool |- _ => destruct b
           | o : option bool |- _ => destruct o
           | k : Button.kind |- _ => destruct k
           end; reflexivity.
Qed.

(** X15.  A disabled button keeps its active flag and stays disabled under
    every operation but [enable]: activating, deactivating, toggling and
    clicking do nothing, and neither does [forceState], which skips the
    check of [toggle] but not those of [activate] and [deactivate]; a click
    calls no callback, [forceState] calls it unless told to skip it.  On an
    enabled toggle button a click flips the active flag and calls the
    callback, so that two clicks restore the flag. *)
Theorem disabled_button_is_frozen e ops :
  disabled e = true -> Forall notEnable ops ->
  active (run ops e) = active e /\ disabled (run ops e) = true /\
  (click (run ops e)).2 = false /\
  (forall a skip, (forceState a skip (run ops e)).2 = negb skip) /\
  (forall x, type x = Button.Toggle -> disabled x = false ->
     (click x).2 = true /\ active (click x).1 = negb (active x) /\
     disabled (click x).1 = false /\
     active (click (click x).1).1 = active x).
Proof.
  intros Hd Hops.
  assert (Hrun : active (run ops e) = active e /\ disabled (run ops e) = true).
  { unfold run. revert e Hd. induction Hops as [|op ops Hop _ IH]; intros e Hd; cbn; [now split|].
    assert (Hs : active (step op e) = active e /\ disabled (step op e) = true).
    { destruct e as [ty labels act dis cAct cDis pressed label]. cbn in Hd. subst dis.
      destruct op as [| | | |should ignore| |a skip]; cbn in *; try contradiction;
        unfold activate, deactivate, disable, toggle, click, forceState, isToggle; cbn;
        repeat match goal with
               | b : bool |- _ => destruct b
               | o : option bool |- _ => destruct o
               | k : Button.kind |- _ => destruct k
               end; now split. }
    destruct Hs as [Ha Hd']. destruct (IH (step op e) Hd') as [IHa IHd].
    split; [congruence|exact IHd]. }
  destruct Hrun as [Ha Hd']. split; [exact Ha|]. split; [exact Hd'|]. split.
  { unfold click. now rewrite Hd'. }
  split; [reflexivity|].
  intros x Hty Hdx. destruct x as [ty labels act dis cAct cDis pressed label].
  cbn in Hty, Hdx. subst ty dis. now destruct act.
Qed.

Lemma disabled_button_is_frozen_witness :
  disabled sampleDisabledToggle = true /\ Forall notEnable sampleOperations /\
  active (run sampleOperations sampleDisabledToggle) = active sampleDisabledToggle /\
  disabled (run sampleOperations sampleDisabledToggle) = true /\
  (click (run sampleOperations sampleDisabledToggle)).2 = false.
Proof.
  assert (Hd : disabled sampleDisabledToggle = true) by reflexivity.
  assert (Hops : Forall notEnable sampleOperations) by (repeat constructor).
  destruct (disabled_button_is_frozen sampleDisabledToggle sampleOperations Hd Hops)
    as (Hactive & Hdisabled & Hclick & _).
  now repeat split.
Defined.

End ButtonElementFacts.

(** ** The keyboard focus of the navigation bar *)

Section FocusFacts.
Import NavigationBarFocus.

Lemma roving_length count current : length (roving count current) = count.
Proof. unfold roving. now rewrite length_imap, length_replicate. Qed.

Lemma roving_lookup count current i :
  i < count ->
  roving count current !! i = Some (if Nat.eqb i current then "0" else "-1")%string.
Proof.
  intros Hi. unfold roving. rewrite list_lookup_imap, lookup_replicate_2 by assumption.
  reflexivity.
Qed.

Lemma roving_move count current target :
  current < count -> target < count ->
  <[target := "0"%string]> (<[current := "-1"%string]> (roving count current)) =
    roving count target.
Proof.
  intros Hc Ht. apply list_eq. intros i.
  destruct (decide (i < count)) as [Hi | Hi].
  - rewrite (roving_lookup count target i Hi).
    destruct (Nat.eqb_spec i target) as [-> | Hne].
    + apply list_lookup_insert_eq. now rewrite length_insert, roving_length.
    + rewrite list_lookup_insert_ne by congruence.
      destruct (decide (i = current)) as [-> | Hnc].
      * apply list_lookup_insert_eq. now rewrite roving_length.
      * rewrite list_lookup_insert_ne by congruence.
        rewrite (roving_lookup count current i Hi).
        now destruct (Nat.eqb_spec i current).
  - rewrite !lookup_ge_None_2; [reflexivity| |].
    + rewrite roving_length. lia.
    + rewrite !length_insert, roving_length. lia.
Qed.

Lemma moveButtonFocus_oneTabStop count offset n :
  oneTabStop count n ->
  exists n',
    moveButtonFocus offset n = Returned n' /\ oneTabStop count n' /\
    currentButtonIndex n' =
      (if (currentButtonIndex n + offset <? 0)%Z ||
          (Z.of_nat count - 1 <? currentButtonIndex n + offset)%Z
       then currentButtonIndex n else currentButtonIndex n + offset)%Z /\
    (currentButtonIndex n' = currentButtonIndex n -> offset <> 0%Z -> n' = n).
Proof.
  intros [Hrange Htab]. unfold moveButtonFocus. rewrite Htab, roving_length.
  destruct ((currentButtonIndex n + offset <? 0)%Z ||
            (Z.of_nat count - 1 <? currentButtonIndex n + offset)%Z) eqn:Hout.
  - exists n. cbn. split; [reflexivity|]. split; [now split|]. split; reflexivity.
  - apply orb_false_iff in Hout as [H1 H2]. apply Z.ltb_ge in H1, H2.
    unfold buttonAt. cbn [tabindex currentButtonIndex].
    destruct (Z.ltb_spec (currentButtonIndex n) 0); [lia|].
    rewrite Htab, roving_lookup by lia.
    destruct (Z.ltb_spec (currentButtonIndex n + offset) 0); [lia|].
    match goal with |- context [match ?l !! ?i with _ => _ end] =>
      destruct (lookup_lt_is_Some_2 l i) as [x Hx];
        [rewrite length_insert, roving_length; lia|rewrite Hx]
    end.
    eexists. split; [reflexivity|]. cbn [currentButtonIndex tabindex].
    split; [|split; [reflexivity|intros; lia]].
    unfold oneTabStop. cbn [currentButtonIndex tabindex].
    split; [lia|]. apply roving_move; lia.
Qed.

Lemma handleKeydown_oneTabStop count code n :
  oneTabStop count n ->
  exists n' prevented, handleKeydown code n = Returned (n', prevented) /\ oneTabStop count n'.
Proof.
  intros Hn. unfold handleKeydown.
  repeat match goal with
         | |- context [if ?c then _ else _] => destruct c
         | |- context [moveButtonFocus ?o n] =>
             destruct (moveButtonFocus_oneTabStop count o n Hn) as (n' & -> & Hn' & _)
         end; cbn [mbind outcome_bind mret outcome_ret]; eauto.
Qed.

Lemma construct_oneTabStop userCanUseMiniMap isFullscreenSupported :
  oneTabStop (buttonCount userCanUseMiniMap isFullscreenSupported)
    (construct userCanUseMiniMap isFullscreenSupported).
Proof.
  split; [|reflexivity]. cbn [construct currentButtonIndex].
  unfold buttonCount. destruct userCanUseMiniMap, isFullscreenSupported; cbn; lia.
Qed.

Lemma run_oneTabStop count codes n :
  oneTabStop count n -> exists n', run codes n = Returned n' /\ oneTabStop count n'.
Proof.
  revert n. induction codes as [|code codes IH]; intros n Hn; cbn [run].
  - now exists n.
  - destruct (handleKeydown_oneTabStop count code n Hn) as (n1 & prevented & -> & Hn1).
    cbn [mbind outcome_bind]. now apply IH.
Qed.

(** X16.  Whatever keys are pressed on the navigation bar, handling them
    never throws, the current button is one of the buttons of the bar, and
    that button alone has tabindex 0, all others -1.  Home makes the first
    button the current one and End the last; the arrow keys move by one
    button and do not cycle: at the first button ArrowLeft and ArrowUp, at
    the last one ArrowRight and ArrowDown, leave the bar as it is.  Each of
    these keys has its default action prevented; no other key has. *)
Theorem one_button_in_the_tab_order userCanUseMiniMap isFullscreenSupported codes :
  exists n,
    run codes (construct userCanUseMiniMap isFullscreenSupported) = Returned n /\
    (0 <= currentButtonIndex n
       < Z.of_nat (buttonCount userCanUseMiniMap isFullscreenSupported))%Z /\
    length (tabindex n) = buttonCount userCanUseMiniMap isFullscreenSupported /\
    (forall i, i < buttonCount userCanUseMiniMap isFullscreenSupported ->
       tabindex n !! i =
         Some (if Nat.eqb i (Z.to_nat (currentButtonIndex n)) then "0" else "-1")%string) /\
    (exists n', handleKeydown "Home" n = Returned (n', true) /\
                currentButtonIndex n' = 0%Z) /\
    (exists n', handleKeydown "End" n = Returned (n', true) /\
                currentButtonIndex n' =
                  (Z.of_nat (buttonCount userCanUseMiniMap isFullscreenSupported) - 1)%Z) /\
    (forall code, code = "ArrowLeft"%string \/ code = "ArrowUp"%string ->
       exists n', handleKeydown code n = Returned (n', true) /\
         currentButtonIndex n' = Z.max 0 (currentButtonIndex n - 1) /\
         (currentButtonIndex n = 0%Z -> n' = n)) /\
    (forall code, code = "ArrowRight"%string \/ code = "ArrowDown"%string ->
       exists n', handleKeydown code n = Returned (n', true) /\
         currentButtonIndex n' =
           Z.min (Z.of_nat (buttonCount userCanUseMiniMap isFullscreenSupported) - 1)
                 (currentButtonIndex n + 1) /\
         (currentButtonIndex n =
            (Z.of_nat (buttonCount userCanUseMiniMap isFullscreenSupported) - 1)%Z ->
          n' = n)) /\
    (forall code,
       ~ code ∈ ["ArrowLeft"; "ArrowUp"; "ArrowRight"; "ArrowDown"; "Home"; "End"]%string ->
       handleKeydown code n = Returned (n, false)).
Proof.
  set (count := buttonCount userCanUseMiniMap isFullscreenSupported).
  destruct (run_oneTabStop count codes _
              (construct_oneTabStop userCanUseMiniMap isFullscreenSupported))
    as (n & Hrun & Hn).
  exists n. split; [exact Hrun|]. pose proof Hn as [Hrange Htab].
  split; [exact Hrange|]. split; [rewrite Htab; apply roving_length|].
  split; [intros i Hi; rewrite Htab; now apply roving_lookup|].
  assert (Hlen : length (tabindex n) = count) by (rewrite Htab; apply roving_length).
  split; [|split; [|split; [|split]]].
  - unfold handleKeydown. cbn [String.eqb Ascii.eqb Bool.eqb orb].
    destruct (moveButtonFocus_oneTabStop count (0 - currentButtonIndex n) n Hn)
      as (n' & -> & _ & Hc & _).
    exists n'. split; [reflexivity|]. rewrite Hc.
    destruct (Z.ltb_spec (currentButtonIndex n + (0 - currentButtonIndex n)) 0); [lia|].
    destruct (Z.ltb_spec (Z.of_nat count - 1)
                (currentButtonIndex n + (0 - currentButtonIndex n))); cbn [orb]; lia.
  - unfold handleKeydown. cbn [String.eqb Ascii.eqb Bool.eqb orb]. rewrite Hlen.
    destruct (moveButtonFocus_oneTabStop count
                (Z.of_nat count - 1 - currentButtonIndex n) n Hn)
      as (n' & -> & _ & Hc & _).
    exists n'. split; [reflexivity|]. rewrite Hc.
    destruct (Z.ltb_spec (currentButtonIndex n + (Z.of_nat count - 1 - currentButtonIndex n)) 0);
      [lia|].
    destruct (Z.ltb_spec (Z.of_nat count - 1)
                (currentButtonIndex n + (Z.of_nat count - 1 - currentButtonIndex n))); cbn [orb]; lia.
  - intros code Hcode.
    assert (Hk : handleKeydown code n = (x ← moveButtonFocus (-1) n; mret (x, true))).
    { destruct Hcode as [-> | ->]; reflexivity. }
    rewrite Hk.
    destruct (moveButtonFocus_oneTabStop count (-1) n Hn) as (n' & -> & _ & Hc & Hsame).
    exists n'. split; [reflexivity|]. split.
    + rewrite Hc. destruct (Z.ltb_spec (currentButtonIndex n + -1) 0);
        destruct (Z.ltb_spec (Z.of_nat count - 1) (currentButtonIndex n + -1)); cbn [orb]; lia.
    + intros H0. apply Hsame; [|lia]. rewrite Hc, H0. reflexivity.
  - intros code Hcode.
    assert (Hk : handleKeydown code n = (x ← moveButtonFocus 1 n; mret (x, true))).
    { destruct Hcode as [-> | ->]; reflexivity. }
    rewrite Hk.
    destruct (moveButtonFocus_oneTabStop count 1 n Hn) as (n' & -> & _ & Hc & Hsame).
    exists n'. split; [reflexivity|]. split.
    + rewrite Hc. destruct (Z.ltb_spec (currentButtonIndex n + 1) 0);
        destruct (Z.ltb_spec (Z.of_nat count - 1) (currentButtonIndex n + 1)); cbn [orb]; lia.
    + intros Hl. apply Hsame; [|lia]. rewrite Hc, Hl.
      destruct (Z.ltb_spec (Z.of_nat count - 1 + 1) 0);
        destruct (Z.ltb_spec (Z.of_nat count - 1) (Z.of_nat count - 1 + 1)); cbn [orb]; lia.
  - intros code Hcode. unfold handleKeydown.
    repeat match goal with
           | |- context [String.eqb code ?k] =>
               destruct (String.eqb_spec code k) as [-> | _];
                 [exfalso; apply Hcode; repeat (apply elem_of_cons; (now left) || right)|]
           end.
    reflexivity.
Qed.

End FocusFacts.

(** ** The progress indicator *)

Section ProgressFacts.
Import ProgressIndicator.

Lemma update_ariaValueText newMin newMax newNow text p :
  ariaValueText (update newMin newMax newNow text p) = ariaValueText p /\
  textMode (update newMin newMax newNow text p) = textMode p /\
  progressText (update newMin newMax newNow text p) =
    match text with VStr s => s | _ => progressText p end.
Proof.
  unfold update.
  destruct newMin as [| |b1|m|s1|f1]; destruct newMax as [| |b2|x|s2|f2];
    destruct newNow as [| |b3|v|s3|f3]; destruct text as [| |b4|n4|s|f4]; cbn;
    repeat match goal with |- context [if ?c then _ else _] => destruct c; cbn end;
    now repeat split.
Qed.

(** X17.  As the navigation bar uses its progress indicator (it builds it,
    updates it and resets it, and the text mode is not switched from
    outside), the indicator is in text mode and the attribute
    [aria-valuetext] of the meter is the empty string throughout: an update
    with a text changes the text that is shown, not the attribute, which
    is written only when text mode is switched on and then takes the text
    of that moment. *)
Theorem aria_value_text_is_written_with_the_text_mode uses :
  Forall keepsTextMode uses ->
  ariaValueText (run uses build) = Some ""%string /\
  textMode (run uses build) = true /\
  (forall now min max s,
     progressText (step (BarUpdate now min max (VStr s)) (run uses build)) = s /\
     ariaValueText (step (BarUpdate now min max (VStr s)) (run uses build)) = Some ""%string) /\
  (forall p, ariaValueText (toggleTextMode (VBool true) p) = Some (progressText p)) /\
  (forall p, ariaValueText (toggleTextMode (VBool false) p) = None).
Proof.
  intros Huses.
  assert (Hrun : ariaValueText (run uses build) = Some ""%string /\
                 textMode (run uses build) = true).
  { unfold run. assert (Hb : ariaValueText build = Some ""%string /\ textMode build = true)
      by now split.
    revert Hb. generalize build. induction Huses as [|u uses Hu _ IH]; intros p Hp; cbn;
      [exact Hp|].
    apply IH. destruct Hp as [Ha Ht]. destruct u as [now min max text|on|]; cbn [step].
    - destruct (update_ariaValueText min max now text p) as (-> & -> & _). now split.
    - contradiction.
    - unfold toggleTextMode. cbn [ariaValueText textMode].
      destruct (update_ariaValueText VUndefined VUndefined VUndefined (VStr "") p)
        as (_ & _ & ->). now split. }
  destruct Hrun as [Ha Ht]. split; [exact Ha|]. split; [exact Ht|].
  split; [|split; reflexivity].
  intros now min max s. cbn [step].
  destruct (update_ariaValueText min max now (VStr s) (run uses build)) as (-> & _ & ->).
  now split.
Qed.

Lemma update_numbers newMin newMax newNow text p :
  let min' := match newMin with
              | VNum m => if gt m (min p) then m else min p
              | _ => min p
              end in
  let max' := match newMax with
              | VNum m => if gt m min' then m else max p
              | _ => max p
              end in
  let now' := match newNow with
              | VNum v => if ge v min' && lte v max' then v else now p
              | _ => now p
              end in
  min (update newMin newMax newNow text p) = min' /\
  max (update newMin newMax newNow text p) = max' /\
  now (update newMin newMax newNow text p) = now'.
Proof.
  unfold update. cbv zeta.
  destruct newMin as [| |b1|m|s1|f1]; destruct newMax as [| |b2|x|s2|f2];
    destruct newNow as [| |b3|v|s3|f3]; destruct text as [| |b4|n4|s|f4];
    repeat (cbn [min max now progressText textMode ariaValueText];
            match goal with
            | |- context [if ?c then _ else _] => destruct c eqn:?
            end);
    cbn [min max now progressText textMode ariaValueText] in *;
    try congruence; now repeat split.
Qed.

Lemma gt_not_NaN a b : gt a b = true -> isNaN a = false.
Proof. unfold gt. destruct a, b; (discriminate || reflexivity). Qed.

Lemma ge_not_NaN a b : ge a b = true -> isNaN a = false.
Proof. destruct a, b; (discriminate || reflexivity). Qed.

Lemma aria_value_text_is_written_with_the_text_mode_witness :
  Forall keepsTextMode sampleUses /\
  ariaValueText (run sampleUses build) = Some EmptyString /\
  textMode (run sampleUses build) = true.
Proof.
  assert (Huses : Forall keepsTextMode sampleUses) by (repeat constructor).
  destruct (aria_value_text_is_written_with_the_text_mode sampleUses Huses)
    as (Haria & Hmode & _).
  now repeat split.
Defined.

(** X18.  [update] guards the numbers of the progress indicator: the
    minimum never decreases, a maximum is taken only when it is above the
    minimum and a current value only when it is within minimum and
    maximum, values that are not numbers and NaN are ignored; but a new
    minimum is taken whenever it is above the old one, also when that
    leaves it above the maximum. *)
Theorem progress_numbers_are_guarded newMin newMax newNow text p :
  let p' := update newMin newMax newNow text p in
  lt (min p') (min p) = false /\
  (max p' = max p \/ (newMax = VNum (max p') /\ gt (max p') (min p') = true)) /\
  (now p' = now p \/
   (newNow = VNum (now p') /\ ge (now p') (min p') = true /\ lte (now p') (max p') = true)) /\
  (isNaN (min p) = false -> isNaN (min p') = false) /\
  (isNaN (max p) = false -> isNaN (max p') = false) /\
  (isNaN (now p) = false -> isNaN (now p') = false) /\
  (forall m, newMin = VNum m -> gt m (min p) = true -> min p' = m).
Proof.
  intros p'. destruct (update_numbers newMin newMax newNow text p) as (Hmin & Hmax & Hnow).
  fold p' in Hmin, Hmax, Hnow. rewrite <- Hmin in Hmax. rewrite <- Hmin, <- Hmax in Hnow.
  split; [|split; [|split; [|split; [|split; [|split]]]]].
  - rewrite Hmin. destruct newMin as [| |b1|m|s1|f1]; try apply lt_irrefl.
    destruct (gt m (min p)) eqn:Hg; [now apply lt_asym|apply lt_irrefl].
  - destruct newMax as [| |b2|x|s2|f2]; try (now left).
    destruct (gt x (min p')) eqn:Hg; [|now left]. right. rewrite Hmax. now split.
  - destruct newNow as [| |b3|v|s3|f3]; try (now left).
    destruct (ge v (min p') && lte v (max p')) eqn:Hg; [|now left]. right. rewrite Hnow.
    apply andb_true_iff in Hg. now split.
  - intros Hn. rewrite Hmin. destruct newMin as [| |b1|m|s1|f1]; try assumption.
    destruct (gt m (min p)) eqn:Hg; [now apply gt_not_NaN in Hg|assumption].
  - intros Hn. rewrite Hmax. destruct newMax as [| |b2|x|s2|f2]; try assumption.
    destruct (gt x (min p')) eqn:Hg; [now apply gt_not_NaN in Hg|assumption].
  - intros Hn. rewrite Hnow. destruct newNow as [| |b3|v|s3|f3]; try assumption.
    destruct (ge v (min p') && lte v (max p')) eqn:Hg; [|assumption].
    apply andb_true_iff in Hg as [Hg _]. now apply ge_not_NaN in Hg.
  - intros m -> Hg. rewrite Hmin. now rewrite Hg.
Qed.

End ProgressFacts.

(** ** More on services/util.js *)

(** X19.  With a default within the bounds and a minimum that is not above
    the maximum, what [sanitizeNumber] returns is a number within the
    bounds, and sanitizing it again returns it unchanged. *)
Theorem sanitizeNumber_idempotent rt value defaultValue lo hi :
  within defaultValue lo hi -> isNaN lo = false -> isNaN hi = false -> lt hi lo = false ->
  exists r,
    Util.sanitizeNumber rt value (VNum defaultValue) (VNum lo) (VNum hi) = Returned (VNum r) /\
    within r lo hi /\
    Util.sanitizeNumber rt (VNum r) (VNum defaultValue) (VNum lo) (VNum hi) = Returned (VNum r).
Proof.
  intros Hd Hlo Hhi Hord. exists (sanitized rt value defaultValue lo hi).
  pose proof (sanitized_within rt value defaultValue lo hi Hd Hlo Hhi Hord) as Hw.
  split; [apply sanitizeNumber_numbers|]. split; [exact Hw|].
  rewrite sanitizeNumber_numbers. now rewrite (sanitized_number rt _ defaultValue lo hi Hw).
Qed.

Lemma sanitizeNumber_idempotent_witness :
  (within (ofZ 0) (ofZ (-90)) (ofZ 90) /\ isNaN (ofZ (-90)) = false /\
   isNaN (ofZ 90) = false /\ lt (ofZ 90) (ofZ (-90)) = false) /\
  exists r,
    Util.sanitizeNumber decimalRuntime (VStr "120.5") (VNum (ofZ 0))
      (VNum (ofZ (-90))) (VNum (ofZ 90)) = Returned (VNum r) /\
    within r (ofZ (-90)) (ofZ 90) /\
    Util.sanitizeNumber decimalRuntime (VNum r) (VNum (ofZ 0))
      (VNum (ofZ (-90))) (VNum (ofZ 90)) = Returned (VNum r).
Proof.
  assert (Hw : within (ofZ 0) (ofZ (-90)) (ofZ 90)) by (vm_compute; now repeat split).
  split; [now repeat split|].
  exact (sanitizeNumber_idempotent decimalRuntime (VStr "120.5") (ofZ 0) (ofZ (-90)) (ofZ 90)
           Hw eq_refl eq_refl eq_refl).
Defined.

Section AspectRatio.
Variable rt : Runtime.

(** X20.  [parseAspectRatio] checks what it is given and not what it
    computes.  A finite number is returned as it is, any other number and
    any value that is neither a number nor a string gives null.  A string
    with a slash gives null unless it has exactly two segments that both
    parse as finite numbers above 0, and then gives their quotient as the
    runtime computes it, which is not looked at again; a string without a
    slash gives what [parseFloat] makes of it when that is finite.  So a
    result that is not a finite number can only be such a quotient. *)
Theorem parseAspectRatio_checks_what_it_is_given value :
  (forall n, value = VNum n ->
     Util.parseAspectRatio rt value = if isFinite n then Some n else None) /\
  (isNumber value = false -> (forall s, value <> VStr s) ->
     Util.parseAspectRatio rt value = None) /\
  (forall s, value = VStr s -> Util.includes "/" s = true ->
     (length (Util.split "/" s) <> 2 -> Util.parseAspectRatio rt value = None) /\
     (forall first second, Util.split "/" s = [first; second] ->
        Util.parseAspectRatio rt value =
          if isFinite (parseFloat rt first) && gt (parseFloat rt first) (ofZ 0) &&
             isFinite (parseFloat rt second) && gt (parseFloat rt second) (ofZ 0)
          then Some (quotient rt (parseFloat rt first) (parseFloat rt second))
          else None)) /\
  (forall s, value = VStr s -> Util.includes "/" s = false ->
     Util.parseAspectRatio rt value =
       if isFinite (parseFloat rt s) then Some (parseFloat rt s) else None) /\
  (forall r, Util.parseAspectRatio rt value = Some r ->
     isFinite r = true \/
     exists s first second,
       value = VStr s /\ Util.split "/" s = [first; second] /\
       r = quotient rt (parseFloat rt first) (parseFloat rt second)).
Proof.
  assert (Hslash : forall s first second,
            Util.includes "/" s = true -> Util.split "/" s = [first; second] ->
            Util.parseAspectRatio rt (VStr s) =
              if isFinite (parseFloat rt first) && gt (parseFloat rt first) (ofZ 0) &&
                 isFinite (parseFloat rt second) && gt (parseFloat rt second) (ofZ 0)
              then Some (quotient rt (parseFloat rt first) (parseFloat rt second))
              else None).
  { intros s first second Hin Hsplit. unfold Util.parseAspectRatio. rewrite Hin, Hsplit.
    assert (Hgt : forall z, gt (Fin z) (ofZ 0) = negb (lte (Fin z) (ofZ 0))).
    { intros z. unfold lte, gt, ofZ. now destruct (lt _ _). }
    destruct (parseFloat rt first) as [| |x|]; try reflexivity;
      destruct (parseFloat rt second) as [| |y|];
      cbn [isNaN isFinite negb orb andb]; rewrite ?Hgt;
      try (destruct (lte (Fin x) (ofZ 0)); reflexivity).
    destruct (lte (Fin x) (ofZ 0)); [reflexivity|].
    now destruct (lte (Fin y) (ofZ 0)). }
  split; [|split; [|split; [|split]]].
  - now intros n ->.
  - intros Hn Hs. destruct value as [| |b|n|s|f]; try reflexivity; [discriminate|].
    now destruct (Hs s).
  - intros s -> Hin. split.
    + intros Hlen. unfold Util.parseAspectRatio. rewrite Hin.
      destruct (Util.split "/" s) as [|first [|second [|third more]]]; try reflexivity.
      now destruct Hlen.
    + intros first second Hsplit. exact (Hslash s first second Hin Hsplit).
  - intros s -> Hin. unfold Util.parseAspectRatio. rewrite Hin.
    now destruct (parseFloat rt s).
  - intros r Hr. destruct value as [| |b|n|s|f]; try discriminate.
    + left. cbn in Hr. destruct (isFinite n) eqn:Hn; [|discriminate]. now injection Hr as <-.
    + destruct (Util.includes "/" s) eqn:Hin.
      * right. destruct (Util.split "/" s) as [|first [|second [|third more]]] eqn:Hsplit;
          try (unfold Util.parseAspectRatio in Hr; rewrite Hin, Hsplit in Hr; discriminate).
        rewrite (Hslash s first second Hin Hsplit) in Hr.
        destruct (_ && _) in Hr; [|discriminate]. injection Hr as <-.
        now exists s, first, second.
      * left. unfold Util.parseAspectRatio in Hr. rewrite Hin in Hr.
        destruct (parseFloat rt s) as [| |x|]; try discriminate. cbn in Hr.
        now injection Hr as <-.
Qed.

End AspectRatio.

(** [parseAspectRatio] on decimal numerals. *)
Example parseAspectRatio_on_numerals :
  Util.parseAspectRatio decimalRuntime (VStr "16 / 9") = Some (Fin (16 # 9)) /\
  Util.parseAspectRatio decimalRuntime (VStr "1.5") = Some (Fin (3 # 2)) /\
  Util.parseAspectRatio decimalRuntime (VStr "4/3/2") = None /\
  Util.parseAspectRatio decimalRuntime (VStr "4/0") = None /\
  Util.parseAspectRatio decimalRuntime (VStr "") = None /\
  Util.parseAspectRatio decimalRuntime (VNum PosInf) = None /\
  Util.parseAspectRatio decimalRuntime VNull = None.
Proof. repeat split; vm_compute; reflexivity. Qed.

(** ** Fullscreen *)

Section FullscreenFacts.
Variable rt : Runtime.
Import Fullscreen.

(** X21.  [setFullscreen] of the map changes nothing when a dimension of
    the available space is missing, 0 or NaN, not even when fullscreen is
    left.  Otherwise it removes both limits of the map container and, when
    fullscreen is entered, sets exactly one of them: the height limit when
    the available space is wider than the aspect ratio, the width limit
    when it is not; the ratio is read from the custom property, the default
    "16 / 9" standing in only for a property that is null or undefined, and
    a ratio that cannot be parsed counts as 0.  [setFullscreen] of the main
    component does nothing for a value that is not a boolean, and leaves
    the fullscreen button with exactly one of the classes for entering and
    exiting. *)
Theorem fullscreen_limits_one_dimension shouldBeFullScreen space property style :
  (usable space = false ->
   setFullscreenMap rt shouldBeFullScreen space property style = style) /\
  (usable space = true ->
   setFullscreenMap rt false space property style =
     {| maxHeight := None; maxWidth := None |}) /\
  (forall width height,
     spaceWidth space = Some width -> spaceHeight space = Some height ->
     usable space = true ->
     setFullscreenMap rt true space property style =
       if gt (quotient rt width height)
             (default (ofZ 0)
                (Util.parseAspectRatio rt
                   (match property with
                    | VUndefined | VNull => VStr "16 / 9"
                    | _ => property
                    end)))
       then {| maxHeight := Some (toString rt height ++ "px")%string; maxWidth := None |}
       else {| maxHeight := None; maxWidth := Some (toString rt width ++ "px")%string |}) /\
  (forall value page state,
     (forall fullscreen, value <> VBool fullscreen) ->
     setFullscreen rt value page state = state) /\
  (forall fullscreen page style0 classes,
     (setFullscreen rt (VBool fullscreen) page (style0, Some classes)).2 =
       Some {| enterFullscreen := negb fullscreen;
               exitFullscreen := fullscreen;
               activeClass := fullscreen |} /\
     (setFullscreen rt (VBool fullscreen) page (style0, None)).2 = None).
Proof.
  split; [|split; [|split; [|split]]].
  - unfold usable, setFullscreenMap.
    destruct (spaceWidth space) as [w|], (spaceHeight space) as [h|]; try reflexivity.
    intros Hu. apply andb_false_iff in Hu as [-> | ->]; [reflexivity|].
    now rewrite orb_true_r.
  - unfold usable, setFullscreenMap.
    destruct (spaceWidth space) as [w|], (spaceHeight space) as [h|]; try discriminate.
    intros Hu. apply andb_true_iff in Hu as [-> ->]. reflexivity.
  - intros width height Hw Hh. unfold usable, setFullscreenMap. rewrite Hw, Hh.
    intros Hu. apply andb_true_iff in Hu as [-> ->]. cbn [negb orb].
    unfold nullish, px, ASPECT_RATIO_DEFAULT.
    now destruct (gt (quotient rt width height) _).
  - intros value page state Hv. destruct value as [| |b| | |]; try reflexivity.
    now destruct (Hv b).
  - intros fullscreen page style0 classes. split; [|reflexivity].
    unfold setFullscreen, setFullscreenBar. cbn [fst snd strictEq strictNeq].
    now destruct fullscreen.
Qed.

End FullscreenFacts.

(** ** The paths of the geo map *)

Section PathFacts.
Import Paths.

Lemma addPath_pathsOnMap a b g : pathsOnMap g -> pathsOnMap (addPath a b g).
Proof.
  intros (Hl & Hn & Hc). unfold pathsOnMap, pathIds, addPath in *. cbn.
  rewrite fmap_app. cbn. split; [now rewrite Hl|]. split.
  - apply NoDup_app. split; [exact Hn|]. split; [|apply NoDup_singleton].
    intros id Hid Hid'. apply list_elem_of_singleton in Hid'. subst id.
    apply Hc in Hid. lia.
  - intros id Hid. apply elem_of_app in Hid as [Hid | Hid].
    + apply Hc in Hid. lia.
    + apply list_elem_of_singleton in Hid. lia.
Qed.

Lemma connect_prefix markers m g0 :
  m <= length markers ->
  let g := fold_left
             (fun acc i =>
                if Nat.eqb i 0 then acc
                else
                  match markers !! (i - 1), markers !! i with
                  | Some previous, Some current => addPath previous current acc
                  | _, _ => acc
                  end) (seq 0 m) g0 in
  length (paths g) = length (paths g0) + (m - 1) /\
  created g = created g0 + (m - 1) /\
  (forall k, k + 1 < m ->
     exists path,
       paths g !! (length (paths g0) + k) = Some path /\
       markers !! k = Some (pathFrom path) /\ markers !! (k + 1) = Some (pathTo path) /\
       pathId path = created g0 + k) /\
  (pathsOnMap g0 -> pathsOnMap g).
Proof.
  induction m as [|m IH]; intros Hm; cbn zeta.
  - cbn. split; [lia|]. split; [lia|]. split; [intros k Hk; lia|auto].
  - rewrite seq_S, fold_left_app. cbn [fold_left Nat.add].
    destruct (IH ltac:(lia)) as (Hlen & Hcr & Hk & Hon). cbn zeta in Hlen, Hcr, Hk, Hon.
    set (g := fold_left _ (seq 0 m) g0) in *.
    destruct m as [|m']; [cbn; split; [lia|]; split; [lia|]; split; [intros k Hk'; lia|auto]|].
    cbn [Nat.eqb]. replace (S m' - 1) with m' in * by lia.
    destruct (lookup_lt_is_Some_2 markers m') as [previous Hp]; [lia|].
    destruct (lookup_lt_is_Some_2 markers (S m')) as [current Hc]; [lia|].
    rewrite Hp, Hc. split; [|split; [|split]].
    + unfold addPath. cbn [paths]. rewrite length_app, Hlen. cbn [length]. lia.
    + unfold addPath. cbn [created]. rewrite Hcr. lia.
    + intros k Hk'. destruct (decide (k = m')) as [-> | Hne].
      * eexists. split.
        { cbn [addPath paths]. rewrite lookup_app_r by lia.
          replace (length (paths g0) + m' - length (paths g)) with 0 by lia. reflexivity. }
        cbn [pathFrom pathTo pathId]. replace (m' + 1) with (S m') by lia.
        split; [exact Hp|]. split; [exact Hc|lia].
      * destruct (Hk k ltac:(lia)) as (path & Hpath & Hrest).
        exists path. split; [|exact Hrest].
        cbn [addPath paths]. rewrite lookup_app_l; [exact Hpath|].
        eapply lookup_lt_Some, Hpath.
    + intros H0. apply addPath_pathsOnMap. now apply Hon.
Qed.

Lemma removePaths_paths ps g path :
  In path (paths (fold_left (fun acc p => removePath p acc) ps g)) ->
  In path (paths g) /\ ~ In (pathId path) (pathIds ps).
Proof.
  revert g. induction ps as [|p ps IH]; intros g Hin; cbn in *; [tauto|].
  apply IH in Hin as [Hin Hnot]. cbn in Hin. apply filter_In in Hin as [Hin Hne].
  split; [exact Hin|]. intros [He | Hi]; [|now apply Hnot].
  rewrite <- He, Nat.eqb_refl in Hne. discriminate.
Qed.

Lemma removePaths_layers ps g id :
  In id (layers (fold_left (fun acc p => removePath p acc) ps g)) ->
  In id (layers g) /\ ~ In id (pathIds ps).
Proof.
  revert g. induction ps as [|p ps IH]; intros g Hin; cbn in *; [tauto|].
  apply IH in Hin as [Hin Hnot]. cbn in Hin. apply filter_In in Hin as [Hin Hne].
  split; [exact Hin|]. intros [He | Hi]; [|now apply Hnot].
  rewrite He, Nat.eqb_refl in Hne. discriminate.
Qed.

Lemma removePaths_created ps g :
  created (fold_left (fun acc p => removePath p acc) ps g) = created g.
Proof. revert g. induction ps as [|p ps IH]; intros g; cbn; [reflexivity|]. now rewrite IH. Qed.

(** X22.  [connectMarkersWithPaths] on a map without paths adds one path
    less than there are markers, the path at position k running from the
    marker at k to the one at k + 1, each a layer of the map and none twice;
    and [removeAllPaths] then, or on any map whose paths are its layers,
    leaves no path in the list and no path layer on the map, although the
    list is replaced while the loop over it runs. *)
Theorem paths_join_consecutive_markers markers :
  let g := connectMarkersWithPaths markers empty in
  length (paths g) = length markers - 1 /\
  (forall k, k + 1 < length markers ->
     exists path,
       paths g !! k = Some path /\
       markers !! k = Some (pathFrom path) /\ markers !! (k + 1) = Some (pathTo path)) /\
  layers g = pathId <$> paths g /\
  NoDup (pathId <$> paths g) /\
  paths (removeAllPaths g) = [] /\ layers (removeAllPaths g) = [] /\
  (forall g', layers g' = pathId <$> paths g' ->
     paths (removeAllPaths g') = [] /\ layers (removeAllPaths g') = [] /\
     created (removeAllPaths g') = created g').
Proof.
  intros g.
  assert (Hall : forall g', layers g' = pathId <$> paths g' ->
            paths (removeAllPaths g') = [] /\ layers (removeAllPaths g') = [] /\
            created (removeAllPaths g') = created g').
  { intros g' Hl. unfold removeAllPaths. split; [|split; [|apply removePaths_created]].
    - destruct (paths (fold_left _ (paths g') g')) as [|path rest] eqn:Hp; [reflexivity|].
      exfalso. destruct (removePaths_paths (paths g') g' path) as [Hin Hnot].
      + rewrite Hp. now left.
      + apply Hnot. unfold pathIds. apply list_elem_of_In, list_elem_of_fmap.
        exists path. split; [reflexivity|now apply list_elem_of_In].
    - destruct (layers (fold_left _ (paths g') g')) as [|id rest] eqn:Hp; [reflexivity|].
      exfalso. destruct (removePaths_layers (paths g') g' id) as [Hin Hnot].
      + rewrite Hp. now left.
      + apply Hnot. unfold pathIds. now rewrite <- Hl. }
  destruct (connect_prefix markers (length markers) empty (Nat.le_refl _))
    as (Hlen & _ & Hk & Hon).
  fold (connectMarkersWithPaths markers empty) in Hlen, Hk, Hon. fold g in Hlen, Hk, Hon.
  assert (Hg : pathsOnMap g).
  { apply Hon. split; [reflexivity|]. split; [apply NoDup_nil_2|].
    intros id Hid. now apply elem_of_nil in Hid. }
  destruct Hg as (Hl & Hn & _).
  split; [exact Hlen|]. split.
  { intros k Hk'. destruct (Hk k Hk') as (path & Hp & Hf & Ht & _). now exists path. }
  split; [exact Hl|]. split; [exact Hn|].
  destruct (Hall g Hl) as (H1 & H2 & _). split; [exact H1|]. split; [exact H2|exact Hall].
Qed.

End PathFacts.

(** ** Language tags *)

Lemma splitFirst_free c s : Util.includes c s = false -> Util.splitFirst c s = (s, []).
Proof.
  induction s as [|c' s IH]; cbn; [reflexivity|]. intros H.
  apply orb_false_iff in H as [Hc Hs]. now rewrite (IH Hs), Hc.
Qed.

Lemma splitFirst_segments c s :
  Util.includes c (Util.splitFirst c s).1 = false /\
  Forall (fun segment => Util.includes c segment = false) (Util.splitFirst c s).2.
Proof.
  induction s as [|c' s [IH1 IH2]]; cbn; [now split|].
  destruct (Util.splitFirst c s) as [segment segments]. cbn in *.
  destruct (Ascii.eqb c' c) eqn:Hc; cbn.
  - split; [reflexivity|]. now constructor.
  - now rewrite Hc, IH1.
Qed.

Lemma splitFirst_append c a t :
  Util.includes c a = false ->
  Util.splitFirst c (a ++ String c t) = (a, Util.split c t).
Proof.
  induction a as [|c' a IH]; simpl.
  - intros _. unfold Util.split.
    destruct (Util.splitFirst c t) as [segment segments]. now rewrite (Ascii.eqb_refl c).
  - intros H. apply orb_false_iff in H as [Hc Ha]. now rewrite (IH Ha), Hc.
Qed.

Lemma join_cons c segment second more :
  Util.join (String c EmptyString) (segment :: second :: more) =
    (segment ++ String c (Util.join (String c EmptyString) (second :: more)))%string.
Proof. reflexivity. Qed.

Lemma split_join c segment segments :
  Util.includes c segment = false ->
  Forall (fun s => Util.includes c s = false) segments ->
  Util.splitFirst c (Util.join (String c EmptyString) (segment :: segments)) =
    (segment, segments).
Proof.
  revert segment. induction segments as [|second more IH]; intros segment Hs Hall.
  - cbn. now apply splitFirst_free.
  - apply Forall_cons in Hall as [Hsecond Hmore].
    rewrite join_cons, (splitFirst_append c segment _ Hs). unfold Util.split.
    now rewrite (IH second Hsecond Hmore).
Qed.

Lemma join_split c s : Util.join (String c EmptyString) (Util.split c s) = s.
Proof.
  unfold Util.split. induction s as [|c' s IH]; [reflexivity|].
  simpl Util.splitFirst. destruct (Util.splitFirst c s) as [segment segments].
  destruct (Ascii.eqb_spec c' c) as [-> | Hne].
  - rewrite join_cons, IH. reflexivity.
  - destruct segments as [|second more].
    + simpl in *. now rewrite IH.
    + rewrite join_cons in *. change (String c' segment ++ ?x)%string with (String c' (segment ++ x)).
      now rewrite IH.
Qed.

Section LanguageCode.
Variable toLowerCase : string -> string.
Variable toUpperCase : string -> string.

(** X23.  [formatLanguageCode] returns a value that is not a string as it
    is.  Of a string it lower-cases the part before the first hyphen and
    upper-cases the part between the first and the second; what follows
    the second hyphen is kept as it is, and a string without a hyphen is
    lower-cased as a whole.  Formatting a formatted tag again changes
    nothing, provided the case mappings put no hyphen into these two
    parts and leave what they produced for them as it is. *)
Theorem formatLanguageCode_formats_two_segments :
  (forall v, (forall s, v <> VStr s) ->
     Util.formatLanguageCode toLowerCase toUpperCase v = v) /\
  (forall s, Util.includes "-" s = false ->
     Util.formatLanguageCode toLowerCase toUpperCase (VStr s) = VStr (toLowerCase s)) /\
  (forall s first second more,
     Util.split "-" s = first :: second :: more ->
     Util.formatLanguageCode toLowerCase toUpperCase (VStr s) =
       VStr (Util.join "-" (toLowerCase first :: toUpperCase second :: more))) /\
  (forall s first rest,
     Util.split "-" s = first :: rest ->
     Util.includes "-" (toLowerCase first) = false ->
     toLowerCase (toLowerCase first) = toLowerCase first ->
     (forall second more, rest = second :: more ->
        Util.includes "-" (toUpperCase second) = false /\
        toUpperCase (toUpperCase second) = toUpperCase second) ->
     Util.formatLanguageCode toLowerCase toUpperCase
       (Util.formatLanguageCode toLowerCase toUpperCase (VStr s)) =
     Util.formatLanguageCode toLowerCase toUpperCase (VStr s)) /\
  ((forall x, toLowerCase x = x) -> (forall x, toUpperCase x = x) ->
   forall s, Util.formatLanguageCode toLowerCase toUpperCase (VStr s) = VStr s).
Proof.
  split; [|split; [|split; [|split]]].
  - intros v Hv. destruct v as [| |b|n|s|f]; try reflexivity. now destruct (Hv s).
  - intros s Hs. unfold Util.formatLanguageCode. now rewrite (splitFirst_free _ _ Hs).
  - intros s first second more Hsplit. unfold Util.formatLanguageCode, Util.split in *.
    destruct (Util.splitFirst "-" s) as [x xs]. now injection Hsplit as -> ->.
  - intros s first rest Hsplit Hfree Hlow Hrest.
    assert (Hsegs : Forall (fun segment => Util.includes "-" segment = false) rest).
    { pose proof (splitFirst_segments "-" s) as [_ Hsegs]. unfold Util.split in Hsplit.
      destruct (Util.splitFirst "-" s) as [x xs]. now injection Hsplit as _ <-. }
    assert (Heq : Util.formatLanguageCode toLowerCase toUpperCase (VStr s) =
                  VStr (Util.join "-"
                          (toLowerCase first ::
                             match rest with
                             | second :: more => toUpperCase second :: more
                             | [] => []
                             end))).
    { unfold Util.formatLanguageCode, Util.split in *.
      destruct (Util.splitFirst "-" s) as [x xs]. now injection Hsplit as -> ->. }
    rewrite Heq. unfold Util.formatLanguageCode. destruct rest as [|second more].
    + simpl Util.join. rewrite (splitFirst_free _ _ Hfree). simpl. now rewrite Hlow.
    + destruct (Hrest second more eq_refl) as [Hfree2 Hup].
      apply Forall_cons in Hsegs as [_ Hmore].
      rewrite (split_join "-" (toLowerCase first) (toUpperCase second :: more) Hfree).
      * now rewrite Hlow, Hup.
      * now constructor.
  - intros Hl Hu s. unfold Util.formatLanguageCode.
    pose proof (join_split "-" s) as Hj. unfold Util.split in Hj.
    destruct (Util.splitFirst "-" s) as [x xs]. rewrite Hl.
    destruct xs as [|second more]; [exact (f_equal VStr Hj)|]. rewrite Hu.
    exact (f_equal VStr Hj).
Qed.

End LanguageCode.

(** Language tags with the case mappings of the ASCII letters. *)
Example formatLanguageCode_on_tags :
  Util.formatLanguageCode asciiLower asciiUpper (VStr "EN-us") = VStr "en-US" /\
  Util.formatLanguageCode asciiLower asciiUpper (VStr "NB") = VStr "nb" /\
  Util.formatLanguageCode asciiLower asciiUpper (VStr "zh-hans-CN") = VStr "zh-HANS-CN" /\
  Util.formatLanguageCode asciiLower asciiUpper (VStr "") = VStr "" /\
  Util.formatLanguageCode asciiLower asciiUpper VUndefined = VUndefined.
Proof. repeat split; vm_compute; reflexivity. Qed.

(** ** Merging objects *)

Lemma merge_nil target : Util.merge target (Util.Object []) = Returned target.
Proof. reflexivity. Qed.

Lemma merge_cons fields key v rest :
  Util.merge (Util.Object fields) (Util.Object ((key, v) :: rest)) =
    if Util.isObject (Util.get key fields) && Util.isObject v then
      merged ← Util.merge (Util.get key fields) v;
      Util.merge (Util.Object (Util.set key merged fields)) (Util.Object rest)
    else
      match v with
      | Util.Primitive VUndefined => Util.merge (Util.Object fields) (Util.Object rest)
      | _ => Util.merge (Util.Object (Util.set key v fields)) (Util.Object rest)
      end.
Proof. reflexivity. Qed.

Lemma get_set_eq key v fields : Util.get key (Util.set key v fields) = v.
Proof.
  induction fields as [|[k old] fields IH]; cbn.
  - now rewrite String.eqb_refl.
  - destruct (String.eqb k key) eqn:Hk; cbn; now rewrite Hk.
Qed.

Lemma get_set_ne key key' v fields :
  key <> key' -> Util.get key' (Util.set key v fields) = Util.get key' fields.
Proof.
  intros Hne. induction fields as [|[k old] fields IH]; cbn.
  - destruct (String.eqb_spec key key'); [contradiction|reflexivity].
  - destruct (String.eqb_spec k key) as [-> | Hk]; cbn.
    + destruct (String.eqb_spec key key'); [contradiction|reflexivity].
    + now rewrite IH.
Qed.

Lemma get_absent key (properties : list (string * Util.jsobject)) :
  key ∉ properties.*1 -> Util.get key properties = Util.Primitive VUndefined.
Proof.
  induction properties as [|[k v] properties IH]; cbn; [reflexivity|]. intros Hnot.
  destruct (String.eqb_spec k key) as [-> | Hk].
  - destruct Hnot. apply elem_of_cons. now left.
  - apply IH. intros Hin. apply Hnot. apply elem_of_cons. now right.
Qed.

Lemma mergedAt_absent old : mergedAt old (Util.Primitive VUndefined) old.
Proof. unfold mergedAt. cbn. now rewrite andb_false_r. Qed.

Lemma merge_by_key source : forall target result,
  NoDup source.*1 ->
  Util.merge (Util.Object target) (Util.Object source) = Returned result ->
  exists fields, result = Util.Object fields /\
    forall key, mergedAt (Util.get key target) (Util.get key source) (Util.get key fields).
Proof.
  induction source as [|[k v] rest IH]; intros target result Hnodup Hmerge.
  - rewrite merge_nil in Hmerge. injection Hmerge as <-. exists target. split; [reflexivity|].
    intros key. apply mergedAt_absent.
  - cbn [fmap list_fmap fst] in Hnodup. apply NoDup_cons in Hnodup as [Hfresh Hnodup].
    rewrite merge_cons in Hmerge.
    assert (Hstep : forall target', 
              Util.merge (Util.Object target') (Util.Object rest) = Returned result ->
              (forall key, key <> k -> Util.get key target' = Util.get key target) ->
              mergedAt (Util.get k target) v (Util.get k target') ->
              exists fields, result = Util.Object fields /\
                forall key, mergedAt (Util.get key target) (Util.get key ((k, v) :: rest))
                              (Util.get key fields)).
    { intros target' Hrest Hother Hk.
      destruct (IH target' result Hnodup Hrest) as (fields & -> & Hfields).
      exists fields. split; [reflexivity|]. intros key. specialize (Hfields key).
      cbn [Util.get]. destruct (String.eqb_spec k key) as [<- | Hne].
      - rewrite (get_absent k rest Hfresh) in Hfields.
        unfold mergedAt in Hfields. cbn in Hfields. rewrite andb_false_r in Hfields.
        now rewrite Hfields.
      - rewrite <- (Hother key); [exact Hfields|congruence]. }
    destruct (Util.isObject (Util.get k target) && Util.isObject v) eqn:Hboth.
    + destruct (Util.merge (Util.get k target) v) as [merged|e] eqn:Hsub; [|discriminate].
      cbn [mbind outcome_bind] in Hmerge. apply (Hstep _ Hmerge).
      * intros key Hne. apply get_set_ne. congruence.
      * unfold mergedAt. now rewrite Hboth, get_set_eq.
    + assert (Hcases : v = Util.Primitive VUndefined \/
                       (v <> Util.Primitive VUndefined /\
                        Util.merge (Util.Object (Util.set k v target)) (Util.Object rest) =
                          Returned result)).
      { destruct v as [[| |b|n|s|f]|properties]; (now left) || (right; split; [discriminate|exact Hmerge]). }
      destruct Hcases as [-> | [Hdefined Hmerge']].
      * apply (Hstep _ Hmerge); [reflexivity|]. unfold mergedAt. now rewrite Hboth.
      * apply (Hstep _ Hmerge').
        -- intros key Hne. apply get_set_ne. congruence.
        -- unfold mergedAt. rewrite Hboth, get_set_eq.
           destruct v as [[| |b|n|s|f]|properties]; try reflexivity. now destruct Hdefined.
Qed.

Lemma merge_returns source : forall target,
  (forall key v, (key, v) ∈ source -> Util.isObject v = true ->
     forall old, Util.isObject old = true -> exists merged, Util.merge old v = Returned merged) ->
  exists fields, Util.merge (Util.Object target) (Util.Object source) = Returned (Util.Object fields).
Proof.
  induction source as [|[k v] rest IH]; intros target Hsub.
  - exists target. apply merge_nil.
  - assert (Hrest : forall target', exists fields,
              Util.merge (Util.Object target') (Util.Object rest) = Returned (Util.Object fields)).
    { intros target'. apply IH. intros key v' Hin. apply (Hsub key v').
      apply elem_of_cons. now right. }
    rewrite merge_cons. destruct (Util.isObject (Util.get k target) && Util.isObject v) eqn:Hboth.
    + apply andb_true_iff in Hboth as [Hold Hnew].
      assert (Hin : (k, v) ∈ (k, v) :: rest) by (apply elem_of_cons; now left).
      destruct (Hsub k v Hin Hnew _ Hold) as [merged ->].
      cbn [mbind outcome_bind]. apply Hrest.
    + destruct v as [[| |b|n|s|f]|properties]; apply Hrest.
Qed.

Lemma plain_Object properties :
  plain (Util.Object properties) = true <->
  NoDup properties.*1 /\ Forall (fun property => plain property.2 = true) properties.
Proof.
  cbn [plain]. rewrite andb_true_iff, bool_decide_eq_true.
  apply and_iff_compat_l. induction properties as [|[k v] rest IH].
  - split; [constructor|reflexivity].
  - rewrite andb_true_iff, IH, Forall_cons. reflexivity.
Qed.

Lemma get_present key (properties : list (string * Util.jsobject)) :
  Util.get key properties <> Util.Primitive VUndefined -> key ∈ properties.*1.
Proof.
  intros Hget. destruct (decide (key ∈ properties.*1)) as [Hin|Hnot]; [exact Hin|].
  now destruct (Hget (get_absent key properties Hnot)).
Qed.

Lemma get_isObject key (properties : list (string * Util.jsobject)) :
  Util.isObject (Util.get key properties) = true -> key ∈ properties.*1.
Proof.
  intros Hobj. apply get_present. intros Heq. now rewrite Heq in Hobj.
Qed.

Lemma set_same key (properties : list (string * Util.jsobject)) :
  key ∈ properties.*1 -> Util.set key (Util.get key properties) properties = properties.
Proof.
  induction properties as [|[k v] rest IH]; cbn.
  - intros Hin. now apply elem_of_nil in Hin.
  - intros Hin. destruct (String.eqb_spec k key) as [-> | Hne]; [reflexivity|].
    apply elem_of_cons in Hin as [-> | Hin]; [contradiction|]. now rewrite (IH Hin).
Qed.

Lemma get_elem key v (properties : list (string * Util.jsobject)) :
  NoDup properties.*1 -> (key, v) ∈ properties -> Util.get key properties = v.
Proof.
  induction properties as [|[k w] rest IH]; cbn.
  - intros _ Hin. now apply elem_of_nil in Hin.
  - intros Hnodup Hin. apply NoDup_cons in Hnodup as [Hfresh Hnodup].
    apply elem_of_cons in Hin as [[= -> ->] | Hin].
    + now rewrite String.eqb_refl.
    + destruct (String.eqb_spec k key) as [-> | Hne]; [|now apply IH].
      destruct Hfresh. apply list_elem_of_fmap. now exists (key, v).
Qed.

Lemma merge_fixed source : forall fields,
  (forall key v, (key, v) ∈ source ->
     if Util.isObject (Util.get key fields) && Util.isObject v
     then Util.merge (Util.get key fields) v = Returned (Util.get key fields)
     else v = Util.Primitive VUndefined \/
          (Util.get key fields = v /\ key ∈ fields.*1)) ->
  Util.merge (Util.Object fields) (Util.Object source) = Returned (Util.Object fields).
Proof.
  induction source as [|[k v] rest IH]; intros fields Hstable; [apply merge_nil|].
  assert (Hrest : Util.merge (Util.Object fields) (Util.Object rest) =
                  Returned (Util.Object fields)).
  { apply IH. intros key w Hin. apply Hstable. apply elem_of_cons. now right. }
  assert (Hk : (k, v) ∈ (k, v) :: rest) by (apply elem_of_cons; now left).
  specialize (Hstable k v Hk). rewrite merge_cons.
  destruct (Util.isObject (Util.get k fields) && Util.isObject v) eqn:Hboth.
  - rewrite Hstable. cbn [mbind outcome_bind].
    apply andb_true_iff in Hboth as [Hold _].
    now rewrite (set_same k fields (get_isObject k fields Hold)).
  - destruct Hstable as [-> | [Hget Hin]]; [exact Hrest|].
    rewrite <- Hget, (set_same k fields Hin). rewrite Hget.
    destruct v as [[| |b|n|s|f]|properties]; exact Hrest.
Qed.

Lemma merge_Object_shape source : forall fields result,
  Util.merge (Util.Object fields) (Util.Object source) = Returned result ->
  exists fields', result = Util.Object fields'.
Proof.
  induction source as [|[k v] rest IH]; intros fields result Hmerge.
  - rewrite merge_nil in Hmerge. injection Hmerge as <-. now exists fields.
  - rewrite merge_cons in Hmerge.
    destruct (Util.isObject (Util.get k fields) && Util.isObject v).
    + destruct (Util.merge (Util.get k fields) v) as [merged|e]; [|discriminate].
      exact (IH _ _ Hmerge).
    + destruct v as [[| |b|n|s|f]|properties]; exact (IH _ _ Hmerge).
Qed.

Lemma merge_null source result :
  Util.isObject source = true ->
  Util.merge (Util.Primitive VNull) source = Returned result ->
  result = Util.Primitive VNull.
Proof.
  destruct source as [[| |b|n|s|f]|[|[k v] rest]]; try discriminate;
    intros _ [= <-]; reflexivity.
Qed.

Lemma merge_isObject target source result :
  Util.isObject target = true -> Util.isObject source = true ->
  Util.merge target source = Returned result -> Util.isObject result = true.
Proof.
  intros Htarget Hsource Hmerge.
  destruct target as [[| |b|n|s|f]|fields]; try discriminate.
  - now rewrite (merge_null source result Hsource Hmerge).
  - destruct source as [[| |b|n|s|f]|properties]; try discriminate.
    + now injection Hmerge as <-.
    + now destruct (merge_Object_shape _ _ _ Hmerge) as [fields' ->].
Qed.

Lemma merge_self o :
  plain o = true -> Util.isObject o = true -> Util.merge o o = Returned o.
Proof.
  induction o as [v|properties IH] using jsobject_deep_ind; intros Hplain Hobj.
  - destruct v as [| |b|n|s|f]; try discriminate. reflexivity.
  - apply plain_Object in Hplain as [Hnodup Hplain]. apply merge_fixed.
    intros key v Hin. rewrite (get_elem key v properties Hnodup Hin).
    destruct (Util.isObject v) eqn:Hv; cbn [andb].
    + rewrite Forall_forall in IH, Hplain.
      exact (IH (key, v) Hin (Hplain (key, v) Hin) Hv).
    + right. split; [reflexivity|]. apply list_elem_of_fmap. now exists (key, v).
Qed.

Lemma merge_again source :
  plain source = true -> Util.isObject source = true ->
  forall target result,
    Util.isObject target = true ->
    Util.merge target source = Returned result ->
    Util.merge result source = Returned result.
Proof.
  induction source as [v|properties IH] using jsobject_deep_ind;
    intros Hplain Hobj target result Htarget Hmerge.
  - destruct v as [| |b|n|s|f]; try discriminate. reflexivity.
  - destruct target as [[| |b|n|s|f]|fields]; try discriminate.
    + pose proof (merge_null _ result Hobj Hmerge) as ->. exact Hmerge.
    + apply plain_Object in Hplain as [Hnodup Hplain].
      destruct (merge_by_key properties fields result Hnodup Hmerge) as (fields' & -> & Hkeys).
      apply merge_fixed. intros key v Hin. specialize (Hkeys key).
      rewrite (get_elem key v properties Hnodup Hin) in Hkeys.
      rewrite Forall_forall in IH, Hplain.
      specialize (IH (key, v) Hin (Hplain (key, v) Hin)). specialize (Hplain (key, v) Hin).
      cbn [snd] in IH, Hplain. unfold mergedAt in Hkeys.
      destruct (Util.isObject v) eqn:Hv.
      * destruct (Util.isObject (Util.get key fields)) eqn:Hold; cbn [andb] in Hkeys.
        -- rewrite (merge_isObject _ _ _ Hold Hv Hkeys). cbn [andb].
           exact (IH eq_refl _ _ Hold Hkeys).
        -- assert (Hget : Util.get key fields' = v).
           { destruct v as [[| |b|n|s|f]|ps]; try discriminate; exact Hkeys. }
           rewrite Hget, Hv. cbn [andb]. now apply merge_self.
      * rewrite andb_false_r in *.
        assert (Hcases : v = Util.Primitive VUndefined \/
                         (v <> Util.Primitive VUndefined /\ Util.get key fields' = v)).
        { destruct v as [[| |b|n|s|f]|ps];
            (now left) || (right; split; [discriminate|exact Hkeys]). }
        destruct Hcases as [-> | [Hdefined Hget]]; [now left|].
        right. split; [exact Hget|]. apply get_present. now rewrite Hget.
Qed.

Lemma extend_two target source :
  Util.extend [target; source] = Util.merge target source.
Proof. unfold Util.extend. cbn [foldl mbind outcome_bind]. reflexivity. Qed.

(** X24.  [extend(target, source)] on two objects works key by key: where
    the target and the source both hold an object (or null) under a key,
    the result holds the two merged; where the source holds undefined or
    has no such key, the result holds what the target held; everywhere
    else the result holds the value of the source.  The call returns when
    no property of the source is an object with properties; a source that
    is no object and no string leaves the target as it is. *)
Theorem extend_merges_key_by_key (target source : list (string * Util.jsobject)) :
  NoDup source.*1 ->
  (forall result,
     Util.extend [Util.Object target; Util.Object source] = Returned result ->
     exists fields, result = Util.Object fields /\
       forall key,
         mergedAt (Util.get key target) (Util.get key source) (Util.get key fields)) /\
  ((forall key properties, (key, Util.Object properties) ∈ source -> properties = []) ->
   exists fields,
     Util.extend [Util.Object target; Util.Object source] = Returned (Util.Object fields)) /\
  (forall v, (forall s, v <> VStr s) ->
     Util.extend [Util.Object target; Util.Primitive v] = Returned (Util.Object target)).
Proof.
  intros Hnodup. split; [|split].
  - intros result. rewrite extend_two. now apply merge_by_key.
  - intros Hflat. rewrite extend_two. apply merge_returns.
    intros key v Hin Hv old Hold. exists old.
    destruct v as [[| |b|n|s|f]|properties]; try discriminate; [reflexivity|].
    rewrite (Hflat key properties Hin).
    destruct old as [[| |b|n|s|f]|fields]; try discriminate; reflexivity.
  - intros v Hv. rewrite extend_two.
    destruct v as [| |b|n|s|f]; try reflexivity. now destruct (Hv s).
Qed.

Lemma extend_merges_key_by_key_witness :
  NoDup sampleSettings.*1 /\
  exists fields,
    Util.extend [Util.Object sampleDefaults; Util.Object sampleSettings] =
      Returned (Util.Object fields) /\
    mergedAt (Util.get "zoom" sampleDefaults) (Util.get "zoom" sampleSettings)
      (Util.get "zoom" fields) /\
    mergedAt (Util.get "a11y" sampleDefaults) (Util.get "a11y" sampleSettings)
      (Util.get "a11y" fields).
Proof.
  assert (Hnodup : NoDup sampleSettings.*1) by (apply (bool_decide_eq_true_1 (NoDup sampleSettings.*1)); vm_compute; reflexivity).
  split; [exact Hnodup|].
  destruct (extend_merges_key_by_key sampleDefaults sampleSettings Hnodup) as [Hkeys _].
  destruct (Hkeys _ eq_refl) as (fields & Hfields & Hat).
  exists fields. split; [now rewrite <- Hfields|]. split; apply Hat.
Defined.

(** X25.  Merging the same source into the result of [extend] again
    changes nothing: [extend(extend(target, source), source)] and
    [extend(target, source, source)] return what [extend(target, source)]
    returned, and [extend(source, source)] returns the source. *)
Theorem extend_again_changes_nothing (target source : list (string * Util.jsobject)) result :
  plain (Util.Object source) = true ->
  Util.extend [Util.Object target; Util.Object source] = Returned result ->
  Util.extend [result; Util.Object source] = Returned result /\
  Util.extend [Util.Object target; Util.Object source; Util.Object source] = Returned result /\
  Util.extend [Util.Object source; Util.Object source] = Returned (Util.Object source).
Proof.
  intros Hplain Hmerge. rewrite extend_two in Hmerge.
  assert (Hagain : Util.merge result (Util.Object source) = Returned result)
    by exact (merge_again (Util.Object source) Hplain eq_refl (Util.Object target) _ eq_refl Hmerge).
  split; [|split].
  - now rewrite extend_two.
  - unfold Util.extend. cbn [foldl mbind outcome_bind]. rewrite Hmerge. exact Hagain.
  - rewrite extend_two. now apply merge_self.
Qed.

Lemma extend_again_changes_nothing_witness :
  plain (Util.Object sampleSettings) = true /\
  exists result,
    Util.extend [Util.Object sampleDefaults; Util.Object sampleSettings] = Returned result /\
    Util.extend [result; Util.Object sampleSettings] = Returned result.
Proof.
  split; [vm_compute; reflexivity|].
  eexists. split; [vm_compute; reflexivity|].
  refine (proj1 (extend_again_changes_nothing sampleDefaults sampleSettings _ _ _));
    vm_compute; reflexivity.
Defined.
